(** * A shallow embedding of [pacman.py]

    The game state of the Python program is modelled with explicit state
    passing.  Python [float]s are IEEE 754 binary64 numbers: they are
    modelled by [spec_float] with precision 53 and maximal exponent 1024, so
    that every position computed here is bit-for-bit the one the interpreter
    computes.  Python [int]s are [Z]; the [set]s of grid cells are [gset]s;
    the module-level generator of [random] is an explicit script of draws. *)

From Stdlib Require Import ZArith List Ascii String Floats.SpecFloat.
From stdpp Require Import gmap strings list.

Open Scope Z_scope.

(** ** Python numbers *)

Module Py.

Definition float := spec_float.
Definition prec : Z := 53.
Definition emax : Z := 1024.

Definition fadd : float -> float -> float := SFadd prec emax.
Definition fsub : float -> float -> float := SFsub prec emax.
Definition fmul : float -> float -> float := SFmul prec emax.
Definition fdiv : float -> float -> float := SFdiv prec emax.
Definition fabs : float -> float := SFabs.
Definition flt : float -> float -> bool := SFltb.

(** [float(n)] for an [int]: the nearest double, ties to even.  (CPython
    raises [OverflowError] from [2^1024] on, where this gives infinity;
    grid coordinates are indices of Python sequences and stay far below.) *)
Definition float_of_int (n : Z) : float := binary_normalize prec emax n 0 false.

(** A decimal literal [p/q] denotes the double nearest to the rational
    [p/q]; for exactly representable [p] and [q] that is the correctly
    rounded quotient. *)
Definition literal (p q : Z) : float := fdiv (float_of_int p) (float_of_int q).

(** [round(x)] with one argument: the nearest [int], ties to even.  On an
    infinity or a NaN CPython raises; positions are sums of finitely many
    steps below one tile and stay finite, and the model answers 0 there. *)
Definition round (x : float) : Z :=
  match x with
  | S754_finite s m e =>
      let n :=
        if 0 <=? e then Z.pos m * 2 ^ e
        else
          let d := 2 ^ (- e) in
          let q := Z.pos m / d in
          let r := Z.pos m mod d in
          match 2 * r ?= d with
          | Lt => q
          | Gt => q + 1
          | Eq => if Z.even q then q else q + 1
          end in
      if s then - n else n
  | _ => 0
  end.

(** [int(x)]: truncation towards zero (0 where CPython raises, as for
    [round]). *)
Definition int (x : float) : Z :=
  match x with
  | S754_finite s m e =>
      let n := if 0 <=? e then Z.pos m * 2 ^ e else Z.pos m / 2 ^ (- e) in
      if s then - n else n
  | _ => 0
  end.

(** The generator behind [random.choice]: a script of raw draws, read from
    the left; an exhausted script keeps drawing 0. *)
Definition rng := list nat.
Definition M (A : Type) : Type := rng -> A * rng.
Definition ret {A} (a : A) : M A := fun r => (a, r).
Definition bind {A B} (m : M A) (k : A -> M B) : M B :=
  fun r => let '(a, r') := m r in k a r'.
Definition draw : M nat := fun r => (hd 0%nat r, tl r).

(** [random.choice(seq)] returns [seq[i]] for an index [i] below
    [len(seq)]; the draw is reduced modulo the length.  The source calls it
    on non-empty sequences only; [d] stands for the [IndexError]. *)
Definition choice {A} (d : A) (seq : list A) : M A :=
  bind draw (fun k => ret (nth (k mod length seq)%nat seq d)).

End Py.

Notation "x <~ m ;; k" := (Py.bind m (fun x => k))
  (at level 100, m at next level, right associativity).

(** ** Config and constants *)

Definition TILE_SIZE : Z := 24.
Definition FPS : Z := 60.

Inductive ghost_state := GHOST_NORMAL | GHOST_VULNERABLE | GHOST_EATEN.

#[global] Instance ghost_state_eq_dec : EqDecision ghost_state.
Proof. solve_decision. Defined.

Definition UP : Z * Z := (0, -1).
Definition DOWN : Z * Z := (0, 1).
Definition LEFT : Z * Z := (-1, 0).
Definition RIGHT : Z * Z := (1, 0).
Definition STOP : Z * Z := (0, 0).
Definition ALL_DIRS : list (Z * Z) := [UP; DOWN; LEFT; RIGHT].

(** ** Maze *)

Module Maze.

Record t := mk {
  layout : list string;
  height : Z;
  width : Z;
  walls : gset (Z * Z);
  pellets : gset (Z * Z);
  power_pellets : gset (Z * Z);
  player_start : Z * Z;
  ghost_starts : list (Z * Z);
  house_pos : Z * Z
}.

Definition len_str (s : string) : Z := Z.of_nat (String.length s).

(** The body of the inner loop of [_parse] for the character [ch] at
    column [x] of row [y]. *)
Definition parse_char (y x : Z) (ch : ascii) (m : t) : t :=
  if Ascii.eqb ch "#" then
    mk (layout m) (height m) (width m) ({[ (x, y) ]} ∪ walls m) (pellets m)
       (power_pellets m) (player_start m) (ghost_starts m) (house_pos m)
  else if Ascii.eqb ch "." then
    mk (layout m) (height m) (width m) (walls m) ({[ (x, y) ]} ∪ pellets m)
       (power_pellets m) (player_start m) (ghost_starts m) (house_pos m)
  else if Ascii.eqb ch "o" then
    mk (layout m) (height m) (width m) (walls m) (pellets m)
       ({[ (x, y) ]} ∪ power_pellets m) (player_start m) (ghost_starts m) (house_pos m)
  else if Ascii.eqb ch "P" then
    mk (layout m) (height m) (width m) (walls m) (pellets m)
       (power_pellets m) (x, y) (ghost_starts m) (house_pos m)
  else if Ascii.eqb ch "C" then
    mk (layout m) (height m) (width m) (walls m) (pellets m)
       (power_pellets m) (player_start m) (ghost_starts m ++ [(x, y)]) (house_pos m)
  else if Ascii.eqb ch "R" then
    mk (layout m) (height m) (width m) (walls m) (pellets m)
       (power_pellets m) (player_start m) (ghost_starts m ++ [(x, y)]) (house_pos m)
  else if Ascii.eqb ch "H" then
    mk (layout m) (height m) (width m) (walls m) (pellets m)
       (power_pellets m) (player_start m) (ghost_starts m) (x, y)
  else m.

(** [for x, ch in enumerate(row)], from column [x] on. *)
Fixpoint parse_row (y x : Z) (row : string) (m : t) : t :=
  match row with
  | EmptyString => m
  | String ch rest => parse_row y (x + 1) rest (parse_char y x ch m)
  end.

(** [for y, row in enumerate(self.layout)], from row [y] on. *)
Fixpoint parse_rows (y : Z) (rows : list string) (m : t) : t :=
  match rows with
  | [] => m
  | row :: rest => parse_rows (y + 1) rest (parse_row y 0 row m)
  end.

Definition _parse (m : t) : t := parse_rows 0 (layout m) m.

Definition __init__ (layout : list string) : t :=
  let height := Z.of_nat (length layout) in
  let width := if 0 <? height then len_str (nth 0 layout EmptyString) else 0 in
  _parse (mk layout height width ∅ ∅ ∅ (1, 1) [] (width / 2, height / 2)).

Definition in_bounds (m : t) (gx gy : Z) : bool :=
  (0 <=? gx) && (gx <? width m) && (0 <=? gy) && (gy <? height m).

Definition passable (m : t) (gx gy : Z) : bool :=
  negb (bool_decide ((gx, gy) ∈ walls m)).

Definition is_intersection (m : t) (gx gy : Z) : bool :=
  let valid :=
    fold_left (fun valid '(dx, dy) =>
                 let nx := gx + dx in
                 let ny := gy + dy in
                 if in_bounds m nx ny && passable m nx ny then valid + 1 else valid)
              ALL_DIRS 0 in
  3 <=? valid.

End Maze.

(** ** Utility *)

Definition grid_to_px (pos : Py.float * Py.float) : Z * Z :=
  let '(x, y) := pos in
  (Py.int (Py.fadd (Py.fmul x (Py.float_of_int TILE_SIZE))
                   (Py.fdiv (Py.float_of_int TILE_SIZE) (Py.float_of_int 2))),
   Py.int (Py.fadd (Py.fmul y (Py.float_of_int TILE_SIZE))
                   (Py.fdiv (Py.float_of_int TILE_SIZE) (Py.float_of_int 2)))).

Definition manhattan (a b : Z * Z) : Z :=
  Z.abs (a.1 - b.1) + Z.abs (a.2 - b.2).

(** [abs(x - round(x)) < 0.1], the test both [_is_centered_on_tile] and
    [_at_center] apply to each coordinate. *)
Definition near_int (x : Py.float) : bool :=
  Py.flt (Py.fabs (Py.fsub x (Py.float_of_int (Py.round x)))) (Py.literal 1 10).

Definition tile_of (pos : Py.float * Py.float) : Z * Z :=
  (Py.round pos.1, Py.round pos.2).

(** ** Player *)

(** The four keys [handle_input] looks at in [pygame.key.get_pressed()]. *)
Record keys := mk_keys { K_UP : bool; K_DOWN : bool; K_LEFT : bool; K_RIGHT : bool }.

Module Player.

(** [self.maze] is the maze object of the game, shared with the ghosts;
    the methods below take it as an argument. *)
Record t := mk {
  pos : Py.float * Py.float;
  dir : Z * Z;
  next_dir : Z * Z;
  speed : Py.float;
  radius : Z;
  alive : bool;
  lives : Z;
  score : Z
}.

Definition set_pos (p : t) (v : Py.float * Py.float) : t :=
  mk v (dir p) (next_dir p) (speed p) (radius p) (alive p) (lives p) (score p).
Definition set_dir (p : t) (v : Z * Z) : t :=
  mk (pos p) v (next_dir p) (speed p) (radius p) (alive p) (lives p) (score p).
Definition set_next_dir (p : t) (v : Z * Z) : t :=
  mk (pos p) (dir p) v (speed p) (radius p) (alive p) (lives p) (score p).
Definition set_lives (p : t) (v : Z) : t :=
  mk (pos p) (dir p) (next_dir p) (speed p) (radius p) (alive p) v (score p).
Definition set_score (p : t) (v : Z) : t :=
  mk (pos p) (dir p) (next_dir p) (speed p) (radius p) (alive p) (lives p) v.

Definition __init__ (start : Z * Z) : t :=
  mk (Py.float_of_int start.1, Py.float_of_int start.2) STOP STOP
     (Py.fdiv (Py.float_of_int 6) (Py.float_of_int TILE_SIZE))
     (TILE_SIZE / 2 - 2) true 3 0.

Definition handle_input (k : keys) (p : t) : t :=
  if K_UP k then set_next_dir p UP
  else if K_DOWN k then set_next_dir p DOWN
  else if K_LEFT k then set_next_dir p LEFT
  else if K_RIGHT k then set_next_dir p RIGHT
  else p.

Definition can_move (m : Maze.t) (p : t) (direction : Z * Z) : bool :=
  let '(gx, gy) := tile_of (pos p) in
  let nx := gx + direction.1 in
  let ny := gy + direction.2 in
  Maze.in_bounds m nx ny && Maze.passable m nx ny.

Definition _is_centered_on_tile (p : t) : bool :=
  near_int (pos p).1 && near_int (pos p).2.

Definition _clamp_inside_walls (m : Maze.t) (p : t) : t :=
  if negb (_is_centered_on_tile p) then p
  else
    let '(gx, gy) := tile_of (pos p) in
    if bool_decide ((gx, gy) ∈ Maze.walls m)
    then set_pos p (Py.float_of_int gx, Py.float_of_int gy)
    else p.

(** The statements of [update], in order. *)

(** Apply next_dir at tile centers for snappy turns *)
Definition turn (m : Maze.t) (p : t) : t :=
  if bool_decide (next_dir p ≠ dir p) then
    if _is_centered_on_tile p then
      if can_move m p (next_dir p) then set_dir p (next_dir p) else p
    else p
  else p.

(** If current dir blocked, stop at the center *)
Definition stop_if_blocked (m : Maze.t) (p : t) : t :=
  if negb (can_move m p (dir p)) then
    if _is_centered_on_tile p then set_dir p STOP else p
  else p.

(** Move *)
Definition move (p : t) : t :=
  set_pos p (Py.fadd (pos p).1 (Py.fmul (Py.float_of_int (dir p).1) (speed p)),
             Py.fadd (pos p).2 (Py.fmul (Py.float_of_int (dir p).2) (speed p))).

Definition update (m : Maze.t) (p : t) : t :=
  _clamp_inside_walls m (move (stop_if_blocked m (turn m p))).

(** Returns [(pellets_eaten, power_pellets_eaten)] together with the
    player and the maze as the call leaves them. *)
Definition eat_pellets (m : Maze.t) (p : t) : (Z * Z) * t * Maze.t :=
  let '(gx, gy) := tile_of (pos p) in
  let '(eaten, p, m) :=
    if bool_decide ((gx, gy) ∈ Maze.pellets m) then
      (1, set_score p (score p + 10),
       Maze.mk (Maze.layout m) (Maze.height m) (Maze.width m) (Maze.walls m)
               (Maze.pellets m ∖ {[ (gx, gy) ]}) (Maze.power_pellets m)
               (Maze.player_start m) (Maze.ghost_starts m) (Maze.house_pos m))
    else (0, p, m) in
  let '(power, p, m) :=
    if bool_decide ((gx, gy) ∈ Maze.power_pellets m) then
      (1, set_score p (score p + 50),
       Maze.mk (Maze.layout m) (Maze.height m) (Maze.width m) (Maze.walls m)
               (Maze.pellets m) (Maze.power_pellets m ∖ {[ (gx, gy) ]})
               (Maze.player_start m) (Maze.ghost_starts m) (Maze.house_pos m))
    else (0, p, m) in
  ((eaten, power), p, m).

End Player.

(** ** Ghosts *)

(** The two subclasses of [Ghost] the game instantiates; they differ in
    [_choose_dir] only. *)
Inductive ghost_class := ChaserGhost | RandomGhost.

Module Ghost.

Record t := mk {
  class : ghost_class;
  start : Z * Z;
  pos : Py.float * Py.float;
  dir : Z * Z;
  speed_normal : Py.float;
  speed_vulnerable : Py.float;
  speed_eaten : Py.float;
  state : ghost_state;
  color : Z * Z * Z;
  radius : Z;
  last_valid_dir : Z * Z
}.

Definition set_pos (g : t) (v : Py.float * Py.float) : t :=
  mk (class g) (start g) v (dir g) (speed_normal g) (speed_vulnerable g)
     (speed_eaten g) (state g) (color g) (radius g) (last_valid_dir g).
Definition set_dir (g : t) (v : Z * Z) : t :=
  mk (class g) (start g) (pos g) v (speed_normal g) (speed_vulnerable g)
     (speed_eaten g) (state g) (color g) (radius g) (last_valid_dir g).
Definition set_state (g : t) (v : ghost_state) : t :=
  mk (class g) (start g) (pos g) (dir g) (speed_normal g) (speed_vulnerable g)
     (speed_eaten g) v (color g) (radius g) (last_valid_dir g).

Definition __init__ (c : ghost_class) (start : Z * Z) (color : Z * Z * Z) : Py.M t :=
  d <~ Py.choice STOP ALL_DIRS ;;
  Py.ret (mk c start (Py.float_of_int start.1, Py.float_of_int start.2) d
             (Py.fdiv (Py.float_of_int 5) (Py.float_of_int TILE_SIZE))
             (Py.fdiv (Py.literal 7 2) (Py.float_of_int TILE_SIZE))
             (Py.fdiv (Py.float_of_int 7) (Py.float_of_int TILE_SIZE))
             GHOST_NORMAL color (TILE_SIZE / 2 - 3) d).

Definition reset (g : t) : Py.M t :=
  let g := set_pos g (Py.float_of_int (start g).1, Py.float_of_int (start g).2) in
  d <~ Py.choice STOP ALL_DIRS ;;
  Py.ret (set_state (set_dir g d) GHOST_NORMAL).

Definition set_vulnerable (g : t) : t :=
  if bool_decide (state g ≠ GHOST_EATEN) then set_state g GHOST_VULNERABLE else g.

Definition set_eaten (g : t) : t := set_state g GHOST_EATEN.

Definition _current_speed (g : t) : Py.float :=
  if bool_decide (state g = GHOST_VULNERABLE) then speed_vulnerable g
  else if bool_decide (state g = GHOST_EATEN) then speed_eaten g
  else speed_normal g.

Definition _at_center (g : t) : bool :=
  near_int (pos g).1 && near_int (pos g).2.

Definition _valid_neighbors (m : Maze.t) (g : t) (avoid_reverse : bool) : list (Z * Z) :=
  let '(gx, gy) := tile_of (pos g) in
  fold_left
    (fun choices d =>
       if avoid_reverse && ((d.1 =? - (dir g).1) && (d.2 =? - (dir g).2)) then choices
       else
         let nx := gx + d.1 in
         let ny := gy + d.2 in
         if Maze.in_bounds m nx ny && Maze.passable m nx ny
         then choices ++ [d] else choices)
    ALL_DIRS [].

Definition _target_tile (m : Maze.t) (g : t) (player_tile : Z * Z) : Z * Z :=
  if bool_decide (state g = GHOST_EATEN) then Maze.house_pos m
  else if bool_decide (state g = GHOST_VULNERABLE) then
    let '(px, py) := player_tile in
    let far_x := if Maze.width m / 2 <? px then 0 else Maze.width m - 1 in
    let far_y := if Maze.height m / 2 <? py then 0 else Maze.height m - 1 in
    (far_x, far_y)
  else player_tile.

(** The loop of the greedy [Ghost._choose_dir]; [best_dist] is [None]
    while it still holds [math.inf], below which every [int] lies. *)
Definition greedy_loop (gx gy : Z) (target : Z * Z) (choices : list (Z * Z))
    (best : Z * Z) (best_dist : option Z) : Z * Z :=
  fst (fold_left
         (fun '(best, best_dist) d =>
            let nx := gx + d.1 in
            let ny := gy + d.2 in
            let dist := manhattan (nx, ny) target in
            if match best_dist with None => true | Some b => dist <? b end
            then (d, Some dist) else (best, best_dist))
         choices (best, best_dist)).

(** [Ghost._choose_dir], inherited by [ChaserGhost], and its override in
    [RandomGhost]. *)
Definition _choose_dir (g : t) (choices : list (Z * Z)) (target : Z * Z) : Py.M (Z * Z) :=
  match class g with
  | ChaserGhost =>
      match choices with
      | [] => Py.ret (dir g)
      | c0 :: _ =>
          let '(gx, gy) := tile_of (pos g) in
          Py.ret (greedy_loop gx gy target choices c0 None)
      end
  | RandomGhost =>
      match choices with
      | [] => Py.ret (dir g)
      | _ => Py.choice STOP choices
      end
  end.

(** The three parts of [update], in order. *)

(** Decide direction at intersections or when blocked *)
Definition candidates (m : Maze.t) (g : t) : list (Z * Z) :=
  let choices := _valid_neighbors m g true in
  match choices with [] => _valid_neighbors m g false | _ => choices end.

Definition decide (m : Maze.t) (player_tile : Z * Z) (g : t) : Py.M t :=
  if _at_center g then
    let choices := candidates m g in
    let target := _target_tile m g player_tile in
    d <~ _choose_dir g choices target ;;
    Py.ret (set_dir g d)
  else Py.ret g.

(** Move *)
Definition move (g : t) : t :=
  let speed := _current_speed g in
  set_pos g (Py.fadd (pos g).1 (Py.fmul (Py.float_of_int (dir g).1) speed),
             Py.fadd (pos g).2 (Py.fmul (Py.float_of_int (dir g).2) speed)).

(** If eaten and reached the house tile center, revert to normal *)
Definition come_home (m : Maze.t) (g : t) : Py.M t :=
  if bool_decide (state g = GHOST_EATEN) && _at_center g then
    if bool_decide (tile_of (pos g) = Maze.house_pos m) then
      let g := set_state g GHOST_NORMAL in
      (* pick a new direction away from reversing to leave the house *)
      let choices := _valid_neighbors m g false in
      match choices with
      | [] => Py.ret g
      | _ => d <~ Py.choice STOP choices ;; Py.ret (set_dir g d)
      end
    else Py.ret g
  else Py.ret g.

Definition update (m : Maze.t) (player_tile : Z * Z) (g : t) : Py.M t :=
  g <~ decide m player_tile g ;;
  come_home m (move g).

End Ghost.

(** ** Game *)

Definition RED : Z * Z * Z := (255, 64, 64).
Definition PINK : Z * Z * Z := (255, 128, 200).
Definition CYAN : Z * Z * Z := (64, 255, 255).
Definition ORANGE : Z * Z * Z := (255, 165, 0).

(** What [_handle_events] reads in one frame: whether a [pygame.QUIT] event
    is queued, and the pressed keys. *)
Record events := mk_events { quit : bool; pressed : keys }.

(** [for x in xs: x.f()] over a list of objects, threading the generator. *)
Fixpoint for_each {A} (f : A -> Py.M A) (xs : list A) : Py.M (list A) :=
  match xs with
  | [] => Py.ret []
  | x :: rest => x' <~ f x ;; rest' <~ for_each f rest ;; Py.ret (x' :: rest')
  end.

Module Game.

(** The display, clock and font handles carry no game state and are left
    out. *)
Record t := mk {
  maze : Maze.t;
  player : Player.t;
  ghosts : list Ghost.t;
  power_timer : Z;
  power_duration_sec : Z;
  running : bool;
  win : bool
}.

Definition set_maze (s : t) (v : Maze.t) : t :=
  mk v (player s) (ghosts s) (power_timer s) (power_duration_sec s) (running s) (win s).
Definition set_player (s : t) (v : Player.t) : t :=
  mk (maze s) v (ghosts s) (power_timer s) (power_duration_sec s) (running s) (win s).
Definition set_ghosts (s : t) (v : list Ghost.t) : t :=
  mk (maze s) (player s) v (power_timer s) (power_duration_sec s) (running s) (win s).
Definition set_power_timer (s : t) (v : Z) : t :=
  mk (maze s) (player s) (ghosts s) v (power_duration_sec s) (running s) (win s).
Definition set_running (s : t) (v : bool) : t :=
  mk (maze s) (player s) (ghosts s) (power_timer s) (power_duration_sec s) v (win s).
Definition set_win (s : t) (v : bool) : t :=
  mk (maze s) (player s) (ghosts s) (power_timer s) (power_duration_sec s) (running s) v.

(** [r.ljust(width)]: pad with spaces on the right up to [width]. *)
Definition ljust (r : string) (width : nat) : string :=
  (r ++ string_of_list_ascii (repeat " "%char (width - String.length r)%nat))%string.

Definition the_layout : list string := [
  "#########################";
  "#P...........##.........#";
  "#.###.#####.##.#####.###";
  "#o# #.#   #.##.#   #.#o#";
  "#.###.#####.##.#####.###";
  "#.......................#";
  "#.###.##.########.##.###";
  "#.....##....H.....##....#";
  "#####.######..######.####";
  "    #.R    C  C    R.#   ";
  "#####.######..######.####";
  "#.....##..........##....#";
  "#.###.##.########.##.###";
  "#o.....................o#";
  "#########################"
]%string.

Definition _build_maze : Maze.t :=
  let layout := the_layout in
  let width := fold_right Nat.max 0%nat (map String.length layout) in
  let fixed := map (fun r => ljust r width) layout in
  Maze.__init__ fixed.

(** The constructor on a given maze: [__init__] is [new _build_maze]. *)
Definition new (m : Maze.t) : Py.M t :=
  let player := Player.__init__ (Maze.player_start m) in
  (* Identify ghost spawns: first chaser, second random (if two exist) *)
  let colors := [RED; CYAN; ORANGE; PINK] in
  let starts := Maze.ghost_starts m in
  gs0 <~ match starts with
         | s0 :: _ => g <~ Ghost.__init__ ChaserGhost s0 RED ;; Py.ret [g]
         | [] => Py.ret []
         end ;;
  gs1 <~ match starts with
         | _ :: s1 :: _ => g <~ Ghost.__init__ RandomGhost s1 CYAN ;; Py.ret [g]
         | _ => Py.ret []
         end ;;
  (* Fill remaining as random ghosts if desired *)
  gs2 <~ (fix rest (i : nat) (ss : list (Z * Z)) : Py.M (list Ghost.t) :=
            match ss with
            | [] => Py.ret []
            | s :: ss' =>
                g <~ Ghost.__init__ RandomGhost s
                       (nth (i mod length colors)%nat colors RED) ;;
                gs <~ rest (S i) ss' ;;
                Py.ret (g :: gs)
            end) 2%nat (drop 2 starts) ;;
  Py.ret (mk m player (gs0 ++ gs1 ++ gs2) 0 7 true false).

Definition __init__ : Py.M t := new _build_maze.

Definition _handle_events (ev : events) (s : t) : t :=
  let s := if quit ev then set_running s false else s in
  set_player s (Player.handle_input (pressed ev) (player s)).

(** [math.hypot] on two [int]s: the double nearest to the root of the sum
    of the squares.  (The C library may be one unit in the last place off;
    for pixel distances the comparison below is far from that margin, see
    [hit_near].) *)
Definition hypot (dx dy : Z) : Py.float :=
  SFsqrt Py.prec Py.emax (Py.float_of_int (dx * dx + dy * dy)).

(** [dist < TILE_SIZE * 0.6] for the pixel centres [pp] and [gp]. *)
Definition hit (pp gp : Z * Z) : bool :=
  Py.flt (hypot (pp.1 - gp.1) (pp.2 - gp.2))
         (Py.fmul (Py.float_of_int TILE_SIZE) (Py.literal 6 10)).

(** The [else] branch of the collision loop: the player loses a life. *)
Definition lose_life (s : t) : Py.M t :=
  let s := set_player s (Player.set_lives (player s) (Player.lives (player s) - 1)) in
  if Player.lives (player s) <=? 0 then Py.ret (set_running s false)
  else
    (* Reset positions *)
    let s := set_player s
               (Player.set_pos (player s)
                  (Py.float_of_int (Maze.player_start (maze s)).1,
                   Py.float_of_int (Maze.player_start (maze s)).2)) in
    gs <~ for_each Ghost.reset (ghosts s) ;;
    Py.ret (set_power_timer (set_ghosts s gs) 0).

(** What a registered collision with the ghost [g] of index [i] does. *)
Definition on_collision (i : nat) (g : Ghost.t) (s : t) : Py.M t :=
  if bool_decide (Ghost.state g = GHOST_VULNERABLE) then
    let s := set_ghosts s (<[i := Ghost.set_eaten g]> (ghosts s)) in
    Py.ret (set_player s (Player.set_score (player s) (Player.score (player s) + 200)))
  else if bool_decide (Ghost.state g = GHOST_EATEN) then
    (* no effect *)
    Py.ret s
  else lose_life s.

(** The body of [for g in self.ghosts] in [_check_collisions] for the
    ghost at index [i]; the ghost is read from the state as the loop
    reaches it. *)
Definition collide (pp : Z * Z) (i : nat) (s : t) : Py.M t :=
  match ghosts s !! i with
  | None => Py.ret s
  | Some g =>
      let gp := grid_to_px (Ghost.pos g) in
      if hit pp gp then on_collision i g s else Py.ret s
  end.

Fixpoint collide_from (pp : Z * Z) (i n : nat) (s : t) : Py.M t :=
  match n with
  | O => Py.ret s
  | S n' => s' <~ collide pp i s ;; collide_from pp (S i) n' s'
  end.

Definition _check_collisions (s : t) : Py.M t :=
  let pp := grid_to_px (Player.pos (player s)) in
  collide_from pp 0 (length (ghosts s)) s.

(** The first statements of [_update]: the player moves and eats, and a
    power pellet opens the power window. *)
Definition update_player (s : t) : t :=
  let p := Player.update (maze s) (player s) in
  let '((pel, power), p, m) := Player.eat_pellets (maze s) p in
  let s := set_maze (set_player s p) m in
  if 0 <? power then
    let s := set_power_timer s (power_duration_sec s * FPS) in
    set_ghosts s (map Ghost.set_vulnerable (ghosts s))
  else s.

Definition update_ghosts (s : t) : Py.M t :=
  let player_tile := tile_of (Player.pos (player s)) in
  gs <~ for_each (Ghost.update (maze s) player_tile) (ghosts s) ;;
  Py.ret (set_ghosts s gs).

(** Power timer countdown *)
Definition countdown (s : t) : t :=
  if 0 <? power_timer s then
    let s := set_power_timer s (power_timer s - 1) in
    if power_timer s =? 0 then
      set_ghosts s
        (map (fun g => if bool_decide (Ghost.state g = GHOST_VULNERABLE)
                       then Ghost.set_state g GHOST_NORMAL else g)
             (ghosts s))
    else s
  else s.

(** Win condition *)
Definition check_win (s : t) : t :=
  if (size (Maze.pellets (maze s)) =? 0)%nat && (size (Maze.power_pellets (maze s)) =? 0)%nat
  then set_running (set_win s true) false
  else s.

Definition _update (s : t) : Py.M t :=
  let s := update_player s in
  s <~ update_ghosts s ;;
  let s := countdown s in
  s <~ _check_collisions s ;;
  Py.ret (check_win s).

(** One turn of the [while self.running] loop of [run], drawing left out. *)
Definition frame (ev : events) (s : t) : Py.M t :=
  _update (_handle_events ev s).

(** The states the loop of [run] passes through, from construction on, for
    any events and any draws of the generator. *)
Inductive reachable_from (m : Maze.t) : t -> Prop :=
| reach_init r : reachable_from m (new m r).1
| reach_frame s ev r :
    reachable_from m s -> running s = true -> reachable_from m (frame ev s r).1.

Definition reachable : t -> Prop := reachable_from _build_maze.

(** The frames of [run] for the successive events [evs]. *)
Fixpoint play (evs : list events) (s : t) (r : Py.rng) : t * Py.rng :=
  match evs with
  | [] => (s, r)
  | ev :: evs' => let '(s', r') := frame ev s r in play evs' s' r'
  end.

(** Is [self.running] true each time the loop of [run] tests it? *)
Fixpoint keeps_running (evs : list events) (s : t) (r : Py.rng) : bool :=
  match evs with
  | [] => true
  | ev :: evs' => running s && let '(s', r') := frame ev s r in keeps_running evs' s' r'
  end.

End Game.

(** ** Auxiliary notions used in the statements *)

(** Position of a direction in the enumeration order of [ALL_DIRS]. *)
Definition dir_rank (d : Z * Z) : nat :=
  if bool_decide (d = UP) then 0
  else if bool_decide (d = DOWN) then 1
  else if bool_decide (d = LEFT) then 2
  else 3.

Fixpoint ranks_increasing (l : list (Z * Z)) : bool :=
  match l with
  | [] => true
  | d :: l' => forallb (fun d' => (dir_rank d <? dir_rank d')%nat) l' && ranks_increasing l'
  end.

(** The distance [Ghost._choose_dir] computes for the candidate [d]. *)
Definition step_dist (g : Ghost.t) (target d : Z * Z) : Z :=
  manhattan ((tile_of (Ghost.pos g)).1 + d.1, (tile_of (Ghost.pos g)).2 + d.2) target.

(** A ghost as [Ghost.__init__] builds it, moved to [pos] with heading
    [dir] and behaviour [st]. *)
Definition ghost_at (c : ghost_class) (start : Z * Z) (pos : Py.float * Py.float)
    (dir : Z * Z) (st : ghost_state) : Ghost.t :=
  Ghost.set_state (Ghost.set_dir (Ghost.set_pos (Ghost.__init__ c start RED []).1 pos) dir) st.

(** ** Concrete states of the built-in game *)

(** The game as constructed when every initial draw is 0. *)
Definition fresh_game : Game.t := (Game.__init__ []).1.

(** [fresh_game] with the player standing on the tile [(x, y)]. *)
Definition player_on (x y : Z) (s : Game.t) : Game.t :=
  Game.set_player s (Player.set_pos (Game.player s) (Py.float_of_int x, Py.float_of_int y)).


(** A pursuer on the tile [(5, 5)] of the built-in maze, heading up. *)
Definition pursuer_at_5_5 : Ghost.t :=
  ghost_at ChaserGhost (6, 9) (Py.float_of_int 5, Py.float_of_int 5) UP GHOST_NORMAL.

(** The player standing on the power pellet of tile [(1, 3)] while 100
    ticks of an earlier power window remain. *)
Definition on_power_pellet : Game.t :=
  Game.set_power_timer (player_on 1 3 fresh_game) 100.

(** The player standing on the start tile [(6, 9)] of the first ghost. *)
Definition meets_pursuer : Game.t := player_on 6 9 fresh_game.

(** The first ghost of [fresh_game], in the behaviour [st]. *)
Definition pursuer_at_home (st : ghost_state) : Ghost.t :=
  ghost_at ChaserGhost (6, 9) (Py.float_of_int 6, Py.float_of_int 9) UP st.

(** An eaten pursuer a quarter of a tile left of the house tile [(12, 7)] of
    the built-in maze, heading right. *)
Definition returning_ghost : Ghost.t :=
  ghost_at ChaserGhost (6, 9) (Py.literal 47 4, Py.float_of_int 7) RIGHT GHOST_EATEN.

(** ** Outcome of a constructor call *)

Inductive outcome (A : Type) : Type :=
| Returned (a : A)
| Raised (message : string).
Arguments Returned {A} a.
Arguments Raised {A} message.

(** [Maze(layout)]: neither [__init__] nor [_parse] has a [raise] statement,
    and on a list of strings none of their operations can fail. *)
Definition Maze_call (layout : list string) : outcome Maze.t :=
  Returned (Maze.__init__ layout).

Fixpoint row_has (c : ascii) (row : string) : bool :=
  match row with
  | EmptyString => false
  | String ch rest => Ascii.eqb ch c || row_has c rest
  end.

(** Does the layout contain a player spawn marker ['P']? *)
Definition has_player_spawn (layout : list string) : bool :=
  existsb (row_has "P") layout.

(** ** A played sequence of frames *)

Definition no_key : events := mk_events false (mk_keys false false false false).
Definition key_down : events := mk_events false (mk_keys false true false false).
Definition key_right : events := mk_events false (mk_keys false false false true).

(** One frame without input, sixteen with the down key, fifty-eight with
    the right key: the player eats the power pellet of tile [(1, 3)] and
    catches the first ghost in row 5. *)
Definition chase : list events :=
  no_key :: repeat key_down 16 ++ repeat key_right 58.

(** ** The collision pass in the words of the specification *)








(** ** Doubles with an exact value *)

(** The double of sign [s] with the 53-bit mantissa of [A > 0] and the
    value [A * 2^E]. *)
Definition canon (s : bool) (A E : Z) : spec_float :=
  S754_finite s (Z.to_pos (A * 2 ^ (52 - Z.log2 A))) (Z.log2 A + E - 52).

(** The double nearest to [A * 2^E]. *)
Definition dyadic (A E : Z) : Py.float := binary_normalize Py.prec Py.emax A E false.

(** The representation of [A * 2^E] when [|A| < 2^53]: no rounding occurs. *)
Definition canonical (A E : Z) : Py.float :=
  if A =? 0 then S754_zero false else canon (A <? 0) (Z.abs A) E.

(** The double nearest to [k / 4]. *)
Definition quarter (k : Z) : Py.float := dyadic k (-2).

(** [a / 4] rounded to the nearest integer, ties to even. *)
Definition round_quarters (a : Z) : Z :=
  let q := Z.abs a / 4 in
  let n := match Z.abs a mod 4 ?= 2 with
           | Lt => q
           | Gt => q + 1
           | Eq => if Z.even q then q else q + 1
           end in
  if a <? 0 then - n else n.

(** The value of the double [x] is exactly [k / 4]: from
    [(-1)^s * m * 2^e = k * 2^-2], cleared of negative exponents. *)
Definition is_quarters (x : Py.float) (k : Z) : Prop :=
  match x with
  | S754_zero _ => k = 0
  | S754_finite s m e =>
      if e <? -2 then cond_Zopp s (Z.pos m) = k * 2 ^ (- 2 - e)
      else k = cond_Zopp s (Z.pos m) * 2 ^ (e + 2)
  | _ => False
  end.

(** ** The invariant of the player *)

(** The values [Player.dir] and [Player.next_dir] take. *)
Definition valid_dir (d : Z * Z) : Prop :=
  d = STOP \/ d = UP \/ d = DOWN \/ d = LEFT \/ d = RIGHT.

(** Mazes small enough for the quarters of their coordinates to be exact
    doubles, whose player start is not a wall. *)
Definition small_maze (m : Maze.t) : Prop :=
  Maze.width m <= 2 ^ 40 /\ Maze.height m <= 2 ^ 40 /\
  Z.abs (Maze.player_start m).1 <= 2 ^ 40 /\ Z.abs (Maze.player_start m).2 <= 2 ^ 40 /\
  Maze.player_start m ∉ Maze.walls m.

(** The tiles the player can be centred on. *)
Definition ok_tile (m : Maze.t) (t : Z * Z) : Prop :=
  (Maze.in_bounds m t.1 t.2 = true \/ t = Maze.player_start m) /\ t ∉ Maze.walls m.

(** The player left the centre of the tile [(tx, ty)] [o] ticks ago in its
    present direction, towards a tile in bounds that is not a wall. *)
Definition on_track (m : Maze.t) (p : Player.t) (tx ty o : Z) : Prop :=
  ok_tile m (tx, ty) /\ 0 <= o <= 3 /\
  (0 < o -> Player.dir p <> STOP /\
            ok_tile m (tx + (Player.dir p).1, ty + (Player.dir p).2)) /\
  Player.pos p = (quarter (4 * tx + o * (Player.dir p).1),
                  quarter (4 * ty + o * (Player.dir p).2)).

Definition player_inv (m : Maze.t) (p : Player.t) : Prop :=
  Player.speed p = quarter 1 /\ valid_dir (Player.dir p) /\ valid_dir (Player.next_dir p) /\
  exists tx ty o, on_track m p tx ty o.

(** Two mazes of the same size with the same walls and player start. *)
Definition same_frame (m m' : Maze.t) : Prop :=
  Maze.width m' = Maze.width m /\ Maze.height m' = Maze.height m /\
  Maze.player_start m' = Maze.player_start m /\ Maze.walls m' = Maze.walls m.

Definition game_inv (m : Maze.t) (s : Game.t) : Prop :=
  same_frame m (Game.maze s) /\ player_inv m (Game.player s).

(** [d] is the first element of [l] at the least value of [dist]. *)
Definition first_min (dist : Z * Z -> Z) (l : list (Z * Z)) (d : Z * Z) : Prop :=
  exists l1 l2, l = l1 ++ d :: l2 /\
    (forall x, x ∈ l1 -> dist d < dist x) /\
    (forall x, x ∈ l2 -> dist d <= dist x).

(** The state a life-loss reset leaves: the player on the maze's player
    start, every ghost on its own start in the normal state, no power
    window. *)
Definition after_reset (s : Game.t) : Prop :=
  Player.pos (Game.player s) =
    (Py.float_of_int (Maze.player_start (Game.maze s)).1,
     Py.float_of_int (Maze.player_start (Game.maze s)).2) /\
  Forall (fun g => Ghost.pos g = (Py.float_of_int (Ghost.start g).1,
                                  Py.float_of_int (Ghost.start g).2) /\
                   Ghost.state g = GHOST_NORMAL) (Game.ghosts s) /\
  Game.power_timer s = 0.

(* ================================================================== *)
(** * Notions for the properties beyond the claims *)
(* ================================================================== *)

(** ** Reading a layout *)

(** The character [_parse] meets at column [x] of the row [y] of [rows],
    rows being counted from [y0]. *)
Definition char_from (y0 : Z) (rows : list string) (x y : Z) : option ascii :=
  if (0 <=? x) && (y0 <=? y) then
    match rows !! Z.to_nat (y - y0) with
    | Some row => String.get (Z.to_nat x) row
    | None => None
    end
  else None.

(** [layout[y][x]], where it exists. *)
Definition char_at (layout : list string) (x y : Z) : option ascii :=
  char_from 0 layout x y.

(** The cell [a] comes before the cell [b] in the order of the two loops of
    [_parse]: row by row, every row from the left. *)
Definition reads_before (a b : Z * Z) : Prop :=
  a.2 < b.2 \/ (a.2 = b.2 /\ a.1 < b.1).

(** Every row is as long as the first one, whose length is [Maze.width]. *)
Definition rectangular (layout : list string) : Prop :=
  Forall (fun row => Maze.len_str row = Maze.len_str (nth 0 layout EmptyString)) layout.

Definition has_house (layout : list string) : bool := existsb (row_has "H") layout.

(** The cells of [l] follow one another in reading order. *)
Definition in_reading_order (l : list (Z * Z)) : Prop :=
  forall i j a b, l !! i = Some a -> l !! j = Some b -> (i < j)%nat -> reads_before a b.

(** The ghost starts recorded so far are in reading order and all come
    before the cell [next], the one read next. *)
Definition starts_ok (m : Maze.t) (next : Z * Z) : Prop :=
  in_reading_order (Maze.ghost_starts m) /\
  Forall (fun q => reads_before q next) (Maze.ghost_starts m).

(** ** Steps on the grid *)

(** The direction opposite to [d]. *)
Definition opposite (d : Z * Z) : Z * Z := (- d.1, - d.2).

(** The tile next to [t] in the direction [d] is in bounds and not a wall:
    the test [can_move], [_valid_neighbors] and [is_intersection] share. *)
Definition legal_step (m : Maze.t) (t d : Z * Z) : bool :=
  Maze.in_bounds m (t.1 + d.1) (t.2 + d.2) && Maze.passable m (t.1 + d.1) (t.2 + d.2).

(** The ghost [g'] has the fields of [g] that are set at construction
    only. *)
Definition same_ghost (g g' : Ghost.t) : Prop :=
  Ghost.class g' = Ghost.class g /\ Ghost.start g' = Ghost.start g /\
  Ghost.speed_normal g' = Ghost.speed_normal g /\
  Ghost.speed_vulnerable g' = Ghost.speed_vulnerable g /\
  Ghost.speed_eaten g' = Ghost.speed_eaten g /\
  Ghost.color g' = Ghost.color g /\ Ghost.radius g' = Ghost.radius g /\
  Ghost.last_valid_dir g' = Ghost.last_valid_dir g.

(** ** What a frame keeps and what it may change *)

(** The maze [m'] has the fields of [m] that are set at construction only:
    everything but the two pellet sets. *)
Definition same_maze (m m' : Maze.t) : Prop :=
  Maze.layout m' = Maze.layout m /\ Maze.height m' = Maze.height m /\
  Maze.width m' = Maze.width m /\ Maze.walls m' = Maze.walls m /\
  Maze.player_start m' = Maze.player_start m /\
  Maze.ghost_starts m' = Maze.ghost_starts m /\ Maze.house_pos m' = Maze.house_pos m.

(** From [s] to [s'] the ghosts stay who they are, the score does not go
    down, the lives do not go up, and a game that has stopped or is won
    stays so. *)
Definition moves_on (s s' : Game.t) : Prop :=
  Forall2 same_ghost (Game.ghosts s) (Game.ghosts s') /\
  Player.score (Game.player s) <= Player.score (Game.player s') /\
  Player.lives (Game.player s') <= Player.lives (Game.player s) /\
  (Game.running s = false -> Game.running s' = false) /\
  (Game.win s = true -> Game.win s' = true) /\
  Game.power_duration_sec s' = Game.power_duration_sec s.

(** The classes [Game.__init__] gives to [n] ghosts, in list order. *)
Definition roster_classes (n : nat) : list ghost_class :=
  match n with
  | O => []
  | S k => ChaserGhost :: repeat RandomGhost k
  end.

(** A ghost as [Ghost.__init__] leaves it, whatever direction was drawn. *)
Definition fresh_ghost (g : Ghost.t) : Prop :=
  Ghost.pos g = (Py.float_of_int (Ghost.start g).1, Py.float_of_int (Ghost.start g).2) /\
  Ghost.state g = GHOST_NORMAL /\ Ghost.dir g ∈ ALL_DIRS /\
  Ghost.speed_normal g = Py.fdiv (Py.float_of_int 5) (Py.float_of_int TILE_SIZE) /\
  Ghost.speed_vulnerable g = Py.fdiv (Py.literal 7 2) (Py.float_of_int TILE_SIZE) /\
  Ghost.speed_eaten g = Py.fdiv (Py.float_of_int 7) (Py.float_of_int TILE_SIZE).
(** The ghosts [gs] are those [Game.__init__] makes for the maze [m]: one
    per ghost start, in the order of the starts, the first a chaser and
    every other one a random ghost, with the speeds of the constructor. *)
Definition roster_ok (m : Maze.t) (gs : list Ghost.t) : Prop :=
  map Ghost.start gs = Maze.ghost_starts m /\
  map Ghost.class gs = roster_classes (length (Maze.ghost_starts m)) /\
  Forall (fun g =>
            Ghost.speed_normal g = Py.fdiv (Py.float_of_int 5) (Py.float_of_int TILE_SIZE) /\
            Ghost.speed_vulnerable g = Py.fdiv (Py.literal 7 2) (Py.float_of_int TILE_SIZE) /\
            Ghost.speed_eaten g = Py.fdiv (Py.float_of_int 7) (Py.float_of_int TILE_SIZE)) gs.

(** The pellets and the power pellets of [m0] that are gone in [m]. *)
Definition eaten (m0 m : Maze.t) : Z :=
  Z.of_nat (size (Maze.pellets m0)) - Z.of_nat (size (Maze.pellets m)).
Definition power_eaten (m0 m : Maze.t) : Z :=
  Z.of_nat (size (Maze.power_pellets m0)) - Z.of_nat (size (Maze.power_pellets m)).

(** The invariant of the counters of a game on the maze [m0]; [bound] is
    420 between the player's update and the countdown of the same frame,
    and 419 otherwise. *)
Definition game_ok (m0 : Maze.t) (bound : Z) (s : Game.t) : Prop :=
  Player.lives (Game.player s) <= 3 /\
  (Game.running s = true -> 1 <= Player.lives (Game.player s)) /\
  0 <= eaten m0 (Game.maze s) /\
  0 <= power_eaten m0 (Game.maze s) /\
  (exists k, 0 <= k /\
     Player.score (Game.player s) =
       10 * eaten m0 (Game.maze s) + 50 * power_eaten m0 (Game.maze s) + 200 * k) /\
  (Game.win s = true ->
     Game.running s = false /\ Maze.pellets (Game.maze s) = ∅ /\
     Maze.power_pellets (Game.maze s) = ∅) /\
  Game.power_duration_sec s = 7 /\
  0 <= Game.power_timer s <= bound /\
  (Game.power_timer s = 0 ->
     Forall (fun g => Ghost.state g <> GHOST_VULNERABLE) (Game.ghosts s)) /\
  Forall (fun g => Ghost.dir g ∈ ALL_DIRS) (Game.ghosts s).

(** A maze of one row: the player start and, next to it, one pellet. *)
Definition one_pellet_maze : Maze.t := Maze.__init__ ["P."]%string.

(** The loop [for i in range(2, len(starts))] of [Game.__init__], from
    the index [i] on, over the starts [ss] from that index on. *)
Fixpoint fill_random (i : nat) (ss : list (Z * Z)) : Py.M (list Ghost.t) :=
  match ss with
  | [] => Py.ret []
  | s :: ss' =>
      g <~ Ghost.__init__ RandomGhost s
             (nth (i mod length [RED; CYAN; ORANGE; PINK])%nat [RED; CYAN; ORANGE; PINK] RED) ;;
      gs <~ fill_random (S i) ss' ;;
      Py.ret (g :: gs)
  end.

(** The square of the distance between two pixels. *)
Definition dist2 (a b : Z * Z) : Z :=
  (a.1 - b.1) * (a.1 - b.1) + (a.2 - b.2) * (a.2 - b.2).

(* ================================================================== *)
(** * Properties *)
(* ================================================================== *)

(** ** The generator monad *)

Lemma bind_ret {A B} (a : A) (k : A -> Py.M B) r : Py.bind (Py.ret a) k r = k a r.
Proof. reflexivity. Qed.

Lemma choice_in {A} (d : A) (seq : list A) r :
  seq <> [] -> (Py.choice d seq r).1 ∈ seq.
Proof.
  intros Hne. unfold Py.choice, Py.bind, Py.draw, Py.ret.
  assert (Hlen : (0 < length seq)%nat) by (destruct seq; [congruence | simpl; lia]).
  simpl. apply list_elem_of_In, nth_In, Nat.mod_upper_bound. lia.
Qed.

(** ** The flee target of a vulnerable ghost *)

Section FleeTarget.

Variables (m : Maze.t) (g : Ghost.t) (px py : Z).
Hypothesis vulnerable : Ghost.state g = GHOST_VULNERABLE.

Lemma target_vulnerable :
  Ghost._target_tile m g (px, py) =
    (if Maze.width m / 2 <? px then 0 else Maze.width m - 1,
     if Maze.height m / 2 <? py then 0 else Maze.height m - 1).
Proof. unfold Ghost._target_tile. rewrite vulnerable. reflexivity. Qed.

End FleeTarget.

(** C10.  A vulnerable ghost whose player stands exactly on column
    [width // 2] flees towards column [width - 1], and likewise row
    [height // 2] gives row [height - 1], the comparison being strict; the
    target is always one of the four corner tiles, and the walls of the maze
    play no part in it. *)
Theorem flee_target_far_corner (m : Maze.t) (g : Ghost.t) (px py : Z) :
  Ghost.state g = GHOST_VULNERABLE ->
  let t := Ghost._target_tile m g (px, py) in
  (px = Maze.width m / 2 -> t.1 = Maze.width m - 1) /\
  (py = Maze.height m / 2 -> t.2 = Maze.height m - 1) /\
  t ∈ [(0, 0); (0, Maze.height m - 1); (Maze.width m - 1, 0);
       (Maze.width m - 1, Maze.height m - 1)] /\
  (forall walls' : gset (Z * Z),
      Ghost._target_tile
        (Maze.mk (Maze.layout m) (Maze.height m) (Maze.width m) walls' (Maze.pellets m)
                 (Maze.power_pellets m) (Maze.player_start m) (Maze.ghost_starts m)
                 (Maze.house_pos m)) g (px, py) = t).
Proof.
  intros Hv t. subst t. rewrite (target_vulnerable m g px py Hv).
  repeat split.
  - intros ->. simpl. rewrite Z.ltb_irrefl. reflexivity.
  - intros ->. simpl. rewrite Z.ltb_irrefl. reflexivity.
  - destruct (Maze.width m / 2 <? px), (Maze.height m / 2 <? py); set_solver.
  - intros walls'. rewrite target_vulnerable by exact Hv. reflexivity.
Qed.

Lemma flee_target_far_corner_witness :
  let g := ghost_at ChaserGhost (6, 9) (Py.float_of_int 5, Py.float_of_int 5) UP GHOST_VULNERABLE in
  let t := Ghost._target_tile Game._build_maze g (12, 7) in
  t = (24, 14) /\ t ∈ Maze.walls Game._build_maze.
Proof.
  intros g t.
  destruct (flee_target_far_corner Game._build_maze g 12 7 eq_refl) as (Hx & Hy & _ & _).
  split.
  - apply injective_projections; [apply Hx | apply Hy]; reflexivity.
  - apply (bool_decide_unpack _). vm_compute. exact I.
Defined.

(** ** The greedy choice of the pursuer *)

Section Greedy.

Variables (gx gy : Z) (target : Z * Z).

Let dist (d : Z * Z) : Z := manhattan (gx + d.1, gy + d.2) target.

Let step : (Z * Z) * option Z -> Z * Z -> (Z * Z) * option Z :=
  fun '(best, best_dist) d =>
    if match best_dist with None => true | Some b => dist d <? b end
    then (d, Some (dist d)) else (best, best_dist).

Lemma greedy_fold_invariant (l done : list (Z * Z)) (best : Z * Z) :
  first_min dist done best ->
  first_min dist (done ++ l) (fold_left step l (best, Some (dist best))).1.
Proof.
  revert done best. induction l as [|d l IH]; intros done best Hmin; simpl.
  - rewrite app_nil_r. exact Hmin.
  - replace (done ++ d :: l) with ((done ++ [d]) ++ l) by (rewrite <- app_assoc; reflexivity).
    destruct (Z.ltb_spec (dist d) (dist best)) as [Hlt | Hge].
    + apply IH. exists done, []. split; [reflexivity | split].
      * intros x Hx. destruct Hmin as (l1 & l2 & -> & H1 & H2).
        apply elem_of_app in Hx as [Hx | Hx].
        -- specialize (H1 x Hx). lia.
        -- apply elem_of_cons in Hx as [-> | Hx]; [lia | specialize (H2 x Hx); lia].
      * intros x Hx. inversion Hx.
    + apply IH. destruct Hmin as (l1 & l2 & -> & H1 & H2).
      exists l1, (l2 ++ [d]). split; [rewrite <- app_assoc; reflexivity | split].
      * exact H1.
      * intros x Hx. apply elem_of_app in Hx as [Hx | Hx]; [exact (H2 x Hx) |].
        apply list_elem_of_singleton in Hx as ->. exact Hge.
Qed.

Lemma greedy_loop_first_min (c0 : Z * Z) (rest : list (Z * Z)) :
  first_min dist (c0 :: rest) (Ghost.greedy_loop gx gy target (c0 :: rest) c0 None).
Proof.
  unfold Ghost.greedy_loop. cbn [fold_left].
  change (first_min dist ([c0] ++ rest) (fold_left step rest (c0, Some (dist c0))).1).
  apply greedy_fold_invariant.
  exists [], []. split; [reflexivity | split]; intros x Hx; inversion Hx.
Qed.

End Greedy.

Lemma ranks_increasing_later (l1 l2 : list (Z * Z)) (d x : Z * Z) :
  ranks_increasing (l1 ++ d :: l2) = true -> x ∈ l2 -> (dir_rank d < dir_rank x)%nat.
Proof.
  induction l1 as [|a l1 IH]; simpl; intros H Hx.
  - apply andb_true_iff in H as [H _].
    rewrite forallb_forall in H. apply Nat.ltb_lt, H, list_elem_of_In, Hx.
  - apply andb_true_iff in H as [_ H]. exact (IH H Hx).
Qed.

(** [_valid_neighbors] walks [ALL_DIRS] in order and keeps a sub-sequence. *)
Lemma valid_neighbors_increasing (m : Maze.t) (g : Ghost.t) (b : bool) :
  ranks_increasing (Ghost._valid_neighbors m g b) = true.
Proof.
  unfold Ghost._valid_neighbors. destruct (tile_of (Ghost.pos g)) as [gx gy].
  unfold ALL_DIRS. cbn [fold_left].
  repeat match goal with
         | |- context [if ?c then _ else _] => destruct c
         end; reflexivity.
Qed.

Lemma candidates_increasing (m : Maze.t) (g : Ghost.t) :
  ranks_increasing (Ghost.candidates m g) = true.
Proof.
  unfold Ghost.candidates.
  destruct (Ghost._valid_neighbors m g true) eqn:E.
  - apply valid_neighbors_increasing.
  - rewrite <- E. apply valid_neighbors_increasing.
Qed.

(** C8.  A pursuer centred on a tile with at least one candidate direction
    adopts a candidate whose tile-after-stepping is at the least Manhattan
    distance from the target; among the candidates at that distance it is
    the first in the order up, down, left, right. *)
Theorem pursuer_chooses_first_nearest (m : Maze.t) (g : Ghost.t) (player_tile : Z * Z)
    (r : Py.rng) :
  Ghost.class g = ChaserGhost ->
  Ghost._at_center g = true ->
  Ghost.candidates m g <> [] ->
  let target := Ghost._target_tile m g player_tile in
  let d := Ghost.dir (Ghost.decide m player_tile g r).1 in
  d ∈ Ghost.candidates m g /\
  (forall d', d' ∈ Ghost.candidates m g -> step_dist g target d <= step_dist g target d') /\
  (forall d', d' ∈ Ghost.candidates m g -> step_dist g target d' = step_dist g target d ->
              (dir_rank d <= dir_rank d')%nat).
Proof.
  intros Hc Hcen Hne target d. subst d.
  unfold Ghost.decide. rewrite Hcen. unfold Ghost._choose_dir. rewrite Hc.
  pose proof (candidates_increasing m g) as Hinc.
  destruct (Ghost.candidates m g) as [|c0 rest] eqn:E; [congruence |].
  unfold step_dist. destruct (tile_of (Ghost.pos g)) as [gx gy] eqn:Et.
  fold target. cbn [Py.bind Py.ret fst snd Ghost.dir Ghost.set_dir].
  destruct (greedy_loop_first_min gx gy target c0 rest) as (l1 & l2 & Hl & H1 & H2).
  set (d := Ghost.greedy_loop gx gy target (c0 :: rest) c0 None) in *.
  rewrite Hl in *. repeat split.
  - apply elem_of_app. right. apply elem_of_cons. left. reflexivity.
  - intros d' Hd'. apply elem_of_app in Hd' as [Hd' | Hd'].
    + specialize (H1 d' Hd'). simpl in *. lia.
    + apply elem_of_cons in Hd' as [-> | Hd']; [lia | exact (H2 d' Hd')].
  - intros d' Hd' Heq. apply elem_of_app in Hd' as [Hd' | Hd'].
    + specialize (H1 d' Hd'). simpl in *. lia.
    + apply elem_of_cons in Hd' as [-> | Hd']; [lia |].
      pose proof (ranks_increasing_later l1 l2 d d' Hinc Hd'). lia.
Qed.

Lemma pursuer_chooses_first_nearest_witness :
  Ghost.dir (Ghost.decide Game._build_maze (1, 1) pursuer_at_5_5 []).1 = UP /\
  step_dist pursuer_at_5_5 (1, 1) LEFT = step_dist pursuer_at_5_5 (1, 1) UP /\
  Nat.le (dir_rank (Ghost.dir (Ghost.decide Game._build_maze (1, 1) pursuer_at_5_5 []).1))
         (dir_rank LEFT).
Proof.
  assert (Hcand : Ghost.candidates Game._build_maze pursuer_at_5_5 = [UP; LEFT; RIGHT])
    by (vm_compute; reflexivity).
  assert (Hd : Ghost.dir (Ghost.decide Game._build_maze (1, 1) pursuer_at_5_5 []).1 = UP)
    by (vm_compute; reflexivity).
  assert (Heq : step_dist pursuer_at_5_5 (1, 1) LEFT = step_dist pursuer_at_5_5 (1, 1) UP)
    by (vm_compute; reflexivity).
  pose proof (pursuer_chooses_first_nearest Game._build_maze pursuer_at_5_5 (1, 1) []
                ltac:(vm_compute; reflexivity) ltac:(vm_compute; reflexivity)
                ltac:(rewrite Hcand; discriminate)) as H.
  cbv zeta in H. destruct H as (_ & _ & Hfirst).
  split; [exact Hd | split; [exact Heq |]].
  apply (Hfirst LEFT).
  - rewrite Hcand. apply elem_of_cons. right. apply elem_of_cons. left. reflexivity.
  - rewrite Hd. exact Heq.
Defined.

(** ** The power window *)

Lemma eat_power_pellet (m : Maze.t) (p : Player.t) :
  tile_of (Player.pos p) ∈ Maze.power_pellets m ->
  exists pel p' m', Player.eat_pellets m p = ((pel, 1), p', m').
Proof.
  intros Hin. unfold Player.eat_pellets.
  destruct (tile_of (Player.pos p)) as [gx gy].
  destruct (bool_decide ((gx, gy) ∈ Maze.pellets m)); cbn [Maze.power_pellets];
    rewrite (bool_decide_eq_true_2 _ Hin); eauto.
Qed.

(** C4.  When the player's tile after its move holds a power pellet, the
    power timer is set to the full 7 * 60 = 420 ticks, whatever it was
    before, and every ghost that is not eaten becomes vulnerable while the
    eaten ones stay eaten. *)
Theorem power_pellet_restarts_window (s : Game.t) :
  Game.power_duration_sec s = 7 ->
  tile_of (Player.pos (Player.update (Game.maze s) (Game.player s)))
    ∈ Maze.power_pellets (Game.maze s) ->
  let s' := Game.update_player s in
  Game.power_timer s' = 7 * FPS /\
  Game.power_timer s' = 420 /\
  map Ghost.state (Game.ghosts s') =
    map (fun g => match Ghost.state g with
                  | GHOST_EATEN => GHOST_EATEN
                  | _ => GHOST_VULNERABLE
                  end) (Game.ghosts s).
Proof.
  intros Hdur Hin s'. subst s'. unfold Game.update_player.
  destruct (eat_power_pellet _ _ Hin) as (pel & p' & m' & ->).
  cbn. rewrite Hdur. repeat split.
  rewrite map_map. apply map_ext. intros g.
  unfold Ghost.set_vulnerable. case_bool_decide as Hs.
  - destruct (Ghost.state g); [reflexivity | reflexivity | congruence].
  - rewrite Hs. reflexivity.
Qed.

Lemma power_pellet_restarts_window_witness :
  Game.power_timer on_power_pellet = 100 /\
  Game.power_timer (Game.update_player on_power_pellet) = 420.
Proof.
  split; [vm_compute; reflexivity |].
  pose proof (power_pellet_restarts_window on_power_pellet
                ltac:(vm_compute; reflexivity)
                ltac:(apply (bool_decide_unpack _); vm_compute; exact I)) as H.
  cbv zeta in H. exact (proj1 (proj2 H)).
Defined.

(** ** What a collision does *)

Lemma reset_spec (g : Ghost.t) (r : Py.rng) :
  Ghost.reset g r =
    (Ghost.set_state
       (Ghost.set_dir
          (Ghost.set_pos g (Py.float_of_int (Ghost.start g).1, Py.float_of_int (Ghost.start g).2))
          (nth (hd 0%nat r mod 4)%nat ALL_DIRS STOP))
       GHOST_NORMAL,
     tl r).
Proof. reflexivity. Qed.

Lemma reset_fields (g : Ghost.t) (r : Py.rng) (j : nat) :
  let g' := (Ghost.reset g (drop j r)).1 in
  Ghost.pos g' = (Py.float_of_int (Ghost.start g).1, Py.float_of_int (Ghost.start g).2) /\
  Ghost.state g' = GHOST_NORMAL /\
  Ghost.dir g' = nth (nth j r 0%nat mod 4)%nat ALL_DIRS STOP /\
  Ghost.dir g' ∈ ALL_DIRS.
Proof.
  intros g'. subst g'. rewrite reset_spec.
  cbn [fst Ghost.pos Ghost.state Ghost.dir Ghost.set_state Ghost.set_dir Ghost.set_pos].
  assert (Hd : hd 0%nat (drop j r) = nth j r 0%nat).
  { clear. revert r. induction j; intros [|k r]; simpl; auto. }
  rewrite Hd. repeat split.
  apply list_elem_of_In, nth_In. apply Nat.mod_upper_bound. discriminate.
Qed.

Lemma for_each_cons {A} (f : A -> Py.M A) (x : A) (xs : list A) (r : Py.rng) :
  for_each f (x :: xs) r =
    ((f x r).1 :: (for_each f xs (f x r).2).1, (for_each f xs (f x r).2).2).
Proof.
  cbn [for_each]. unfold Py.bind, Py.ret.
  destruct (f x r) as [x' r1]. cbn [fst snd].
  destruct (for_each f xs r1) as [xs' r2]. reflexivity.
Qed.







(** ** Construction of a maze without a player spawn *)

Lemma parse_char_player_start (y x : Z) (ch : ascii) (m : Maze.t) :
  Ascii.eqb ch "P" = false ->
  Maze.player_start (Maze.parse_char y x ch m) = Maze.player_start m.
Proof.
  intros HP. unfold Maze.parse_char. rewrite HP.
  repeat match goal with
         | |- context [if ?c then _ else _] => destruct c
         end; reflexivity.
Qed.

Lemma parse_row_player_start (y : Z) (row : string) (x : Z) (m : Maze.t) :
  row_has "P" row = false ->
  Maze.player_start (Maze.parse_row y x row m) = Maze.player_start m.
Proof.
  revert x m. induction row as [|ch rest IH]; intros x m H; [reflexivity |].
  simpl in H. apply orb_false_iff in H as [Hch Hrest].
  simpl. rewrite IH by exact Hrest. apply parse_char_player_start, Hch.
Qed.

Lemma parse_rows_player_start (rows : list string) (y : Z) (m : Maze.t) :
  existsb (row_has "P") rows = false ->
  Maze.player_start (Maze.parse_rows y rows m) = Maze.player_start m.
Proof.
  revert y m. induction rows as [|row rest IH]; intros y m H; [reflexivity |].
  simpl in H. apply orb_false_iff in H as [Hrow Hrest].
  simpl. rewrite IH by exact Hrest. apply parse_row_player_start, Hrow.
Qed.

(** C6, as the code has it.  For every layout without a player spawn marker
    the constructor returns a maze, and the player start of that maze is the
    default [(1, 1)]. *)
Theorem missing_spawn_defaults (layout : list string) :
  has_player_spawn layout = false ->
  exists m, Maze_call layout = Returned m /\ Maze.player_start m = (1, 1).
Proof.
  intros H. exists (Maze.__init__ layout). split; [reflexivity |].
  unfold Maze.__init__, Maze._parse. cbn [Maze.layout].
  rewrite parse_rows_player_start by exact H. reflexivity.
Qed.

Lemma missing_spawn_defaults_witness :
  exists m, Maze_call ["###"; "#.#"; "###"]%string = Returned m /\ Maze.player_start m = (1, 1).
Proof.
  exact (missing_spawn_defaults ["###"; "#.#"; "###"]%string ltac:(vm_compute; reflexivity)).
Defined.

(** C6, as stated, fails: a layout of walls only has no spawn marker, yet the
    constructor raises nothing and puts the player start on the wall tile
    [(1, 1)]; on a single-tile layout the default start is out of bounds. *)
Lemma missing_spawn_not_rejected :
  (has_player_spawn ["##"; "##"]%string = false /\
   (forall message, Maze_call ["##"; "##"]%string <> Raised message) /\
   Maze.player_start (Maze.__init__ ["##"; "##"]%string) = (1, 1) /\
   (1, 1) ∈ Maze.walls (Maze.__init__ ["##"; "##"]%string)) /\
  (has_player_spawn ["."]%string = false /\
   (forall message, Maze_call ["."]%string <> Raised message) /\
   Maze.player_start (Maze.__init__ ["."]%string) = (1, 1) /\
   Maze.in_bounds (Maze.__init__ ["."]%string) 1 1 = false).
Proof.
  split; (split; [vm_compute; reflexivity | split; [discriminate | split]]).
  - vm_compute. reflexivity.
  - apply (bool_decide_unpack _). vm_compute. exact I.
  - vm_compute. reflexivity.
  - vm_compute. reflexivity.
Qed.

(** ** The return of an eaten ghost to the house *)

(** An eaten ghost that ends its move centred on the house tile becomes
    normal in that same call of [update]. *)
Lemma come_home_state (m : Maze.t) (g : Ghost.t) (r : Py.rng) :
  Ghost.state g = GHOST_EATEN ->
  Ghost._at_center g = true ->
  tile_of (Ghost.pos g) = Maze.house_pos m ->
  Ghost.state (Ghost.come_home m g r).1 = GHOST_NORMAL.
Proof.
  intros Hst Hc Ht. unfold Ghost.come_home.
  rewrite Hst, Hc, Ht. rewrite !bool_decide_eq_true_2 by reflexivity. cbn [andb].
  destruct (Ghost._valid_neighbors m (Ghost.set_state g GHOST_NORMAL) false); reflexivity.
Qed.

(** C1, at a failing input.  The eaten ghost [returning_ghost] heads right
    and, in one call of [update], lands centred on the house tile of the
    built-in maze and becomes normal.  Down and right are legal directions
    other than the reverse, yet with the draw 1 the new direction is left,
    the reverse of its heading: the choice is made among all legal
    directions. *)
Theorem captured_return_may_reverse :
  Ghost.state returning_ghost = GHOST_EATEN /\
  Ghost.dir returning_ghost = RIGHT /\
  Ghost._at_center (Ghost.move returning_ghost) = true /\
  tile_of (Ghost.pos (Ghost.move returning_ghost)) = Maze.house_pos Game._build_maze /\
  Ghost._valid_neighbors Game._build_maze (Ghost.move returning_ghost) true = [DOWN; RIGHT] /\
  Ghost.state (Ghost.update Game._build_maze (1, 1) returning_ghost [1%nat]).1 = GHOST_NORMAL /\
  Ghost.dir (Ghost.update Game._build_maze (1, 1) returning_ghost [1%nat]).1 = LEFT.
Proof. repeat split; vm_compute; reflexivity. Qed.

(** ** A reachable state with a ghost inside a wall *)

Lemma play_reachable (m : Maze.t) (evs : list events) (s : Game.t) (r : Py.rng) :
  Game.reachable_from m s ->
  Game.keeps_running evs s r = true ->
  Game.reachable_from m (Game.play evs s r).1.
Proof.
  revert s r. induction evs as [|ev evs IH]; intros s r Hs Hrun; [exact Hs |].
  cbn [Game.keeps_running Game.play] in *.
  apply andb_true_iff in Hrun as [Hrunning Hrest].
  pose proof (Game.reach_frame m s ev r Hs Hrunning) as Hstep.
  destruct (Game.frame ev s r) as [s' r']. apply IH; assumption.
Qed.

(** C2, at a failing input.  From the constructed game, one frame without
    input, sixteen with the down key and fifty-eight with the right key lead
    to a state in which the first ghost, eaten and on its way up column 14,
    has passed tile [(14, 2)] without being centred on it and now rounds to
    the wall tile [(14, 1)]. *)
Theorem eaten_ghost_enters_wall :
  Game.reachable (Game.play chase fresh_game []).1 /\
  (fun g => (Ghost.state g, tile_of (Ghost.pos g)))
    <$> Game.ghosts (Game.play chase fresh_game []).1 !! 0%nat
  = Some (GHOST_EATEN, (14, 1)) /\
  (14, 1) ∈ Maze.walls (Game.maze (Game.play chase fresh_game []).1).
Proof.
  split; [| split].
  - apply play_reachable; [apply Game.reach_init | vm_compute; reflexivity].
  - vm_compute. reflexivity.
  - apply (bool_decide_unpack _). vm_compute. exact I.
Qed.

(** ** The collision pass *)












Lemma for_each_update_length (m : Maze.t) (pt : Z * Z) (gs : list Ghost.t) (r : Py.rng) :
  length (for_each (Ghost.update m pt) gs r).1 = length gs.
Proof.
  revert r. induction gs as [|g gs IH]; intros r; [reflexivity |].
  rewrite for_each_cons. simpl. rewrite IH. reflexivity.
Qed.








(** For pixel centres less than 64 pixels apart, the test on doubles decides
    [sqrt (dx^2 + dy^2) < 14.4] exactly: it holds up to [dx^2 + dy^2 = 207]
    and fails from 208 on. *)
Lemma hit_near (pp gp : Z * Z) :
  (pp.1 - gp.1) * (pp.1 - gp.1) + (pp.2 - gp.2) * (pp.2 - gp.2) < 4096 ->
  Game.hit pp gp = true <->
  25 * ((pp.1 - gp.1) * (pp.1 - gp.1) + (pp.2 - gp.2) * (pp.2 - gp.2)) < 72 * 72.
Proof.
  unfold Game.hit, Game.hypot.
  set (n := (pp.1 - gp.1) * (pp.1 - gp.1) + (pp.2 - gp.2) * (pp.2 - gp.2)).
  intros Hn.
  assert (H0 : 0 <= n).
  { pose proof (Z.square_nonneg (pp.1 - gp.1)). pose proof (Z.square_nonneg (pp.2 - gp.2)).
    unfold n. lia. }
  assert (Hall : forallb
            (fun k => Bool.eqb
               (Py.flt (SFsqrt Py.prec Py.emax (Py.float_of_int (Z.of_nat k)))
                       (Py.fmul (Py.float_of_int TILE_SIZE) (Py.literal 6 10)))
               (Z.of_nat k <=? 207))
            (seq 0 4096) = true) by (vm_compute; reflexivity).
  rewrite forallb_forall in Hall.
  specialize (Hall (Z.to_nat n)). rewrite Z2Nat.id in Hall by exact H0.
  rewrite (eqb_prop _ _ (Hall ltac:(apply in_seq; lia))).
  rewrite Z.leb_le. lia.
Qed.

(** ** Exact arithmetic on doubles *)

Lemma digits2_pos_log2 (p : positive) : Z.pos (digits2_pos p) = Z.log2 (Z.pos p) + 1.
Proof.
  assert (H : digits2_pos p = Pos.size p) by (induction p; simpl; congruence).
  rewrite H. destruct p; simpl; lia.
Qed.

Lemma iter_xO_shift (m d : positive) : Z.pos (Pos.iter xO m d) = Z.pos m * 2 ^ Z.pos d.
Proof.
  induction d as [|d IH] using Pos.peano_ind.
  - simpl. lia.
  - rewrite Pos.iter_succ, Pos2Z.inj_succ, Z.pow_succ_r by lia.
    rewrite Pos2Z.inj_xO, IH. lia.
Qed.

Lemma iter_pos_nat {A} (f : A -> A) (n : positive) (x : A) :
  SpecFloat.iter_pos f n x = Nat.iter (Pos.to_nat n) f x.
Proof.
  revert x. induction n as [n IH | n IH |]; intros x; cbn [SpecFloat.iter_pos].
  - rewrite !IH. rewrite Pos2Nat.inj_xI.
    replace (S (2 * Pos.to_nat n))%nat with (Pos.to_nat n + S (Pos.to_nat n))%nat by lia.
    rewrite Nat.iter_add. f_equal. rewrite Nat.iter_succ_r. reflexivity.
  - rewrite !IH. rewrite Pos2Nat.inj_xO.
    replace (2 * Pos.to_nat n)%nat with (Pos.to_nat n + Pos.to_nat n)%nat by lia.
    rewrite Nat.iter_add. reflexivity.
  - reflexivity.
Qed.

Lemma shr_exact_nat (n : nat) (m : Z) :
  0 < m -> (2 ^ Z.of_nat n | m) ->
  Nat.iter n shr_1 (Build_shr_record m false false)
  = Build_shr_record (m / 2 ^ Z.of_nat n) false false.
Proof.
  revert m. induction n as [|n IH]; intros m Hm Hdiv.
  - simpl. rewrite Z.div_1_r. reflexivity.
  - rewrite Nat.iter_succ_r.
    rewrite Nat2Z.inj_succ, Z.pow_succ_r in * by lia.
    destruct Hdiv as [c Hc].
    assert (Hm2 : m = 2 * (c * 2 ^ Z.of_nat n)) by lia.
    assert (Hc0 : 0 < c * 2 ^ Z.of_nat n) by lia.
    destruct (c * 2 ^ Z.of_nat n) as [|q|q] eqn:Eq; try lia.
    rewrite Hm2. change (2 * Z.pos q) with (Z.pos q~0). cbn [shr_1 orb].
    rewrite IH; [| lia | exists c; lia].
    f_equal. change (Z.pos q~0) with (2 * Z.pos q).
    rewrite <- Z.div_div by lia. f_equal. rewrite Z.mul_comm, Z.div_mul by lia. reflexivity.
Qed.

Lemma shr_exact (n : positive) (m e : Z) :
  0 < m -> (2 ^ Z.pos n | m) ->
  shr (Build_shr_record m false false) e (Z.pos n)
  = (Build_shr_record (m / 2 ^ Z.pos n) false false, e + Z.pos n).
Proof.
  intros Hm Hdiv. unfold shr. rewrite iter_pos_nat.
  rewrite <- (positive_nat_Z n) in Hdiv |- * at 1.
  rewrite shr_exact_nat by assumption. rewrite positive_nat_Z. reflexivity.
Qed.

Lemma fexp_normal (x : Z) : -1021 <= x -> fexp Py.prec Py.emax x = x - 53.
Proof. intros H. cbv [fexp emin Py.prec Py.emax]. lia. Qed.

Lemma round_aux_canonical (s : bool) (mz : positive) (e0 : Z) :
  Z.log2 (Z.pos mz) = 52 -> -1074 <= e0 <= 971 ->
  binary_round_aux Py.prec Py.emax s (Z.pos mz) e0 loc_Exact = S754_finite s mz e0.
Proof.
  intros Hlog He. unfold binary_round_aux, shr_fexp.
  cbn [Zdigits2 shr_record_of_loc]. rewrite digits2_pos_log2, Hlog.
  rewrite fexp_normal by lia.
  replace (52 + 1 + e0 - 53 - e0) with 0 by lia.
  cbn [shr shr_m loc_of_shr_record round_nearest_even Zdigits2 shr_record_of_loc].
  rewrite digits2_pos_log2, Hlog. rewrite fexp_normal by lia.
  replace (52 + 1 + e0 - 53 - e0) with 0 by lia.
  cbn [shr shr_m]. 
  replace (e0 <=? Py.emax - Py.prec) with true; [reflexivity |].
  symmetry. apply Z.leb_le. cbv [Py.emax Py.prec]. lia.
Qed.

Lemma round_aux_shift (s : bool) (m : positive) (E : Z) (n : positive) :
  Z.log2 (Z.pos m) = 52 + Z.pos n -> (2 ^ Z.pos n | Z.pos m) ->
  -1074 <= E + Z.pos n <= 971 ->
  binary_round_aux Py.prec Py.emax s (Z.pos m) E loc_Exact
  = S754_finite s (Z.to_pos (Z.pos m / 2 ^ Z.pos n)) (E + Z.pos n).
Proof.
  intros Hlog Hdiv He.
  assert (Hq : 0 < Z.pos m / 2 ^ Z.pos n).
  { destruct Hdiv as [c Hc]. rewrite Hc, Z.div_mul by lia.
    assert (0 < 2 ^ Z.pos n) by lia. nia. }
  assert (Hlq : Z.log2 (Z.pos m / 2 ^ Z.pos n) = 52).
  { destruct Hdiv as [c Hc]. rewrite Hc in Hlog |- *. rewrite Z.div_mul in * by lia.
    rewrite Z.log2_mul_pow2 in Hlog by lia. lia. }
  unfold binary_round_aux at 1. unfold shr_fexp at 1.
  cbn [Zdigits2 shr_record_of_loc]. rewrite digits2_pos_log2, Hlog.
  rewrite fexp_normal by lia.
  replace (52 + Z.pos n + 1 + E - 53 - E) with (Z.pos n) by lia.
  rewrite shr_exact by (try lia; exact Hdiv).
  cbn [shr_m loc_of_shr_record round_nearest_even].
  destruct (Z.pos m / 2 ^ Z.pos n) as [|q|q] eqn:Eq; try lia.
  pose proof (round_aux_canonical s q (E + Z.pos n) Hlq He) as H.
  unfold binary_round_aux in H at 1. unfold shr_fexp in H at 1.
  cbn [Zdigits2 shr_record_of_loc] in H.
  rewrite digits2_pos_log2, Hlq, fexp_normal in H by lia.
  replace (52 + 1 + (E + Z.pos n) - 53 - (E + Z.pos n)) with 0 in H by lia.
  cbn [shr shr_m loc_of_shr_record round_nearest_even] in H.
  exact H.
Qed.

Lemma binary_round_value (s : bool) (m : positive) (E A t : Z) :
  Z.pos m = A * 2 ^ t -> 0 < A -> 0 <= t -> Z.log2 A <= 52 ->
  -1074 <= Z.log2 A + E + t - 52 <= 971 ->
  binary_round Py.prec Py.emax s m E = canon s A (E + t).
Proof.
  intros Hm HA Ht Hlog Hrange.
  assert (Hlm : Z.log2 (Z.pos m) = t + Z.log2 A)
    by (rewrite Hm; apply Z.log2_mul_pow2; lia).
  unfold binary_round, canon. rewrite digits2_pos_log2, Hlm, fexp_normal by lia.
  unfold shl_align.
  replace (Z.log2 A + (E + t) - 52) with (t + Z.log2 A + 1 + E - 53) by lia.
  destruct (t + Z.log2 A + 1 + E - 53 - E) as [|n|d] eqn:En.
  - (* already 53 digits *)
    rewrite round_aux_canonical by lia.
    replace (52 - Z.log2 A) with t by lia. rewrite <- Hm, Pos2Z.id.
    f_equal. lia.
  - (* more than 53 digits: the low bits are zero *)
    assert (Hdiv : (2 ^ Z.pos n | Z.pos m)).
    { exists (A * 2 ^ (t - Z.pos n)). rewrite Hm, <- Z.mul_assoc, <- Z.pow_add_r by lia.
      f_equal. f_equal. lia. }
    rewrite (round_aux_shift s m E n) by (try lia; exact Hdiv).
    f_equal; [| lia]. f_equal.
    rewrite Hm. replace t with ((52 - Z.log2 A) + Z.pos n) at 1 by lia.
    rewrite Z.pow_add_r, Z.mul_assoc, Z.div_mul by lia. reflexivity.
  - (* fewer than 53 digits: shift left *)
    rewrite round_aux_canonical.
    + f_equal. rewrite <- (Pos2Z.id (Pos.iter xO m d)). f_equal.
      rewrite iter_xO_shift, Hm, <- Z.mul_assoc, <- Z.pow_add_r by lia.
      f_equal. f_equal. lia.
    + rewrite iter_xO_shift, Z.log2_mul_pow2 by lia. lia.
    + lia.
Qed.

Lemma dyadic_canonical (A E t : Z) :
  Z.abs A < 2 ^ 53 -> 0 <= t -> -1022 <= E + t <= 971 ->
  dyadic (A * 2 ^ t) E = canonical A (E + t).
Proof.
  intros HA Ht HE. unfold dyadic, canonical, binary_normalize.
  assert (Hp : 0 < 2 ^ t) by lia.
  destruct (Z.eqb_spec A 0) as [-> | Hne]; [reflexivity |].
  assert (Hlog : Z.log2 (Z.abs A) <= 52).
  { assert (Z.log2 (Z.abs A) < 53); [apply Z.log2_lt_pow2; lia | lia]. }
  pose proof (Z.log2_nonneg (Z.abs A)) as Hl0.
  destruct (A * 2 ^ t) as [|m|m] eqn:Em.
  - nia.
  - assert (0 < A) by nia. replace (A <? 0) with false by (symmetry; apply Z.ltb_ge; lia).
    apply binary_round_value; lia.
  - assert (A < 0) by nia. replace (A <? 0) with true by (symmetry; apply Z.ltb_lt; lia).
    apply binary_round_value; lia.
Qed.

Lemma quarter_canonical (k : Z) : Z.abs k < 2 ^ 53 -> quarter k = canonical k (-2).
Proof.
  intros Hk. unfold quarter. rewrite <- (Z.mul_1_r k) at 1.
  change 1 with (2 ^ 0). rewrite dyadic_canonical by lia. reflexivity.
Qed.

Lemma float_of_int_quarter (n : Z) : Z.abs n < 2 ^ 51 -> Py.float_of_int n = quarter (4 * n).
Proof.
  intros Hn. unfold Py.float_of_int. change (binary_normalize Py.prec Py.emax n 0 false) with (dyadic n 0).
  unfold quarter. rewrite <- (Z.mul_1_r n) at 1. change 1 with (2 ^ 0) at 1.
  rewrite dyadic_canonical by lia.
  replace (4 * n) with (n * 2 ^ 2) by lia. rewrite dyadic_canonical by lia. reflexivity.
Qed.

Lemma shl_align_value (m : positive) (e ez : Z) :
  ez <= e -> Z.pos (shl_align m e ez).1 = Z.pos m * 2 ^ (e - ez).
Proof.
  intros H. unfold shl_align. destruct (ez - e) as [|d|d] eqn:Ed; try lia.
  - replace (e - ez) with 0 by lia. simpl. lia.
  - cbn [fst]. rewrite iter_xO_shift. f_equal. f_equal. lia.
Qed.

Lemma canonical_finite (A E : Z) :
  A <> 0 ->
  canonical A E =
    S754_finite (A <? 0) (Z.to_pos (Z.abs A * 2 ^ (52 - Z.log2 (Z.abs A))))
                (Z.log2 (Z.abs A) + E - 52).
Proof. intros H. unfold canonical, canon. destruct (Z.eqb_spec A 0); [contradiction | reflexivity]. Qed.

Lemma aligned_value (A E ez : Z) :
  A <> 0 -> Z.abs A < 2 ^ 53 -> ez <= Z.log2 (Z.abs A) + E - 52 ->
  cond_Zopp (A <? 0)
    (Z.pos (shl_align (Z.to_pos (Z.abs A * 2 ^ (52 - Z.log2 (Z.abs A))))
                      (Z.log2 (Z.abs A) + E - 52) ez).1)
  = A * 2 ^ (E - ez).
Proof.
  intros Hne HA Hez.
  assert (Hlog : Z.log2 (Z.abs A) <= 52).
  { assert (Z.log2 (Z.abs A) < 53); [apply Z.log2_lt_pow2; lia | lia]. }
  pose proof (Z.log2_nonneg (Z.abs A)) as Hl0.
  rewrite shl_align_value by exact Hez.
  assert (Hpos : 0 < Z.abs A * 2 ^ (52 - Z.log2 (Z.abs A))).
  { assert (0 < 2 ^ (52 - Z.log2 (Z.abs A))) by lia. nia. }
  rewrite Z2Pos.id by exact Hpos.
  rewrite <- Z.mul_assoc, <- Z.pow_add_r by lia.
  replace (52 - Z.log2 (Z.abs A) + (Z.log2 (Z.abs A) + E - 52 - ez)) with (E - ez) by lia.
  unfold cond_Zopp. destruct (Z.ltb_spec A 0); [rewrite Z.abs_neq by lia | rewrite Z.abs_eq by lia]; lia.
Qed.

Lemma fadd_canonical (a b E : Z) :
  Z.abs a < 2 ^ 53 -> Z.abs b < 2 ^ 53 -> Z.abs (a + b) < 2 ^ 53 -> -1022 <= E <= 971 ->
  Py.fadd (canonical a E) (canonical b E) = canonical (a + b) E.
Proof.
  intros Ha Hb Hab HE.
  destruct (Z.eq_dec a 0) as [-> | Hane].
  { rewrite Z.add_0_l. unfold canonical at 1. cbn [Z.eqb]. unfold canonical.
    destruct (b =? 0); reflexivity. }
  destruct (Z.eq_dec b 0) as [-> | Hbne].
  { unfold canonical at 2. cbn [Z.eqb]. rewrite Z.add_0_r. unfold canonical.
    destruct (a =? 0); reflexivity. }
  rewrite (canonical_finite a) by exact Hane. rewrite (canonical_finite b) by exact Hbne.
  unfold Py.fadd, SFadd.
  set (ez := Z.min (Z.log2 (Z.abs a) + E - 52) (Z.log2 (Z.abs b) + E - 52)).
  rewrite !aligned_value by (try assumption; unfold ez; lia).
  pose proof (Z.log2_nonneg (Z.abs a)). pose proof (Z.log2_nonneg (Z.abs b)).
  assert (Z.log2 (Z.abs a) < 53) by (apply Z.log2_lt_pow2; lia).
  assert (Z.log2 (Z.abs b) < 53) by (apply Z.log2_lt_pow2; lia).
  rewrite <- Z.mul_add_distr_r.
  change (binary_normalize Py.prec Py.emax ((a + b) * 2 ^ (E - ez)) ez false)
    with (dyadic ((a + b) * 2 ^ (E - ez)) ez).
  rewrite dyadic_canonical by (unfold ez; lia).
  f_equal. lia.
Qed.

Lemma fsub_canonical (a b E : Z) :
  Z.abs a < 2 ^ 53 -> Z.abs b < 2 ^ 53 -> Z.abs (a - b) < 2 ^ 53 -> -1022 <= E <= 971 ->
  Py.fsub (canonical a E) (canonical b E) = canonical (a - b) E.
Proof.
  intros Ha Hb Hab HE.
  destruct (Z.eq_dec b 0) as [-> | Hbne].
  { unfold canonical at 2. cbn [Z.eqb]. rewrite Z.sub_0_r. unfold canonical.
    destruct (a =? 0); reflexivity. }
  destruct (Z.eq_dec a 0) as [-> | Hane].
  { rewrite Z.sub_0_l. unfold canonical at 1. cbn [Z.eqb]. rewrite (canonical_finite b) by exact Hbne.
    rewrite (canonical_finite (- b)) by lia. rewrite Z.abs_opp. unfold Py.fsub, SFsub.
    f_equal. destruct (Z.ltb_spec b 0), (Z.ltb_spec (- b) 0); try reflexivity; lia. }
  rewrite (canonical_finite a) by exact Hane. rewrite (canonical_finite b) by exact Hbne.
  unfold Py.fsub, SFsub.
  set (ez := Z.min (Z.log2 (Z.abs a) + E - 52) (Z.log2 (Z.abs b) + E - 52)).
  rewrite !aligned_value by (try assumption; unfold ez; lia).
  pose proof (Z.log2_nonneg (Z.abs a)). pose proof (Z.log2_nonneg (Z.abs b)).
  assert (Z.log2 (Z.abs a) < 53) by (apply Z.log2_lt_pow2; lia).
  assert (Z.log2 (Z.abs b) < 53) by (apply Z.log2_lt_pow2; lia).
  rewrite <- Z.mul_sub_distr_r.
  change (binary_normalize Py.prec Py.emax ((a - b) * 2 ^ (E - ez)) ez false)
    with (dyadic ((a - b) * 2 ^ (E - ez)) ez).
  rewrite dyadic_canonical by (unfold ez; lia).
  f_equal. lia.
Qed.

Lemma round_quarter (a : Z) : Z.abs a < 2 ^ 53 -> Py.round (quarter a) = round_quarters a.
Proof.
  intros Ha. rewrite quarter_canonical by exact Ha.
  destruct (Z.eq_dec a 0) as [-> | Hne]; [reflexivity |].
  rewrite canonical_finite by exact Hne. unfold Py.round, round_quarters.
  pose proof (Z.log2_nonneg (Z.abs a)) as Hl0.
  assert (Hl : Z.log2 (Z.abs a) < 53) by (apply Z.log2_lt_pow2; lia).
  set (l := Z.log2 (Z.abs a)) in *.
  set (u := 2 ^ (52 - l)).
  assert (Hu : 0 < u) by (unfold u; lia).
  replace (0 <=? l + -2 - 52) with false by (symmetry; apply Z.leb_gt; lia).
  rewrite Z2Pos.id by nia.
  replace (2 ^ (- (l + -2 - 52))) with (4 * u).
  2:{ unfold u. replace (- (l + -2 - 52)) with (2 + (52 - l)) by lia.
      rewrite Z.pow_add_r by lia. reflexivity. }
  rewrite Z.div_mul_cancel_r by lia.
  rewrite Z.mul_mod_distr_r by lia.
  replace (2 * (Z.abs a mod 4 * u) ?= 4 * u) with (Z.abs a mod 4 ?= 2).
  2:{ destruct (Z.compare_spec (Z.abs a mod 4) 2),
               (Z.compare_spec (2 * (Z.abs a mod 4 * u)) (4 * u)); try reflexivity; nia. }
  reflexivity.
Qed.

Lemma round_quarters_near (a : Z) :
  -2 <= a - 4 * round_quarters a <= 2 /\
  (a - 4 * round_quarters a = 0 <-> a mod 4 = 0).
Proof.
  unfold round_quarters.
  pose proof (Z.div_mod (Z.abs a) 4 ltac:(lia)) as Hdm.
  pose proof (Z.mod_pos_bound (Z.abs a) 4 ltac:(lia)) as Hb.
  pose proof (Z.div_mod a 4 ltac:(lia)) as Hdm'.
  pose proof (Z.mod_pos_bound a 4 ltac:(lia)) as Hb'.
  destruct (Z.compare_spec (Z.abs a mod 4) 2) as [He | Hlt | Hgt];
    destruct (Z.ltb_spec a 0) as [Hneg | Hpos];
    try destruct (Z.even (Z.abs a / 4)); lia.
Qed.

Lemma near_int_quarter (a : Z) :
  Z.abs a < 2 ^ 52 -> near_int (quarter a) = (a mod 4 =? 0).
Proof.
  intros Ha. unfold near_int. rewrite round_quarter by lia.
  destruct (round_quarters_near a) as [Hj Hiff].
  rewrite float_of_int_quarter by lia.
  rewrite !quarter_canonical by lia.
  rewrite fsub_canonical by lia.
  set (j := a - 4 * round_quarters a) in *.
  assert (Hcases : j = -2 \/ j = -1 \/ j = 0 \/ j = 1 \/ j = 2) by lia.
  destruct (Z.eqb_spec (a mod 4) 0) as [H0 | Hn0].
  - apply Hiff in H0. rewrite H0. vm_compute. reflexivity.
  - destruct Hcases as [Hc | [Hc | [H0 | [Hc | Hc]]]].
    + rewrite Hc. vm_compute. reflexivity.
    + rewrite Hc. vm_compute. reflexivity.
    + apply Hiff in H0. contradiction.
    + rewrite Hc. vm_compute. reflexivity.
    + rewrite Hc. vm_compute. reflexivity.
Qed.

Lemma quarter_is_quarters (k : Z) : Z.abs k < 2 ^ 53 -> is_quarters (quarter k) k.
Proof.
  intros Hk. rewrite quarter_canonical by exact Hk.
  destruct (Z.eq_dec k 0) as [-> | Hne]; [reflexivity |].
  rewrite canonical_finite by exact Hne. unfold is_quarters.
  pose proof (Z.log2_nonneg (Z.abs k)) as Hl0.
  assert (Hl : Z.log2 (Z.abs k) < 53) by (apply Z.log2_lt_pow2; lia).
  set (l := Z.log2 (Z.abs k)) in *.
  assert (Hu : 0 < 2 ^ (52 - l)) by lia.
  rewrite Z2Pos.id by nia.
  assert (Hs : cond_Zopp (k <? 0) (Z.abs k * 2 ^ (52 - l)) = k * 2 ^ (52 - l)).
  { unfold cond_Zopp.
    destruct (Z.ltb_spec k 0); [rewrite Z.abs_neq by lia | rewrite Z.abs_eq by lia]; lia. }
  rewrite Hs. destruct (Z.ltb_spec (l + -2 - 52) (-2)).
  - f_equal. f_equal. lia.
  - replace l with 52 by lia. cbn. lia.
Qed.

Lemma fadd_quarter (a b : Z) :
  Z.abs a < 2 ^ 52 -> Z.abs b < 2 ^ 52 -> Py.fadd (quarter a) (quarter b) = quarter (a + b).
Proof.
  intros Ha Hb. rewrite !quarter_canonical by lia. apply fadd_canonical; lia.
Qed.

Lemma step_quarter (c : Z) :
  c = -1 \/ c = 0 \/ c = 1 -> Py.fmul (Py.float_of_int c) (quarter 1) = quarter c.
Proof. intros [-> | [-> | ->]]; vm_compute; reflexivity. Qed.

Lemma player_speed_quarter (start : Z * Z) : Player.speed (Player.__init__ start) = quarter 1.
Proof. vm_compute. reflexivity. Qed.

Lemma round_quarters_mul4 (t : Z) : round_quarters (4 * t) = t.
Proof.
  unfold round_quarters.
  replace (Z.abs (4 * t)) with (Z.abs t * 4) by lia.
  rewrite Z.mod_mul, Z.div_mul by lia. cbn [Z.compare Pos.compare Pos.compare_cont].
  destruct (Z.ltb_spec (4 * t) 0); lia.
Qed.

(** ** The player moves by exact quarters *)

Lemma ok_tile_bound (m : Maze.t) (tx ty : Z) :
  small_maze m -> ok_tile m (tx, ty) -> Z.abs tx <= 2 ^ 40 /\ Z.abs ty <= 2 ^ 40.
Proof.
  intros (Hw & Hh & Hsx & Hsy & _) [[Hin | Heq] _].
  - unfold Maze.in_bounds in Hin. cbn [fst snd] in Hin.
    apply andb_true_iff in Hin as [Hin H4]. apply andb_true_iff in Hin as [Hin H3].
    apply andb_true_iff in Hin as [H1 H2]. lia.
  - rewrite <- Heq in Hsx, Hsy. cbn [fst snd] in *. lia.
Qed.

Lemma valid_dir_components (d : Z * Z) :
  valid_dir d -> (d.1 = -1 \/ d.1 = 0 \/ d.1 = 1) /\ (d.2 = -1 \/ d.2 = 0 \/ d.2 = 1).
Proof. intros [-> | [-> | [-> | [-> | ->]]]]; cbn; lia. Qed.

Section AtQuarters.

Variables (p : Player.t) (kx ky : Z).
Hypothesis Hpos : Player.pos p = (quarter kx, quarter ky).
Hypothesis Hkx : Z.abs kx < 2 ^ 50.
Hypothesis Hky : Z.abs ky < 2 ^ 50.

Lemma centered_quarters :
  Player._is_centered_on_tile p = (kx mod 4 =? 0) && (ky mod 4 =? 0).
Proof.
  unfold Player._is_centered_on_tile. rewrite Hpos. cbn [fst snd].
  rewrite !near_int_quarter by lia. reflexivity.
Qed.

Lemma tile_quarters : tile_of (Player.pos p) = (round_quarters kx, round_quarters ky).
Proof.
  unfold tile_of. rewrite Hpos. cbn [fst snd]. rewrite !round_quarter by lia. reflexivity.
Qed.

Lemma clamp_quarters (m : Maze.t) : Player._clamp_inside_walls m p = p.
Proof.
  unfold Player._clamp_inside_walls. rewrite centered_quarters, tile_quarters.
  destruct ((kx mod 4 =? 0) && (ky mod 4 =? 0)) eqn:Hc; [| reflexivity].
  cbn [negb]. destruct (bool_decide _); [| reflexivity].
  apply andb_true_iff in Hc as [Hx Hy]. apply Z.eqb_eq in Hx, Hy.
  destruct (round_quarters_near kx) as [Bx Ix]. destruct (round_quarters_near ky) as [By Iy].
  apply Ix in Hx. apply Iy in Hy.
  rewrite !float_of_int_quarter by lia.
  replace (4 * round_quarters kx) with kx by lia.
  replace (4 * round_quarters ky) with ky by lia.
  rewrite <- Hpos. destruct p; reflexivity.
Qed.

Lemma move_quarters :
  Player.speed p = quarter 1 -> valid_dir (Player.dir p) ->
  Player.pos (Player.move p) = (quarter (kx + (Player.dir p).1), quarter (ky + (Player.dir p).2)).
Proof.
  intros Hs Hd. destruct (valid_dir_components _ Hd) as [H1 H2].
  unfold Player.move. cbn [Player.pos Player.set_pos]. rewrite Hpos, Hs. cbn [fst snd].
  rewrite !step_quarter by assumption. rewrite !fadd_quarter by lia. reflexivity.
Qed.

End AtQuarters.

Lemma turn_facts (m : Maze.t) (p : Player.t) :
  Player.pos (Player.turn m p) = Player.pos p /\
  Player.speed (Player.turn m p) = Player.speed p /\
  Player.next_dir (Player.turn m p) = Player.next_dir p /\
  (Player.dir (Player.turn m p) = Player.dir p \/
   Player.dir (Player.turn m p) = Player.next_dir p) /\
  (Player._is_centered_on_tile p = false -> Player.turn m p = p).
Proof.
  unfold Player.turn.
  destruct (bool_decide _); [| tauto].
  destruct (Player._is_centered_on_tile p); [| tauto].
  destruct (Player.can_move m p _); [| repeat split; auto; discriminate].
  cbn. repeat split; auto; discriminate.
Qed.

Lemma stop_facts (m : Maze.t) (p : Player.t) :
  Player.pos (Player.stop_if_blocked m p) = Player.pos p /\
  Player.speed (Player.stop_if_blocked m p) = Player.speed p /\
  Player.next_dir (Player.stop_if_blocked m p) = Player.next_dir p /\
  (Player.dir (Player.stop_if_blocked m p) = STOP \/
   Player.dir (Player.stop_if_blocked m p) = Player.dir p /\
   (Player._is_centered_on_tile p = true -> Player.can_move m p (Player.dir p) = true)) /\
  (Player._is_centered_on_tile p = false -> Player.stop_if_blocked m p = p).
Proof.
  unfold Player.stop_if_blocked.
  destruct (Player.can_move m p (Player.dir p)); cbn [negb].
  - repeat split; auto.
  - destruct (Player._is_centered_on_tile p); cbn.
    + repeat split; auto; discriminate.
    + repeat split; auto.
Qed.

Lemma can_move_ok_tile (m : Maze.t) (p : Player.t) (d : Z * Z) (tx ty : Z) :
  tile_of (Player.pos p) = (tx, ty) ->
  Player.can_move m p d = true -> ok_tile m (tx + d.1, ty + d.2).
Proof.
  intros Ht. unfold Player.can_move, Maze.passable. rewrite Ht. intros H.
  apply andb_true_iff in H as [Hin Hpass]. split; [left; exact Hin |].
  apply negb_true_iff, bool_decide_eq_false in Hpass. exact Hpass.
Qed.

Lemma moving_not_centered (d : Z * Z) (tx ty o : Z) :
  valid_dir d -> d <> STOP -> 0 < o <= 3 ->
  ((4 * tx + o * d.1) mod 4 =? 0) && ((4 * ty + o * d.2) mod 4 =? 0) = false.
Proof.
  intros Hd Hne Ho. apply andb_false_iff.
  destruct Hd as [-> | [-> | [-> | [-> | ->]]]]; [contradiction | | | |]; cbn [fst snd UP DOWN LEFT RIGHT];
    [right | right | left | left]; apply Z.eqb_neq; intros H;
    apply Z.mod_divide in H; try lia; destruct H as [c Hc]; lia.
Qed.

Lemma update_inv (m : Maze.t) (p : Player.t) :
  small_maze m -> player_inv m p -> player_inv m (Player.update m p).
Proof.
  intros Hm (Hs & Hd & Hn & tx & ty & o & Hok & Ho & Hgo & Hpos).
  destruct (ok_tile_bound m tx ty Hm Hok) as [Btx Bty].
  destruct (valid_dir_components _ Hd) as [Hd1 Hd2].
  destruct (turn_facts m p) as (T1 & T2 & T3 & T4 & T5).
  destruct (stop_facts m (Player.turn m p)) as (S1 & S2 & S3 & S4 & S5).
  unfold Player.update.
  set (p1 := Player.turn m p) in *. set (p2 := Player.stop_if_blocked m p1) in *.
  clearbody p2. clearbody p1.
  assert (Hpos2 : Player.pos p2 = Player.pos p) by congruence.
  assert (Hs2 : Player.speed p2 = quarter 1) by congruence.
  assert (Hn2 : valid_dir (Player.next_dir p2)) by (rewrite S3, T3; exact Hn).
  assert (Hd1' : valid_dir (Player.dir p1)) by (destruct T4 as [-> | ->]; assumption).
  assert (Hd2' : valid_dir (Player.dir p2)).
  { destruct S4 as [-> | [-> _]]; [left; reflexivity | exact Hd1']. }
  assert (Hmove := move_quarters p2 _ _ (eq_trans Hpos2 Hpos) ltac:(lia) ltac:(lia) Hs2 Hd2').
  rewrite (clamp_quarters (Player.move p2) _ _ Hmove)
    by (destruct (valid_dir_components _ Hd2'); lia).
  assert (Hfields : Player.speed (Player.move p2) = quarter 1 /\
                    Player.dir (Player.move p2) = Player.dir p2 /\
                    Player.next_dir (Player.move p2) = Player.next_dir p2)
    by (repeat split; exact Hs2).
  destruct Hfields as (F1 & F2 & F3).
  split; [exact F1 | split; [rewrite F2; exact Hd2' | split; [rewrite F3; exact Hn2 |]]].
  pose proof (centered_quarters p _ _ Hpos ltac:(lia) ltac:(lia)) as Hcen.
  destruct (Z.eq_dec o 0) as [-> | Hone].
  - (* on the centre of the tile *)
    assert (Hc : Player._is_centered_on_tile p = true).
    { rewrite Hcen. rewrite !Z.mul_0_l, !Z.add_0_r, !(Z.mul_comm 4), !Z.mod_mul by lia.
      reflexivity. }
    assert (Htile : tile_of (Player.pos p1) = (tx, ty)).
    { rewrite T1, (tile_quarters p _ _ Hpos) by lia.
      rewrite !Z.mul_0_l, !Z.add_0_r, !round_quarters_mul4. reflexivity. }
    assert (Hc1 : Player._is_centered_on_tile p1 = true).
    { unfold Player._is_centered_on_tile in *. rewrite T1. exact Hc. }
    destruct (decide (Player.dir p2 = STOP)) as [Hstop | Hgo2].
    + exists tx, ty, 0. split; [exact Hok | split; [lia | split; [lia |]]].
      rewrite Hmove, F2, Hstop. cbn [fst snd STOP]. f_equal; f_equal; lia.
    + exists tx, ty, 1. split; [exact Hok | split; [lia | split]].
      * intros _. rewrite F2. split; [exact Hgo2 |].
        destruct S4 as [Hst | [Heq Hcan]]; [contradiction |].
        rewrite Heq. apply (can_move_ok_tile m p1 _ _ _ Htile), Hcan, Hc1.
      * rewrite Hmove, F2. f_equal; f_equal; lia.
  - (* between two centres *)
    destruct (Hgo ltac:(lia)) as [Hne Hin].
    assert (Hc : Player._is_centered_on_tile p = false).
    { rewrite Hcen. apply moving_not_centered; [exact Hd | exact Hne | lia]. }
    assert (E1 : p1 = p) by (apply T5, Hc).
    subst p1. assert (E2 : p2 = p) by (apply S5, Hc). subst p2.
    destruct (Z.eq_dec o 3) as [-> | Ho3].
    + exists (tx + (Player.dir p).1), (ty + (Player.dir p).2), 0.
      split; [exact Hin | split; [lia | split; [lia |]]].
      rewrite Hmove, F2. f_equal; f_equal; lia.
    + exists tx, ty, (o + 1).
      split; [exact Hok | split; [lia | split]].
      * intros _. rewrite F2. split; assumption.
      * rewrite Hmove, F2. f_equal; f_equal; lia.
Qed.

(** ** The invariant over the frames of the game *)

Lemma same_frame_refl (m : Maze.t) : same_frame m m.
Proof. repeat split. Qed.

Lemma same_frame_sym (m m' : Maze.t) : same_frame m m' -> same_frame m' m.
Proof. intros (H1 & H2 & H3 & H4). repeat split; congruence. Qed.

Lemma small_maze_frame (m m' : Maze.t) : same_frame m m' -> small_maze m -> small_maze m'.
Proof. intros (H1 & H2 & H3 & H4). unfold small_maze. rewrite H1, H2, H3, H4. tauto. Qed.

Lemma player_inv_frame (m m' : Maze.t) (p : Player.t) :
  same_frame m m' -> player_inv m p -> player_inv m' p.
Proof.
  intros (H1 & H2 & H3 & H4) (Hs & Hd & Hn & tx & ty & o & Hok & Ho & Hgo & Hpos).
  split; [exact Hs | split; [exact Hd | split; [exact Hn |]]].
  exists tx, ty, o. unfold on_track, ok_tile, Maze.in_bounds in *.
  rewrite H1, H2, H3, H4. tauto.
Qed.

Lemma player_inv_fields (m : Maze.t) (p p' : Player.t) :
  Player.pos p' = Player.pos p -> Player.dir p' = Player.dir p ->
  Player.speed p' = Player.speed p -> valid_dir (Player.next_dir p') ->
  player_inv m p -> player_inv m p'.
Proof.
  intros Hp' Hd' Hs' Hn' (Hs & Hd & Hn & tx & ty & o & Hok & Ho & Hgo & Hpos).
  split; [congruence | split; [congruence | split; [exact Hn' |]]].
  exists tx, ty, o. unfold on_track. rewrite Hp', Hd'. tauto.
Qed.

Lemma player_inv_next (p : Player.t) : forall m, player_inv m p -> valid_dir (Player.next_dir p).
Proof. intros m (_ & _ & Hn & _). exact Hn. Qed.

Lemma handle_input_inv (m : Maze.t) (k : keys) (p : Player.t) :
  player_inv m p -> player_inv m (Player.handle_input k p).
Proof.
  intros H. unfold Player.handle_input.
  destruct (K_UP k); [apply (player_inv_fields m p); auto; right; left; reflexivity |].
  destruct (K_DOWN k);
    [apply (player_inv_fields m p); auto; right; right; left; reflexivity |].
  destruct (K_LEFT k);
    [apply (player_inv_fields m p); auto; right; right; right; left; reflexivity |].
  destruct (K_RIGHT k);
    [apply (player_inv_fields m p); auto; right; right; right; right; reflexivity |].
  exact H.
Qed.

Lemma reset_pos_inv (m : Maze.t) (p : Player.t) :
  small_maze m -> player_inv m p ->
  player_inv m (Player.set_pos p (Py.float_of_int (Maze.player_start m).1,
                                  Py.float_of_int (Maze.player_start m).2)).
Proof.
  intros (Hw & Hh & Hsx & Hsy & Hsw) (Hs & Hd & Hn & _).
  split; [exact Hs | split; [exact Hd | split; [exact Hn |]]].
  exists (Maze.player_start m).1, (Maze.player_start m).2, 0.
  split; [split; [right |]; destruct (Maze.player_start m); [reflexivity | exact Hsw]
         | split; [lia | split; [lia |]]].
  cbn [Player.pos Player.set_pos Player.dir]. rewrite !float_of_int_quarter by lia.
  f_equal; f_equal; lia.
Qed.

Lemma eat_pellets_inv (m0 m : Maze.t) (p : Player.t) :
  same_frame m0 m -> player_inv m0 p ->
  same_frame m0 (Player.eat_pellets m p).2 /\ player_inv m0 (Player.eat_pellets m p).1.2.
Proof.
  intros Hf Hp. unfold Player.eat_pellets. destruct (tile_of (Player.pos p)) as [gx gy].
  destruct (bool_decide ((gx, gy) ∈ Maze.pellets m)); cbn [Maze.power_pellets];
    destruct (bool_decide ((gx, gy) ∈ Maze.power_pellets m)); cbn [fst snd];
    (split; [exact Hf | first [exact Hp | apply (player_inv_fields m0 p); auto;
                                          exact (player_inv_next p m0 Hp)]]).
Qed.

Lemma update_player_inv (m0 : Maze.t) (s : Game.t) :
  small_maze m0 -> game_inv m0 s -> game_inv m0 (Game.update_player s).
Proof.
  intros Hm [Hf Hp]. unfold Game.update_player.
  assert (Hp' : player_inv m0 (Player.update (Game.maze s) (Game.player s))).
  { apply (player_inv_frame (Game.maze s)); [apply same_frame_sym, Hf |].
    apply update_inv; [exact (small_maze_frame _ _ Hf Hm) |].
    exact (player_inv_frame _ _ _ Hf Hp). }
  pose proof (eat_pellets_inv m0 (Game.maze s) _ Hf Hp') as [Hf2 Hp2].
  destruct (Player.eat_pellets _ _) as [[[pel power] p'] m']. cbn [fst snd] in *.
  destruct (0 <? power); split; assumption.
Qed.

Lemma update_ghosts_inv (m0 : Maze.t) (s : Game.t) (r : Py.rng) :
  game_inv m0 s -> game_inv m0 (Game.update_ghosts s r).1.
Proof.
  intros H. unfold Game.update_ghosts, Py.bind.
  destruct (for_each _ (Game.ghosts s) r). exact H.
Qed.

Lemma countdown_inv (m0 : Maze.t) (s : Game.t) : game_inv m0 s -> game_inv m0 (Game.countdown s).
Proof.
  intros H. unfold Game.countdown.
  repeat match goal with |- context [if ?c then _ else _] => destruct c end; exact H.
Qed.

Lemma lose_life_inv (m0 : Maze.t) (s : Game.t) (r : Py.rng) :
  small_maze m0 -> game_inv m0 s -> game_inv m0 (Game.lose_life s r).1.
Proof.
  intros Hm [Hf Hp]. unfold Game.lose_life.
  assert (Hp1 : player_inv m0 (Player.set_lives (Game.player s) (Player.lives (Game.player s) - 1))).
  { apply (player_inv_fields m0 (Game.player s)); auto. exact (player_inv_next _ _ Hp). }
  match goal with |- context [if ?c then _ else _] => destruct c end.
  - split; [exact Hf | exact Hp1].
  - unfold Py.bind. cbn [Game.ghosts Game.set_player Game.maze Game.player].
    destruct (for_each Ghost.reset (Game.ghosts s) r) as [gs' r'].
    split; [exact Hf |]. cbn [fst Py.ret Game.player Game.set_power_timer Game.set_ghosts].
    destruct Hf as (H1 & H2 & H3 & H4). rewrite H3.
    apply reset_pos_inv; assumption.
Qed.

Lemma collide_inv (m0 : Maze.t) (pp : Z * Z) (i : nat) (s : Game.t) (r : Py.rng) :
  small_maze m0 -> game_inv m0 s -> game_inv m0 (Game.collide pp i s r).1.
Proof.
  intros Hm H. unfold Game.collide.
  destruct (Game.ghosts s !! i) as [g|]; [| exact H].
  destruct (Game.hit pp _); [| exact H].
  unfold Game.on_collision.
  destruct (bool_decide (Ghost.state g = GHOST_VULNERABLE)).
  - destruct H as [Hf Hp]. split; [exact Hf |].
    apply (player_inv_fields m0 (Game.player s)); auto. exact (player_inv_next _ _ Hp).
  - destruct (bool_decide (Ghost.state g = GHOST_EATEN)); [exact H |].
    apply lose_life_inv; assumption.
Qed.

Lemma collide_from_inv (m0 : Maze.t) (pp : Z * Z) (n i : nat) (s : Game.t) (r : Py.rng) :
  small_maze m0 -> game_inv m0 s -> game_inv m0 (Game.collide_from pp i n s r).1.
Proof.
  intros Hm. revert i s r. induction n as [|n IH]; intros i s r H; [exact H |].
  cbn [Game.collide_from]. unfold Py.bind.
  pose proof (collide_inv m0 pp i s r Hm H) as H1.
  destruct (Game.collide pp i s r) as [s' r']. apply IH, H1.
Qed.

Lemma check_win_inv (m0 : Maze.t) (s : Game.t) : game_inv m0 s -> game_inv m0 (Game.check_win s).
Proof.
  intros H. unfold Game.check_win.
  match goal with |- context [if ?c then _ else _] => destruct c end; exact H.
Qed.

Lemma frame_inv (m0 : Maze.t) (ev : events) (s : Game.t) (r : Py.rng) :
  small_maze m0 -> game_inv m0 s -> game_inv m0 (Game.frame ev s r).1.
Proof.
  intros Hm [Hf Hp]. unfold Game.frame, Game._update, Py.bind.
  assert (H0 : game_inv m0 (Game._handle_events ev s)).
  { unfold Game._handle_events. destruct (quit ev); (split; [exact Hf |]);
      apply handle_input_inv; exact Hp. }
  pose proof (update_player_inv m0 _ Hm H0) as H1.
  pose proof (update_ghosts_inv m0 _ r H1) as H2.
  destruct (Game.update_ghosts _ r) as [s2 r2]. cbn [fst] in H2.
  apply countdown_inv in H2.
  pose proof (collide_from_inv m0 (grid_to_px (Player.pos (Game.player (Game.countdown s2))))
                (length (Game.ghosts (Game.countdown s2))) 0 _ r2 Hm H2) as H3.
  unfold Game._check_collisions.
  destruct (Game.collide_from _ _ _ _ r2) as [s4 r4]. cbn [fst Py.ret] in *.
  apply check_win_inv, H3.
Qed.

Lemma new_fields (m : Maze.t) (r : Py.rng) :
  Game.maze (Game.new m r).1 = m /\
  Game.player (Game.new m r).1 = Player.__init__ (Maze.player_start m).
Proof.
  unfold Game.new, Py.bind, Py.ret.
  repeat match goal with
         | |- context [let '(_, _) := ?x in _] => destruct x
         end.
  split; reflexivity.
Qed.

Lemma new_inv (m : Maze.t) (r : Py.rng) : small_maze m -> game_inv m (Game.new m r).1.
Proof.
  intros Hm. unfold game_inv. destruct (new_fields m r) as [E1 E2]. rewrite E1, E2.
  split; [apply same_frame_refl |].
  destruct Hm as (Hw & Hh & Hsx & Hsy & Hsw).
  split; [apply player_speed_quarter | split; [left; reflexivity | split; [left; reflexivity |]]].
  exists (Maze.player_start m).1, (Maze.player_start m).2, 0.
  split; [split; [right |]; destruct (Maze.player_start m); [reflexivity | exact Hsw]
         | split; [lia | split; [lia |]]].
  cbn [Player.__init__ Player.pos Player.dir]. rewrite !float_of_int_quarter by lia.
  f_equal; f_equal; lia.
Qed.

Lemma reachable_inv (m : Maze.t) (s : Game.t) :
  small_maze m -> Game.reachable_from m s -> game_inv m s.
Proof.
  intros Hm H. induction H as [r | s ev r _ IH _].
  - apply new_inv, Hm.
  - apply frame_inv; assumption.
Qed.

Lemma build_maze_small : small_maze Game._build_maze.
Proof.
  assert (Hw : Maze.width Game._build_maze = 25) by (vm_compute; reflexivity).
  assert (Hh : Maze.height Game._build_maze = 15) by (vm_compute; reflexivity).
  assert (Hs : Maze.player_start Game._build_maze = (1, 1)) by (vm_compute; reflexivity).
  assert (Hsw : bool_decide ((1, 1) ∈ Maze.walls Game._build_maze) = false)
    by (vm_compute; reflexivity).
  apply bool_decide_eq_false in Hsw.
  unfold small_maze. rewrite Hw, Hh, Hs. cbn [fst snd]. repeat split; [lia .. | exact Hsw].
Qed.

(** C9.  In every reachable state of the game the speed of the player is
    exactly 1/4 and both coordinates of its position are exactly an integer
    number of quarters; whenever the centring test succeeds both numbers
    are multiples of 4, that is, the player is exactly on the integer
    centre of a tile. *)
Theorem player_stays_on_quarters (s : Game.t) :
  Game.reachable s ->
  is_quarters (Player.speed (Game.player s)) 1 /\
  exists kx ky : Z,
    is_quarters (Player.pos (Game.player s)).1 kx /\
    is_quarters (Player.pos (Game.player s)).2 ky /\
    (Player._is_centered_on_tile (Game.player s) = true ->
     exists tx ty : Z, kx = 4 * tx /\ ky = 4 * ty /\
       Player.pos (Game.player s) = (Py.float_of_int tx, Py.float_of_int ty)).
Proof.
  intros Hr.
  destruct (reachable_inv _ s build_maze_small Hr) as [Hf Hp].
  pose proof build_maze_small as Hm.
  destruct Hp as (Hs & Hd & Hn & tx & ty & o & Hok & Ho & Hgo & Hpos).
  destruct (ok_tile_bound _ tx ty Hm Hok) as [Btx Bty].
  destruct (valid_dir_components _ Hd) as [Hd1 Hd2].
  split; [rewrite Hs; apply quarter_is_quarters; lia |].
  exists (4 * tx + o * (Player.dir (Game.player s)).1),
         (4 * ty + o * (Player.dir (Game.player s)).2).
  rewrite Hpos at 1 2. cbn [fst snd].
  split; [apply quarter_is_quarters; lia | split; [apply quarter_is_quarters; lia |]].
  intros Hc. rewrite (centered_quarters _ _ _ Hpos) in Hc by lia.
  apply andb_true_iff in Hc as [Hx Hy]. apply Z.eqb_eq in Hx, Hy.
  apply Z.mod_divide in Hx, Hy; try lia.
  destruct Hx as [cx Hx], Hy as [cy Hy].
  exists cx, cy. split; [lia | split; [lia |]].
  rewrite Hpos, !float_of_int_quarter by lia. f_equal; f_equal; lia.
Qed.

Lemma player_stays_on_quarters_witness :
  is_quarters (Player.speed (Game.player (Game.play chase fresh_game []).1)) 1 /\
  exists kx ky : Z,
    is_quarters (Player.pos (Game.player (Game.play chase fresh_game []).1)).1 kx /\
    is_quarters (Player.pos (Game.player (Game.play chase fresh_game []).1)).2 ky /\
    (Player._is_centered_on_tile (Game.player (Game.play chase fresh_game []).1) = true ->
     exists tx ty : Z, kx = 4 * tx /\ ky = 4 * ty /\
       Player.pos (Game.player (Game.play chase fresh_game []).1)
       = (Py.float_of_int tx, Py.float_of_int ty)).
Proof.
  apply player_stays_on_quarters.
  apply play_reachable; [apply Game.reach_init | vm_compute; reflexivity].
Defined.

(** ** The player, unlike the ghosts, stays off the walls *)

Lemma round_quarters_step (t o c : Z) :
  0 <= o <= 3 -> c = -1 \/ c = 0 \/ c = 1 ->
  round_quarters (4 * t + o * c) = t \/ (0 < o /\ round_quarters (4 * t + o * c) = t + c).
Proof.
  intros Ho Hc. destruct (round_quarters_near (4 * t + o * c)) as [Hnear _].
  destruct Hc as [-> | [-> | ->]]; lia.
Qed.

(** X28.  In every reachable state of the game the tile the player's position
    rounds to is not a wall: the player turns and stops on tile centres,
    which it never misses. *)
Lemma player_off_walls (s : Game.t) :
  Game.reachable s -> tile_of (Player.pos (Game.player s)) ∉ Maze.walls (Game.maze s).
Proof.
  intros Hr.
  destruct (reachable_inv _ s build_maze_small Hr) as [(_ & _ & _ & Hwalls) Hp].
  pose proof build_maze_small as Hm. rewrite Hwalls.
  destruct Hp as (Hs & Hd & Hn & tx & ty & o & Hok & Ho & Hgo & Hpos).
  destruct (ok_tile_bound _ tx ty Hm Hok) as [Btx Bty].
  destruct (valid_dir_components _ Hd) as [Hd1 Hd2].
  rewrite (tile_quarters _ _ _ Hpos) by lia.
  destruct (round_quarters_step tx o _ Ho Hd1) as [Hx | [Hox Hx]];
    destruct (round_quarters_step ty o _ Ho Hd2) as [Hy | [Hoy Hy]];
    rewrite Hx, Hy.
  - apply Hok.
  - destruct (Hgo Hoy) as [Hne Htarget].
    destruct Hd as [E | [E | [E | [E | E]]]]; rewrite E in *; cbn [fst snd STOP UP DOWN LEFT RIGHT] in *;
      try contradiction; try (rewrite Z.add_0_r in *); try apply Htarget; try apply Hok.
  - destruct (Hgo Hox) as [Hne Htarget].
    destruct Hd as [E | [E | [E | [E | E]]]]; rewrite E in *; cbn [fst snd STOP UP DOWN LEFT RIGHT] in *;
      try contradiction; try (rewrite Z.add_0_r in *); try apply Htarget; try apply Hok.
  - destruct (Hgo Hox) as [Hne Htarget]. apply Htarget.
Qed.

(** ** A life-loss reset lasts until the end of the collision pass *)

Lemma for_each_reset_all (gs : list Ghost.t) (r : Py.rng) :
  Forall (fun g => Ghost.pos g = (Py.float_of_int (Ghost.start g).1,
                                  Py.float_of_int (Ghost.start g).2) /\
                   Ghost.state g = GHOST_NORMAL) (for_each Ghost.reset gs r).1.
Proof.
  revert r. induction gs as [|g gs IH]; intros r; [constructor |].
  rewrite for_each_cons. cbn [fst]. constructor; [| apply IH].
  rewrite reset_spec. split; reflexivity.
Qed.

Lemma lose_life_after_reset (s : Game.t) (r : Py.rng) :
  after_reset s \/ 2 <= Player.lives (Game.player s) -> after_reset (Game.lose_life s r).1.
Proof.
  intros H. unfold Game.lose_life.
  cbn [Game.player Game.set_player Player.lives Player.set_lives].
  destruct (Z.leb_spec (Player.lives (Game.player s) - 1) 0) as [Hle | Hgt].
  - destruct H as [H | H]; [exact H | lia].
  - unfold Py.bind. cbn [Game.ghosts Game.set_player].
    pose proof (for_each_reset_all (Game.ghosts s) r) as Hall.
    destruct (for_each Ghost.reset (Game.ghosts s) r) as [gs' r'].
    split; [reflexivity | split; [exact Hall | reflexivity]].
Qed.

Lemma collide_after_reset (pp : Z * Z) (i : nat) (s : Game.t) (r : Py.rng) :
  after_reset s -> after_reset (Game.collide pp i s r).1.
Proof.
  intros H. unfold Game.collide.
  destruct (Game.ghosts s !! i) as [g|] eqn:Hi; [| exact H].
  destruct (Game.hit pp _); [| exact H].
  assert (Hst : Ghost.state g = GHOST_NORMAL).
  { destruct H as (_ & Hall & _). rewrite Forall_forall in Hall.
    apply Hall, list_elem_of_lookup. exists i. exact Hi. }
  unfold Game.on_collision. rewrite Hst.
  rewrite !bool_decide_eq_false_2 by discriminate.
  apply lose_life_after_reset. left. exact H.
Qed.

Lemma collide_from_after_reset (pp : Z * Z) (n i : nat) (s : Game.t) (r : Py.rng) :
  after_reset s -> after_reset (Game.collide_from pp i n s r).1.
Proof.
  revert i s r. induction n as [|n IH]; intros i s r H; [exact H |].
  cbn [Game.collide_from]. unfold Py.bind.
  pose proof (collide_after_reset pp i s r H) as H1.
  destruct (Game.collide pp i s r) as [s' r']. apply IH, H1.
Qed.

(** X29.  Once the loop has reached a normal ghost that touches a player with at
    least two lives, the player is on its start, every ghost is on its own
    start in the normal state and the power timer is 0 when the pass ends
    [n] ghosts later, whatever collisions follow in the same pass; only the
    number of lives may go down again. *)
Lemma life_loss_reset_lasts (pp : Z * Z) (i n : nat) (s : Game.t) (g : Ghost.t) (r : Py.rng) :
  Game.ghosts s !! i = Some g ->
  Ghost.state g = GHOST_NORMAL ->
  Game.hit pp (grid_to_px (Ghost.pos g)) = true ->
  2 <= Player.lives (Game.player s) ->
  after_reset (Game.collide_from pp i (S n) s r).1.
Proof.
  intros Hi Hst Hhit Hlives. cbn [Game.collide_from]. unfold Py.bind.
  assert (H1 : after_reset (Game.collide pp i s r).1).
  { unfold Game.collide, Game.on_collision. rewrite Hi, Hhit, Hst.
    rewrite !bool_decide_eq_false_2 by discriminate.
    apply lose_life_after_reset. right. exact Hlives. }
  destruct (Game.collide pp i s r) as [s' r']. apply collide_from_after_reset, H1.
Qed.

(* ================================================================== *)
(** * Further properties of the code *)
(* ================================================================== *)

(** ** What [_parse] records *)

Lemma get_cons_Z (x : Z) (ch : ascii) (rest : string) :
  0 <= x ->
  String.get (Z.to_nat x) (String ch rest) =
    if x =? 0 then Some ch else String.get (Z.to_nat (x - 1)) rest.
Proof.
  intros Hx. destruct (Z.eqb_spec x 0) as [-> | Hne]; [reflexivity |].
  replace (Z.to_nat x) with (S (Z.to_nat (x - 1))) by lia. reflexivity.
Qed.

Lemma get_Some_length (row : string) (n : nat) (ch : ascii) :
  String.get n row = Some ch -> (n < String.length row)%nat.
Proof.
  revert n. induction row as [|c row IH]; intros n H; [discriminate |].
  destruct n as [|n]; cbn in *; [lia |]. apply IH in H. lia.
Qed.

Lemma row_has_get (c : ascii) (row : string) :
  row_has c row = true <-> exists n, String.get n row = Some c.
Proof.
  induction row as [|ch row IH]; cbn [row_has].
  - split; [discriminate | intros [n H]; discriminate].
  - rewrite orb_true_iff, IH. split.
    + intros [H | [n H]].
      * apply Ascii.eqb_eq in H. subst. exists 0%nat. reflexivity.
      * exists (S n). exact H.
    + intros [[|n] H]; cbn in H.
      * left. injection H as ->. apply Ascii.eqb_refl.
      * right. exists n. exact H.
Qed.

Lemma char_from_cons (y0 : Z) (row : string) (rows : list string) (x y : Z) :
  char_from y0 (row :: rows) x y =
    if (0 <=? x) && (y =? y0) then String.get (Z.to_nat x) row
    else char_from (y0 + 1) rows x y.
Proof.
  unfold char_from.
  destruct (Z.leb_spec 0 x) as [Hx | Hx]; cbn [andb]; [| reflexivity].
  destruct (Z.eqb_spec y y0) as [-> | Hne].
  - rewrite Z.leb_refl, Z.sub_diag. reflexivity.
  - destruct (Z.leb_spec y0 y) as [Hy | Hy].
    + destruct (Z.leb_spec (y0 + 1) y) as [Hy' | Hy']; [| lia].
      replace (Z.to_nat (y - y0)) with (S (Z.to_nat (y - (y0 + 1)))) by lia. reflexivity.
    + destruct (Z.leb_spec (y0 + 1) y) as [Hy' | Hy']; [lia | reflexivity].
Qed.

Lemma char_from_nil (y0 x y : Z) : char_from y0 [] x y = None.
Proof. unfold char_from. destruct (_ && _); reflexivity. Qed.

Lemma char_from_row (y0 : Z) (rows : list string) (x y : Z) (ch : ascii) :
  char_from y0 rows x y = Some ch ->
  0 <= x /\ y0 <= y < y0 + Z.of_nat (length rows) /\
  exists row, rows !! Z.to_nat (y - y0) = Some row /\ x < Maze.len_str row.
Proof.
  unfold char_from. intros H.
  destruct (Z.leb_spec 0 x) as [Hx | Hx]; [| discriminate].
  destruct (Z.leb_spec y0 y) as [Hy | Hy]; [| discriminate]. cbn [andb] in H.
  destruct (rows !! Z.to_nat (y - y0)) as [row|] eqn:Hrow; [| discriminate].
  apply lookup_lt_Some in Hrow as Hlt. apply get_Some_length in H.
  split; [lia | split; [lia |]]. exists row. split; [reflexivity |].
  unfold Maze.len_str. lia.
Qed.

Lemma existsb_row_has (c : ascii) (y0 : Z) (rows : list string) :
  existsb (row_has c) rows = true <-> exists x y, char_from y0 rows x y = Some c.
Proof.
  revert y0. induction rows as [|row rows IH]; intros y0; cbn [existsb].
  - split; [discriminate | intros (x & y & H); rewrite char_from_nil in H; discriminate].
  - rewrite orb_true_iff, row_has_get, (IH (y0 + 1)). split.
    + intros [[n H] | (x & y & H)].
      * exists (Z.of_nat n), y0. rewrite char_from_cons.
        assert (Hn : (0 <=? Z.of_nat n) = true) by (apply Z.leb_le; lia).
        rewrite Hn, Z.eqb_refl, Nat2Z.id. exact H.
      * exists x, y. rewrite char_from_cons.
        apply char_from_row in H as H'. destruct H' as (Hx & Hy & _).
        destruct (Z.eqb_spec y y0) as [-> | _]; [lia |]. rewrite andb_false_r. exact H.
    + intros (x & y & H). rewrite char_from_cons in H.
      destruct ((0 <=? x) && (y =? y0)); [left; eauto | right; eauto].
Qed.

(** *** The four collections *)

Section Collected.

(** [mem m q]: the cell [q] is in one of the collections of [m]; [sel]: the
    characters recorded in it. *)
Variable mem : Maze.t -> Z * Z -> Prop.
Variable sel : ascii -> Prop.
Hypothesis parse_char_mem : forall y x ch m q,
  mem (Maze.parse_char y x ch m) q <-> mem m q \/ (q = (x, y) /\ sel ch).

Lemma parse_row_mem (y : Z) (row : string) (x0 : Z) (m : Maze.t) (q : Z * Z) :
  mem (Maze.parse_row y x0 row m) q <->
  mem m q \/ (q.2 = y /\ x0 <= q.1 /\
              exists ch, String.get (Z.to_nat (q.1 - x0)) row = Some ch /\ sel ch).
Proof.
  revert x0 m. induction row as [|c row IH]; intros x0 m; cbn [Maze.parse_row].
  - split; [tauto | intros [H | (_ & _ & ch & H & _)]; [exact H | discriminate]].
  - rewrite IH, parse_char_mem. destruct q as [qx qy]. cbn [fst snd].
    split.
    + intros [[H | [Hq Hs]] | (Hy & Hx & ch & Hg & Hs)].
      * left. exact H.
      * right. injection Hq as -> ->. split; [reflexivity | split; [lia |]].
        exists c. rewrite Z.sub_diag. split; [reflexivity | exact Hs].
      * right. split; [exact Hy | split; [lia |]]. exists ch.
        rewrite get_cons_Z by lia. destruct (Z.eqb_spec (qx - x0) 0); [lia |].
        replace (qx - x0 - 1) with (qx - (x0 + 1)) by lia. split; assumption.
    + intros [H | (Hy & Hx & ch & Hg & Hs)]; [left; left; exact H |].
      rewrite get_cons_Z in Hg by lia.
      destruct (Z.eqb_spec (qx - x0) 0) as [E | E].
      * injection Hg as ->. left. right. split; [f_equal; lia | exact Hs].
      * right. split; [exact Hy | split; [lia |]]. exists ch.
        replace (qx - (x0 + 1)) with (qx - x0 - 1) by lia. split; assumption.
Qed.

Lemma parse_rows_mem (rows : list string) (y0 : Z) (m : Maze.t) (q : Z * Z) :
  mem (Maze.parse_rows y0 rows m) q <->
  mem m q \/ exists ch, char_from y0 rows q.1 q.2 = Some ch /\ sel ch.
Proof.
  revert y0 m. induction rows as [|row rows IH]; intros y0 m; cbn [Maze.parse_rows].
  - split; [tauto | intros [H | (ch & H & _)]; [exact H |]].
    rewrite char_from_nil in H. discriminate.
  - rewrite IH, parse_row_mem. destruct q as [qx qy]. cbn [fst snd].
    rewrite Z.sub_0_r. setoid_rewrite char_from_cons.
    split.
    + intros [[H | (Hy & Hx & ch & Hg & Hs)] | (ch & Hg & Hs)].
      * left. exact H.
      * right. exists ch. subst qy. rewrite Z.eqb_refl.
        destruct (Z.leb_spec 0 qx); [| lia]. split; assumption.
      * right. exists ch. apply char_from_row in Hg as H'. destruct H' as (Hx & Hy & _).
        destruct (Z.eqb_spec qy y0); [lia |]. rewrite andb_false_r. split; assumption.
    + intros [H | (ch & Hg & Hs)]; [left; left; exact H |].
      destruct (Z.leb_spec 0 qx) as [Hx | Hx]; cbn [andb] in Hg.
      * destruct (Z.eqb_spec qy y0) as [-> | Hne].
        -- left. right. split; [reflexivity | split; [exact Hx |]]. exists ch. split; assumption.
        -- right. exists ch. split; assumption.
      * right. exists ch. split; assumption.
Qed.

End Collected.

Ltac parse_char_cases ch :=
  unfold Maze.parse_char;
  destruct (Ascii.eqb_spec ch "#") as [-> |]; [cbn |
  destruct (Ascii.eqb_spec ch ".") as [-> |]; [cbn |
  destruct (Ascii.eqb_spec ch "o") as [-> |]; [cbn |
  destruct (Ascii.eqb_spec ch "P") as [-> |]; [cbn |
  destruct (Ascii.eqb_spec ch "C") as [-> |]; [cbn |
  destruct (Ascii.eqb_spec ch "R") as [-> |]; [cbn |
  destruct (Ascii.eqb_spec ch "H") as [-> |]; [cbn |]]]]]]].

Lemma parse_char_walls y x ch m q :
  q ∈ Maze.walls (Maze.parse_char y x ch m) <->
  q ∈ Maze.walls m \/ (q = (x, y) /\ ch = "#"%char).
Proof.
  parse_char_cases ch; rewrite ?elem_of_union, ?elem_of_singleton;
    intuition (try discriminate; try congruence).
Qed.

Lemma parse_char_pellets y x ch m q :
  q ∈ Maze.pellets (Maze.parse_char y x ch m) <->
  q ∈ Maze.pellets m \/ (q = (x, y) /\ ch = "."%char).
Proof.
  parse_char_cases ch; rewrite ?elem_of_union, ?elem_of_singleton;
    intuition (try discriminate; try congruence).
Qed.

Lemma parse_char_power_pellets y x ch m q :
  q ∈ Maze.power_pellets (Maze.parse_char y x ch m) <->
  q ∈ Maze.power_pellets m \/ (q = (x, y) /\ ch = "o"%char).
Proof.
  parse_char_cases ch; rewrite ?elem_of_union, ?elem_of_singleton;
    intuition (try discriminate; try congruence).
Qed.

Lemma parse_char_ghost_starts y x ch m q :
  q ∈ Maze.ghost_starts (Maze.parse_char y x ch m) <->
  q ∈ Maze.ghost_starts m \/ (q = (x, y) /\ (ch = "C"%char \/ ch = "R"%char)).
Proof.
  parse_char_cases ch; rewrite ?elem_of_app, ?list_elem_of_singleton;
    intuition (try discriminate; try congruence).
Qed.

(** [_parse] never touches the layout or the two dimensions. *)
Lemma parse_char_dims y x ch m :
  Maze.layout (Maze.parse_char y x ch m) = Maze.layout m /\
  Maze.height (Maze.parse_char y x ch m) = Maze.height m /\
  Maze.width (Maze.parse_char y x ch m) = Maze.width m.
Proof. parse_char_cases ch; auto. Qed.

Lemma parse_row_dims y row x m :
  Maze.layout (Maze.parse_row y x row m) = Maze.layout m /\
  Maze.height (Maze.parse_row y x row m) = Maze.height m /\
  Maze.width (Maze.parse_row y x row m) = Maze.width m.
Proof.
  revert x m. induction row as [|c row IH]; intros x m; cbn [Maze.parse_row]; [auto |].
  destruct (IH (x + 1) (Maze.parse_char y x c m)) as (-> & -> & ->). apply parse_char_dims.
Qed.

Lemma parse_rows_dims rows y m :
  Maze.layout (Maze.parse_rows y rows m) = Maze.layout m /\
  Maze.height (Maze.parse_rows y rows m) = Maze.height m /\
  Maze.width (Maze.parse_rows y rows m) = Maze.width m.
Proof.
  revert y m. induction rows as [|row rows IH]; intros y m; cbn [Maze.parse_rows]; [auto |].
  destruct (IH (y + 1) (Maze.parse_row y 0 row m)) as (-> & -> & ->). apply parse_row_dims.
Qed.

Lemma init_dims (layout : list string) :
  Maze.layout (Maze.__init__ layout) = layout /\
  Maze.height (Maze.__init__ layout) = Z.of_nat (length layout) /\
  Maze.width (Maze.__init__ layout) = Maze.len_str (nth 0 layout EmptyString).
Proof.
  unfold Maze.__init__, Maze._parse. cbn [Maze.layout].
  match goal with |- context [Maze.parse_rows 0 layout ?m] =>
    destruct (parse_rows_dims layout 0 m) as (-> & -> & ->) end.
  cbn [Maze.layout Maze.height Maze.width].
  split; [reflexivity | split; [reflexivity |]].
  destruct layout; reflexivity.
Qed.

Lemma init_cells (layout : list string) (q : Z * Z) :
  (q ∈ Maze.walls (Maze.__init__ layout) <-> char_at layout q.1 q.2 = Some "#"%char) /\
  (q ∈ Maze.pellets (Maze.__init__ layout) <-> char_at layout q.1 q.2 = Some "."%char) /\
  (q ∈ Maze.power_pellets (Maze.__init__ layout) <-> char_at layout q.1 q.2 = Some "o"%char) /\
  (q ∈ Maze.ghost_starts (Maze.__init__ layout) <->
     char_at layout q.1 q.2 = Some "C"%char \/ char_at layout q.1 q.2 = Some "R"%char).
Proof.
  unfold Maze.__init__, Maze._parse, char_at. cbn [Maze.layout].
  split; [| split; [| split]].
  - rewrite (parse_rows_mem (fun m q => q ∈ Maze.walls m) (fun ch => ch = "#"%char)
               parse_char_walls).
    cbn [Maze.walls]. rewrite elem_of_empty.
    split; [intros [[] | (ch & H & ->)]; exact H | intros H; right; eauto].
  - rewrite (parse_rows_mem (fun m q => q ∈ Maze.pellets m) (fun ch => ch = "."%char)
               parse_char_pellets).
    cbn [Maze.pellets]. rewrite elem_of_empty.
    split; [intros [[] | (ch & H & ->)]; exact H | intros H; right; eauto].
  - rewrite (parse_rows_mem (fun m q => q ∈ Maze.power_pellets m) (fun ch => ch = "o"%char)
               parse_char_power_pellets).
    cbn [Maze.power_pellets]. rewrite elem_of_empty.
    split; [intros [[] | (ch & H & ->)]; exact H | intros H; right; eauto].
  - rewrite (parse_rows_mem (fun m q => q ∈ Maze.ghost_starts m)
               (fun ch => ch = "C"%char \/ ch = "R"%char) parse_char_ghost_starts).
    cbn [Maze.ghost_starts]. rewrite elem_of_nil.
    split.
    + intros [[] | (ch & H & [-> | ->])]; [left | right]; exact H.
    + intros [H | H]; right; eauto.
Qed.

(** X1.  After construction a cell is a wall, a pellet or a power
    pellet exactly when the layout has ['#'], ['.'] or ['o'] there, and it is
    a ghost start exactly when the layout has ['C'] or ['R'] there. *)
Theorem parse_records_each_cell (layout : list string) (x y : Z) :
  ((x, y) ∈ Maze.walls (Maze.__init__ layout) <-> char_at layout x y = Some "#"%char) /\
  ((x, y) ∈ Maze.pellets (Maze.__init__ layout) <-> char_at layout x y = Some "."%char) /\
  ((x, y) ∈ Maze.power_pellets (Maze.__init__ layout) <-> char_at layout x y = Some "o"%char) /\
  ((x, y) ∈ Maze.ghost_starts (Maze.__init__ layout) <->
     char_at layout x y = Some "C"%char \/ char_at layout x y = Some "R"%char).
Proof. exact (init_cells layout (x, y)). Qed.

(** X2.  The walls, the pellets and the power pellets of a
    constructed maze are pairwise disjoint, and no ghost start is in any of
    the three. *)
Theorem parsed_sets_disjoint (layout : list string) :
  let m := Maze.__init__ layout in
  Maze.walls m ## Maze.pellets m /\
  Maze.walls m ## Maze.power_pellets m /\
  Maze.pellets m ## Maze.power_pellets m /\
  (forall q, q ∈ Maze.ghost_starts m ->
     (q ∉ Maze.walls m) /\ (q ∉ Maze.pellets m) /\ (q ∉ Maze.power_pellets m)).
Proof.
  cbn zeta.
  split; [| split; [| split]].
  - intros q Hw Hp. apply (init_cells layout q) in Hw, Hp. congruence.
  - intros q Hw Hp. apply (init_cells layout q) in Hw, Hp. congruence.
  - intros q Hw Hp. apply (init_cells layout q) in Hw, Hp. congruence.
  - intros q Hg. apply (init_cells layout q) in Hg.
    split; [| split]; intros H; apply (init_cells layout q) in H;
      destruct Hg; congruence.
Qed.

(** X3.  In a maze constructed from a layout whose rows all have the
    length of the first one, every wall, pellet, power pellet and ghost
    start is in bounds. *)
Theorem parsed_cells_in_bounds (layout : list string) (q : Z * Z) :
  rectangular layout ->
  let m := Maze.__init__ layout in
  q ∈ Maze.walls m \/ q ∈ Maze.pellets m \/ q ∈ Maze.power_pellets m \/
    q ∈ Maze.ghost_starts m ->
  Maze.in_bounds m q.1 q.2 = true.
Proof.
  intros Hrect m Hq.
  assert (Hch : exists ch, char_at layout q.1 q.2 = Some ch).
  { destruct (init_cells layout q) as (H1 & H2 & H3 & H4). subst m.
    destruct Hq as [H | [H | [H | H]]].
    - apply H1 in H. eauto.
    - apply H2 in H. eauto.
    - apply H3 in H. eauto.
    - apply H4 in H. destruct H; eauto. }
  destruct Hch as [ch Hch]. apply char_from_row in Hch.
  destruct Hch as (Hx & Hy & row & Hrow & Hlt).
  destruct (init_dims layout) as (_ & Hh & Hw). fold m in Hh, Hw.
  unfold Maze.in_bounds. rewrite Hh, Hw.
  unfold rectangular in Hrect. rewrite Forall_forall in Hrect.
  rewrite <- (Hrect row) by (apply list_elem_of_lookup; eauto).
  repeat (apply andb_true_intro; split); try apply Z.leb_le; try apply Z.ltb_lt; lia.
Qed.

Lemma parsed_cells_in_bounds_witness :
  Maze.in_bounds (Maze.__init__ ["###"; "#.#"; "###"]%string) 1 1 = true.
Proof.
  apply (parsed_cells_in_bounds ["###"; "#.#"; "###"]%string (1, 1)).
  - repeat constructor.
  - right. left. vm_compute. reflexivity.
Defined.

(** *** The two single markers: the last one read wins *)

Section Marker.

(** [get]: one of the fields [player_start] and [house_pos]; [c]: the
    character that sets it. *)
Variable get : Maze.t -> Z * Z.
Variable c : ascii.
Hypothesis parse_char_get : forall y x ch m,
  get (Maze.parse_char y x ch m) = if Ascii.eqb ch c then (x, y) else get m.

Lemma parse_row_last (y : Z) (row : string) (x0 : Z) (m : Maze.t) :
  let m' := Maze.parse_row y x0 row m in
  (row_has c row = false /\ get m' = get m) \/
  ((get m').2 = y /\ x0 <= (get m').1 /\
   String.get (Z.to_nat ((get m').1 - x0)) row = Some c /\
   forall x, x0 <= x -> String.get (Z.to_nat (x - x0)) row = Some c -> x <= (get m').1).
Proof.
  revert x0 m. induction row as [|ch row IH]; intros x0 m; cbn [Maze.parse_row row_has].
  - left. split; reflexivity.
  - cbn zeta. destruct (IH (x0 + 1) (Maze.parse_char y x0 ch m)) as [[Hno Hget] | (Hy & Hx & Hg & Hlast)].
    + rewrite Hget, parse_char_get, Hno, orb_false_r.
      destruct (Ascii.eqb_spec ch c) as [-> | Hne]; [right | left; split; reflexivity].
      cbn [fst snd]. rewrite Z.sub_diag.
      split; [reflexivity | split; [lia | split; [reflexivity |]]].
      intros x Hx Hgx. rewrite get_cons_Z in Hgx by lia.
      destruct (Z.eqb_spec (x - x0) 0) as [E | E]; [lia |].
      exfalso. apply not_true_iff_false in Hno. apply Hno. apply row_has_get. eauto.
    + right. split; [exact Hy | split; [lia |]].
      split.
      * rewrite get_cons_Z by lia.
        destruct (Z.eqb_spec ((get (Maze.parse_row y (x0 + 1) row (Maze.parse_char y x0 ch m))).1 - x0) 0);
          [lia |].
        rewrite <- Hg. f_equal. lia.
      * intros x Hx0 Hgx. rewrite get_cons_Z in Hgx by lia.
        destruct (Z.eqb_spec (x - x0) 0) as [E | E]; [lia |].
        apply Hlast; [lia |]. rewrite <- Hgx. f_equal. lia.
Qed.

Lemma parse_rows_last (rows : list string) (y0 : Z) (m : Maze.t) :
  let m' := Maze.parse_rows y0 rows m in
  (existsb (row_has c) rows = false /\ get m' = get m) \/
  (char_from y0 rows (get m').1 (get m').2 = Some c /\
   forall x y, char_from y0 rows x y = Some c ->
               (x, y) = get m' \/ reads_before (x, y) (get m')).
Proof.
  revert y0 m. induction rows as [|row rows IH]; intros y0 m; cbn [Maze.parse_rows existsb].
  - left. split; reflexivity.
  - cbn zeta.
    destruct (IH (y0 + 1) (Maze.parse_row y0 0 row m)) as [[Hno Hget] | [Hc Hlast]].
    + rewrite Hget, Hno, orb_false_r.
      destruct (parse_row_last y0 row 0 m) as [[Hno' Hget'] | (Hy & Hx & Hg & Hlast)].
      * left. split; assumption.
      * right. rewrite Z.sub_0_r in Hg. split.
        -- rewrite char_from_cons, Hy, Z.eqb_refl.
           destruct (Z.leb_spec 0 (get (Maze.parse_row y0 0 row m)).1); [exact Hg | lia].
        -- intros x y Hxy. rewrite char_from_cons in Hxy.
           destruct (Z.leb_spec 0 x) as [Hx0 | Hx0]; cbn [andb] in Hxy.
           ++ destruct (Z.eqb_spec y y0) as [Hyy | Hne].
              ** subst y. specialize (Hlast x Hx0). rewrite Z.sub_0_r in Hlast. specialize (Hlast Hxy).
                 destruct (get (Maze.parse_row y0 0 row m)) as [gx gy]. cbn [fst snd] in *.
                 subst gy. destruct (Z.eq_dec x gx) as [-> | Hd]; [left; reflexivity |].
                 right. right. cbn [fst snd]. lia.
              ** exfalso. apply not_true_iff_false in Hno. apply Hno.
                 apply (existsb_row_has c (y0 + 1)). eauto.
           ++ exfalso. apply not_true_iff_false in Hno. apply Hno.
              apply (existsb_row_has c (y0 + 1)). eauto.
    + right. apply char_from_row in Hc as Hrange. destruct Hrange as (Hx & Hy & _).
      split.
      * rewrite char_from_cons.
        destruct (Z.eqb_spec (get (Maze.parse_rows (y0 + 1) rows (Maze.parse_row y0 0 row m))).2 y0);
          [lia |].
        rewrite andb_false_r. exact Hc.
      * intros x y Hxy. rewrite char_from_cons in Hxy.
        destruct ((0 <=? x) && (y =? y0)) eqn:E.
        -- apply andb_true_iff in E as [_ E]. apply Z.eqb_eq in E. subst y.
           right. left. cbn [fst snd]. lia.
        -- apply Hlast, Hxy.
Qed.

End Marker.

Lemma parse_char_house y x ch m :
  Maze.house_pos (Maze.parse_char y x ch m) = if Ascii.eqb ch "H" then (x, y) else Maze.house_pos m.
Proof. parse_char_cases ch; reflexivity. Qed.

Lemma parse_char_start y x ch m :
  Maze.player_start (Maze.parse_char y x ch m) =
    if Ascii.eqb ch "P" then (x, y) else Maze.player_start m.
Proof. parse_char_cases ch; reflexivity. Qed.

(** X4.  When the layout has a ['P'], the player start of the
    constructed maze is the cell of a ['P'], and of the last one in reading
    order when there are several. *)
Theorem player_start_is_last_marker (layout : list string) :
  has_player_spawn layout = true ->
  let start := Maze.player_start (Maze.__init__ layout) in
  char_at layout start.1 start.2 = Some "P"%char /\
  forall x y, char_at layout x y = Some "P"%char ->
              (x, y) = start \/ reads_before (x, y) start.
Proof.
  intros Hhas. unfold Maze.__init__, Maze._parse, char_at. cbn [Maze.layout].
  match goal with |- context [Maze.parse_rows 0 layout ?m] =>
    destruct (parse_rows_last Maze.player_start "P" parse_char_start layout 0 m)
      as [[Hno _] | H] end.
  - unfold has_player_spawn in Hhas. congruence.
  - exact H.
Qed.

Lemma player_start_is_last_marker_witness :
  Maze.player_start (Maze.__init__ ["P.P"; "#P."]%string) = (1, 1) /\
  reads_before (2, 0) (Maze.player_start (Maze.__init__ ["P.P"; "#P."]%string)).
Proof.
  pose proof (player_start_is_last_marker ["P.P"; "#P."]%string ltac:(vm_compute; reflexivity))
    as [_ H].
  split; [vm_compute; reflexivity |].
  destruct (H 2 0 ltac:(vm_compute; reflexivity)) as [E | E]; [| exact E].
  vm_compute in E. discriminate.
Defined.

(** X5.  Without an ['H'] in the layout the house of the constructed
    maze is the cell [(width // 2, height // 2)], whatever that cell holds;
    with one it is the cell of the last ['H'] in reading order. *)
Theorem house_is_last_marker_or_centre (layout : list string) :
  let m := Maze.__init__ layout in
  (has_house layout = false ->
     Maze.house_pos m = (Maze.width m / 2, Maze.height m / 2)) /\
  (has_house layout = true ->
     char_at layout (Maze.house_pos m).1 (Maze.house_pos m).2 = Some "H"%char /\
     forall x y, char_at layout x y = Some "H"%char ->
                 (x, y) = Maze.house_pos m \/ reads_before (x, y) (Maze.house_pos m)).
Proof.
  cbn zeta. destruct (init_dims layout) as (_ & Hh & Hw). rewrite Hh, Hw.
  unfold Maze.__init__, Maze._parse, char_at, has_house. cbn [Maze.layout].
  match goal with |- context [Maze.parse_rows 0 layout ?m] =>
    destruct (parse_rows_last Maze.house_pos "H" parse_char_house layout 0 m)
      as [[Hno Hget] | H] end.
  - split; [| congruence]. intros _. rewrite Hget. cbn [Maze.house_pos].
    destruct layout; reflexivity.
  - split; [| intros _; exact H].
    intros Hno. exfalso. apply not_true_iff_false in Hno. apply Hno.
    apply (existsb_row_has "H" 0). destruct H as [H _]. eauto.
Qed.

Lemma house_is_last_marker_or_centre_witness :
  Maze.house_pos (Maze.__init__ ["#####"; "#...#"; "#####"]%string) = (2, 1) /\
  Maze.house_pos (Maze.__init__ ["#H.H#"]%string) = (3, 0).
Proof.
  split.
  - apply (house_is_last_marker_or_centre ["#####"; "#...#"; "#####"]%string).
    vm_compute. reflexivity.
  - pose proof (house_is_last_marker_or_centre ["#H.H#"]%string) as [_ H].
    specialize (H ltac:(vm_compute; reflexivity)). destruct H as [_ H].
    destruct (H 3 0 ltac:(vm_compute; reflexivity)) as [E | E]; [symmetry; exact E |].
    assert (Hv : Maze.house_pos (Maze.__init__ ["#H.H#"]%string) = (3, 0))
      by (vm_compute; reflexivity).
    rewrite Hv in E. unfold reads_before in E. cbn [fst snd] in E. lia.
Defined.

(** *** The ghost starts come in reading order *)

Lemma reading_order_snoc (l : list (Z * Z)) (a : Z * Z) :
  in_reading_order l -> Forall (fun q => reads_before q a) l -> in_reading_order (l ++ [a]).
Proof.
  intros Hl Hall i j p q Hi Hj Hij.
  apply lookup_lt_Some in Hj as Hlen. rewrite length_app in Hlen. cbn in Hlen.
  rewrite lookup_app_l in Hi by lia.
  destruct (decide (j < length l)%nat) as [Hlt | Hge].
  - rewrite lookup_app_l in Hj by lia. exact (Hl i j p q Hi Hj Hij).
  - rewrite lookup_app_r in Hj by lia.
    replace (j - length l)%nat with 0%nat in Hj by lia. injection Hj as <-.
    rewrite Forall_forall in Hall. apply Hall, list_elem_of_lookup. eauto.
Qed.

Lemma starts_ok_weaken (m : Maze.t) (a b : Z * Z) :
  a = b \/ reads_before a b -> starts_ok m a -> starts_ok m b.
Proof.
  intros Hab [Hs Hall]. split; [exact Hs |].
  eapply Forall_impl; [exact Hall |]. intros q Hq. cbn beta in *.
  unfold reads_before in *. destruct Hab as [<- | Hab]; [exact Hq | lia].
Qed.

Lemma parse_char_starts_ok y x ch m :
  starts_ok m (x, y) -> starts_ok (Maze.parse_char y x ch m) (x + 1, y).
Proof.
  intros H.
  assert (Hnext : starts_ok m (x + 1, y)).
  { revert H. apply starts_ok_weaken. right. unfold reads_before. cbn [fst snd]. lia. }
  assert (Hadd : starts_ok
            (Maze.mk (Maze.layout m) (Maze.height m) (Maze.width m) (Maze.walls m)
               (Maze.pellets m) (Maze.power_pellets m) (Maze.player_start m)
               (Maze.ghost_starts m ++ [(x, y)]) (Maze.house_pos m)) (x + 1, y)).
  { destruct H as [Hs Hall]. split; cbn [Maze.ghost_starts].
    - apply reading_order_snoc; assumption.
    - apply Forall_app. split; [apply Hnext |].
      constructor; [| constructor]. unfold reads_before. cbn [fst snd]. lia. }
  parse_char_cases ch; try exact Hnext; exact Hadd.
Qed.

Lemma parse_row_starts_ok y row x0 m :
  starts_ok m (x0, y) -> starts_ok (Maze.parse_row y x0 row m) (0, y + 1).
Proof.
  revert x0 m. induction row as [|c row IH]; intros x0 m H; cbn [Maze.parse_row].
  - revert H. apply starts_ok_weaken. right. unfold reads_before. cbn [fst snd]. lia.
  - apply (IH (x0 + 1)), parse_char_starts_ok, H.
Qed.

Lemma parse_rows_starts_ok rows y0 m :
  starts_ok m (0, y0) -> in_reading_order (Maze.ghost_starts (Maze.parse_rows y0 rows m)).
Proof.
  revert y0 m. induction rows as [|row rows IH]; intros y0 m H; cbn [Maze.parse_rows].
  - apply H.
  - apply (IH (y0 + 1)), parse_row_starts_ok, H.
Qed.

(** X6.  The ghost starts of a constructed maze are listed in the
    order in which [_parse] reads the layout: row by row, each row from the
    left; in particular no cell is listed twice. *)
Theorem ghost_starts_in_reading_order (layout : list string) :
  in_reading_order (Maze.ghost_starts (Maze.__init__ layout)) /\
  NoDup (Maze.ghost_starts (Maze.__init__ layout)).
Proof.
  assert (H : in_reading_order (Maze.ghost_starts (Maze.__init__ layout))).
  { unfold Maze.__init__, Maze._parse. cbn [Maze.layout].
    apply parse_rows_starts_ok. split; cbn [Maze.ghost_starts]; [| constructor].
    intros i j a b Hi. rewrite lookup_nil in Hi. discriminate. }
  split; [exact H |].
  apply NoDup_alt. intros i j q Hi Hj.
  destruct (Nat.lt_trichotomy i j) as [Hlt | [Heq | Hgt]]; [| exact Heq |].
  - pose proof (H i j q q Hi Hj Hlt) as Hb. unfold reads_before in Hb. lia.
  - pose proof (H j i q q Hj Hi Hgt) as Hb. unfold reads_before in Hb. lia.
Qed.

(** ** The turning rule of the player *)

Lemma can_move_legal (m : Maze.t) (p : Player.t) (d : Z * Z) :
  Player.can_move m p d = legal_step m (tile_of (Player.pos p)) d.
Proof. unfold Player.can_move, legal_step. destruct (tile_of _). reflexivity. Qed.

Lemma clamp_keeps (m : Maze.t) (p : Player.t) :
  Player.dir (Player._clamp_inside_walls m p) = Player.dir p /\
  Player.next_dir (Player._clamp_inside_walls m p) = Player.next_dir p /\
  Player.lives (Player._clamp_inside_walls m p) = Player.lives p /\
  Player.score (Player._clamp_inside_walls m p) = Player.score p /\
  Player.speed (Player._clamp_inside_walls m p) = Player.speed p.
Proof.
  unfold Player._clamp_inside_walls.
  destruct (negb _); [auto |]. destruct (tile_of _). destruct (bool_decide _); auto.
Qed.

Lemma player_turn_facts (m : Maze.t) (p : Player.t) :
  Player.dir (Player.update m p) =
    (if Player._is_centered_on_tile p then
       if Player.can_move m p (Player.next_dir p) then Player.next_dir p
       else if Player.can_move m p (Player.dir p) then Player.dir p
       else STOP
     else Player.dir p) /\
  Player.next_dir (Player.update m p) = Player.next_dir p /\
  Player.lives (Player.update m p) = Player.lives p /\
  Player.score (Player.update m p) = Player.score p /\
  Player.speed (Player.update m p) = Player.speed p.
Proof.
  unfold Player.update.
  destruct (clamp_keeps m (Player.move (Player.stop_if_blocked m (Player.turn m p))))
    as (-> & -> & -> & -> & ->).
  cbn [Player.move Player.dir Player.next_dir Player.lives Player.score Player.speed
       Player.set_pos].
  unfold Player.stop_if_blocked, Player.turn.
  destruct (Player._is_centered_on_tile p) eqn:Hc.
  - destruct (bool_decide (Player.next_dir p <> Player.dir p)) eqn:Hne.
    + destruct (Player.can_move m p (Player.next_dir p)) eqn:Hn.
      * change (Player.can_move m (Player.set_dir p (Player.next_dir p))
                  (Player.dir (Player.set_dir p (Player.next_dir p))))
          with (Player.can_move m p (Player.next_dir p)).
        rewrite Hn. cbn [negb]. auto.
      * destruct (Player.can_move m p (Player.dir p)) eqn:Hd; cbn [negb]; [auto |].
        rewrite Hc. auto.
    + apply bool_decide_eq_false in Hne. apply dec_stable in Hne. rewrite Hne.
      destruct (Player.can_move m p (Player.dir p)) eqn:Hd; cbn [negb]; [auto |].
      rewrite Hc. auto.
  - destruct (bool_decide (Player.next_dir p <> Player.dir p));
      destruct (negb (Player.can_move m p (Player.dir p))); rewrite ?Hc; auto.
Qed.

(** X7.  [update] changes the heading of the player on tile centres
    only.  There the buffered direction is taken if the tile that way is in
    bounds and not a wall; otherwise the present heading is kept if its tile
    is; otherwise the player stops.  Lives, score, speed and the buffered
    direction are left alone. *)
Theorem player_turn_rule (m : Maze.t) (p : Player.t) :
  Player.dir (Player.update m p) =
    (if Player._is_centered_on_tile p then
       if Player.can_move m p (Player.next_dir p) then Player.next_dir p
       else if Player.can_move m p (Player.dir p) then Player.dir p
       else STOP
     else Player.dir p) /\
  Player.next_dir (Player.update m p) = Player.next_dir p /\
  Player.lives (Player.update m p) = Player.lives p /\
  Player.score (Player.update m p) = Player.score p /\
  Player.speed (Player.update m p) = Player.speed p.
Proof. apply player_turn_facts. Qed.

(** ** What [eat_pellets] takes *)

Lemma size_remove (X : gset (Z * Z)) (t : Z * Z) :
  Z.of_nat (size (X ∖ {[t]})) = Z.of_nat (size X) - (if bool_decide (t ∈ X) then 1 else 0).
Proof.
  case_bool_decide as Ht.
  - rewrite size_difference by (apply singleton_subseteq_l; exact Ht).
    rewrite size_singleton.
    assert (size X <> 0%nat); [| lia].
    intros E. apply size_empty_inv in E. apply (not_elem_of_empty (C := gset (Z * Z)) t).
    rewrite <- (leibniz_equiv _ _ E). exact Ht.
  - rewrite difference_disjoint_L by (apply disjoint_singleton_r; exact Ht). lia.
Qed.

(** X8.  [eat_pellets] removes from the two pellet sets the tile the
    player's position rounds to and nothing else, reports 1 for each set
    that held it and adds 10 and 50 to the score accordingly; the walls, the
    dimensions and the position of the player do not change. *)
Theorem eat_pellets_accounting (m : Maze.t) (p : Player.t) :
  let t := tile_of (Player.pos p) in
  let pel := (Player.eat_pellets m p).1.1.1 in
  let power := (Player.eat_pellets m p).1.1.2 in
  let p' := (Player.eat_pellets m p).1.2 in
  let m' := (Player.eat_pellets m p).2 in
  pel = (if bool_decide (t ∈ Maze.pellets m) then 1 else 0) /\
  power = (if bool_decide (t ∈ Maze.power_pellets m) then 1 else 0) /\
  Player.score p' = Player.score p + 10 * pel + 50 * power /\
  Maze.pellets m' = Maze.pellets m ∖ {[t]} /\
  Maze.power_pellets m' = Maze.power_pellets m ∖ {[t]} /\
  Z.of_nat (size (Maze.pellets m')) = Z.of_nat (size (Maze.pellets m)) - pel /\
  Z.of_nat (size (Maze.power_pellets m')) = Z.of_nat (size (Maze.power_pellets m)) - power /\
  Maze.walls m' = Maze.walls m /\ Maze.width m' = Maze.width m /\
  Maze.height m' = Maze.height m /\
  Player.pos p' = Player.pos p /\ Player.lives p' = Player.lives p.
Proof.
  cbn zeta. unfold Player.eat_pellets.
  pose proof (size_remove (Maze.pellets m) (tile_of (Player.pos p))) as S1.
  pose proof (size_remove (Maze.power_pellets m) (tile_of (Player.pos p))) as S2.
  destruct (tile_of (Player.pos p)) as [gx gy].
  destruct (bool_decide ((gx, gy) ∈ Maze.pellets m)) eqn:H1;
    cbn [Maze.power_pellets Maze.pellets];
    destruct (bool_decide ((gx, gy) ∈ Maze.power_pellets m)) eqn:H2;
    cbn [fst snd Maze.power_pellets Maze.pellets Maze.walls Maze.width Maze.height
         Player.score Player.set_score Player.pos Player.lives];
    try (apply bool_decide_eq_false in H1); try (apply bool_decide_eq_false in H2);
    rewrite ?(difference_disjoint_L (Maze.pellets m) {[(gx, gy)]})
      by (apply disjoint_singleton_r; assumption);
    rewrite ?(difference_disjoint_L (Maze.power_pellets m) {[(gx, gy)]})
      by (apply disjoint_singleton_r; assumption);
    repeat split; try reflexivity; try lia.
Qed.

(** ** The neighbours a ghost may turn to *)

Lemma fold_left_filter {A} (skip keep : A -> bool) (l acc : list A) :
  fold_left (fun choices d =>
               if skip d then choices
               else if keep d then choices ++ [d] else choices) l acc
  = acc ++ List.filter (fun d => negb (skip d) && keep d) l.
Proof.
  revert acc. induction l as [|d l IH]; intros acc; cbn [fold_left List.filter].
  - rewrite app_nil_r. reflexivity.
  - rewrite IH. destruct (skip d); cbn [negb andb]; [reflexivity |].
    destruct (keep d); [| reflexivity]. rewrite <- app_assoc. reflexivity.
Qed.

Lemma valid_neighbors_filter (m : Maze.t) (g : Ghost.t) (b : bool) :
  Ghost._valid_neighbors m g b =
    List.filter (fun d => negb (b && bool_decide (d = opposite (Ghost.dir g))) &&
                          legal_step m (tile_of (Ghost.pos g)) d) ALL_DIRS.
Proof.
  unfold Ghost._valid_neighbors. destruct (tile_of (Ghost.pos g)) as [gx gy] eqn:Ht.
  rewrite (fold_left_filter
             (fun d => b && ((d.1 =? - (Ghost.dir g).1) && (d.2 =? - (Ghost.dir g).2)))
             (fun d => legal_step m (gx, gy) d)).
  cbn [app]. apply filter_ext. intros d.
  replace (bool_decide (d = opposite (Ghost.dir g)))
    with ((d.1 =? - (Ghost.dir g).1) && (d.2 =? - (Ghost.dir g).2)); [reflexivity |].
  unfold opposite. destruct d as [d1 d2]. cbn [fst snd].
  destruct (Z.eqb_spec d1 (- (Ghost.dir g).1)) as [E1 | E1];
    destruct (Z.eqb_spec d2 (- (Ghost.dir g).2)) as [E2 | E2]; cbn [andb];
    symmetry; [apply bool_decide_eq_true; congruence | | |];
    apply bool_decide_eq_false; congruence.
Qed.

Lemma valid_neighbors_elem (m : Maze.t) (g : Ghost.t) (b : bool) (d : Z * Z) :
  d ∈ Ghost._valid_neighbors m g b <->
  d ∈ ALL_DIRS /\ legal_step m (tile_of (Ghost.pos g)) d = true /\
  (b = true -> d <> opposite (Ghost.dir g)).
Proof.
  rewrite valid_neighbors_filter, list_elem_of_In, filter_In, <- list_elem_of_In.
  rewrite andb_true_iff, negb_true_iff, andb_false_iff, bool_decide_eq_false.
  destruct b; intuition congruence.
Qed.

(** X9.  [_valid_neighbors] returns exactly the directions of
    [ALL_DIRS] whose tile, seen from the tile the ghost's position rounds
    to, is in bounds and not a wall, less the reverse of the heading when
    [avoid_reverse] is set. *)
Theorem valid_neighbors_spec (m : Maze.t) (g : Ghost.t) (avoid_reverse : bool) (d : Z * Z) :
  d ∈ Ghost._valid_neighbors m g avoid_reverse <->
  d ∈ ALL_DIRS /\ legal_step m (tile_of (Ghost.pos g)) d = true /\
  (avoid_reverse = true -> d <> opposite (Ghost.dir g)).
Proof. apply valid_neighbors_elem. Qed.

(** X10.  [is_intersection] holds for a tile exactly when at least
    three of its four neighbours are in bounds and not walls: the
    directions [_valid_neighbors] offers, without the reverse rule, to a
    ghost on that tile. *)
Theorem is_intersection_counts_neighbors (m : Maze.t) (g : Ghost.t) :
  Maze.is_intersection m (tile_of (Ghost.pos g)).1 (tile_of (Ghost.pos g)).2 =
    (3 <=? Z.of_nat (length (Ghost._valid_neighbors m g false))).
Proof.
  rewrite valid_neighbors_filter. unfold Maze.is_intersection, legal_step.
  destruct (tile_of (Ghost.pos g)) as [gx gy]. cbn [fst snd andb negb ALL_DIRS fold_left List.filter UP DOWN LEFT RIGHT].
  destruct (Maze.in_bounds m (gx + 0) (gy + -1) && Maze.passable m (gx + 0) (gy + -1));
    destruct (Maze.in_bounds m (gx + 0) (gy + 1) && Maze.passable m (gx + 0) (gy + 1));
    destruct (Maze.in_bounds m (gx + -1) (gy + 0) && Maze.passable m (gx + -1) (gy + 0));
    destruct (Maze.in_bounds m (gx + 1) (gy + 0) && Maze.passable m (gx + 1) (gy + 0));
    reflexivity.
Qed.

(** ** The decision of a ghost on a tile centre *)

Lemma candidates_elem (m : Maze.t) (g : Ghost.t) (d : Z * Z) :
  d ∈ Ghost.candidates m g ->
  d ∈ ALL_DIRS /\ legal_step m (tile_of (Ghost.pos g)) d = true /\
  (d = opposite (Ghost.dir g) -> Ghost._valid_neighbors m g true = []).
Proof.
  unfold Ghost.candidates.
  destruct (Ghost._valid_neighbors m g true) as [|c l] eqn:E.
  - intros H. apply valid_neighbors_elem in H as (H1 & H2 & _). auto.
  - rewrite <- E. intros H. apply valid_neighbors_elem in H as (H1 & H2 & H3).
    split; [exact H1 | split; [exact H2 |]]. intros Hr. exfalso. apply H3; auto.
Qed.

Lemma candidates_nil (m : Maze.t) (g : Ghost.t) :
  Ghost.candidates m g = [] <->
  forall d, d ∈ ALL_DIRS -> legal_step m (tile_of (Ghost.pos g)) d = false.
Proof.
  unfold Ghost.candidates. split.
  - intros H d Hd. apply not_true_iff_false. intros Hl.
    assert (Hin : d ∈ Ghost._valid_neighbors m g false).
    { apply valid_neighbors_elem. split; [exact Hd | split; [exact Hl | discriminate]]. }
    destruct (Ghost._valid_neighbors m g true); [| discriminate].
    rewrite H in Hin. inversion Hin.
  - intros H.
    assert (Hnone : forall b, Ghost._valid_neighbors m g b = []).
    { intros b. destruct (Ghost._valid_neighbors m g b) as [|c l] eqn:E; [reflexivity |].
      assert (Hc : c ∈ Ghost._valid_neighbors m g b) by (rewrite E; left).
      apply valid_neighbors_elem in Hc as (H1 & H2 & _). rewrite (H c H1) in H2. discriminate. }
    rewrite (Hnone true). apply Hnone.
Qed.

Lemma first_min_elem (dist : Z * Z -> Z) (l : list (Z * Z)) (d : Z * Z) :
  first_min dist l d -> d ∈ l.
Proof.
  intros (l1 & l2 & -> & _). apply elem_of_app. right. left.
Qed.

Lemma choose_dir_nil (g : Ghost.t) (target : Z * Z) (r : Py.rng) :
  Ghost._choose_dir g [] target r = (Ghost.dir g, r).
Proof. unfold Ghost._choose_dir. destruct (Ghost.class g); reflexivity. Qed.

Lemma choose_dir_in (g : Ghost.t) (choices : list (Z * Z)) (target : Z * Z) (r : Py.rng) :
  choices <> [] -> (Ghost._choose_dir g choices target r).1 ∈ choices.
Proof.
  intros Hne. unfold Ghost._choose_dir.
  destruct choices as [|c0 rest]; [congruence |].
  destruct (Ghost.class g).
  - destruct (tile_of (Ghost.pos g)) as [gx gy]. unfold Py.ret. cbn [fst].
    eapply first_min_elem. apply greedy_loop_first_min.
  - apply choice_in. exact Hne.
Qed.

Lemma decide_eq (m : Maze.t) (pt : Z * Z) (g : Ghost.t) (r : Py.rng) :
  Ghost.decide m pt g r =
    if Ghost._at_center g then
      (Ghost.set_dir g
         (Ghost._choose_dir g (Ghost.candidates m g) (Ghost._target_tile m g pt) r).1,
       (Ghost._choose_dir g (Ghost.candidates m g) (Ghost._target_tile m g pt) r).2)
    else (g, r).
Proof.
  unfold Ghost.decide. destruct (Ghost._at_center g); [| reflexivity].
  unfold Py.bind, Py.ret.
  destruct (Ghost._choose_dir g (Ghost.candidates m g) (Ghost._target_tile m g pt) r).
  reflexivity.
Qed.

Lemma decide_dir (m : Maze.t) (pt : Z * Z) (g : Ghost.t) (r : Py.rng) :
  Ghost.dir (Ghost.decide m pt g r).1 = Ghost.dir g \/
  (Ghost._at_center g = true /\ Ghost.dir (Ghost.decide m pt g r).1 ∈ Ghost.candidates m g).
Proof.
  rewrite decide_eq. destruct (Ghost._at_center g); [| left; reflexivity].
  cbn [fst Ghost.dir Ghost.set_dir].
  destruct (Ghost.candidates m g) as [|c l] eqn:E.
  - left. rewrite choose_dir_nil. reflexivity.
  - right. split; [reflexivity |]. apply choose_dir_in. discriminate.
Qed.

Lemma decide_keeps (m : Maze.t) (pt : Z * Z) (g : Ghost.t) (r : Py.rng) :
  Ghost.pos (Ghost.decide m pt g r).1 = Ghost.pos g /\
  Ghost.state (Ghost.decide m pt g r).1 = Ghost.state g /\
  same_ghost g (Ghost.decide m pt g r).1.
Proof.
  rewrite decide_eq. unfold same_ghost.
  destruct (Ghost._at_center g); cbn [fst]; repeat split; reflexivity.
Qed.

(** X11.  A ghost on a tile centre that has a neighbouring tile in
    bounds and not a wall turns to such a tile, whatever its class, and it
    takes the reverse of its heading only if that is the only such tile;
    without any such tile it keeps its heading. *)
Theorem ghost_turn_is_legal (m : Maze.t) (player_tile : Z * Z) (g : Ghost.t) (r : Py.rng) :
  Ghost._at_center g = true ->
  let t := tile_of (Ghost.pos g) in
  let d := Ghost.dir (Ghost.decide m player_tile g r).1 in
  ((forall d0, d0 ∈ ALL_DIRS -> legal_step m t d0 = false) -> d = Ghost.dir g) /\
  (forall d0, d0 ∈ ALL_DIRS -> legal_step m t d0 = true ->
     d ∈ ALL_DIRS /\ legal_step m t d = true /\
     (d = opposite (Ghost.dir g) ->
      forall d1, d1 ∈ ALL_DIRS -> legal_step m t d1 = true -> d1 = d)).
Proof.
  intros Hc. cbn zeta. rewrite decide_eq, Hc. cbn [fst Ghost.dir Ghost.set_dir].
  split.
  - intros Hnone. apply candidates_nil in Hnone. rewrite Hnone, choose_dir_nil. reflexivity.
  - intros d0 Hd0 Hl0.
    assert (Hne : Ghost.candidates m g <> []).
    { intros E. rewrite candidates_nil in E. rewrite (E d0 Hd0) in Hl0. discriminate. }
    pose proof (choose_dir_in g _ (Ghost._target_tile m g player_tile) r Hne) as Hin.
    apply candidates_elem in Hin as (H1 & H2 & H3).
    split; [exact H1 | split; [exact H2 |]].
    intros Hrev d1 Hd1 Hl1. specialize (H3 Hrev). rewrite Hrev.
    destruct (decide (d1 = opposite (Ghost.dir g))) as [E | E]; [exact E | exfalso].
    assert (Hin1 : d1 ∈ Ghost._valid_neighbors m g true).
    { apply valid_neighbors_elem. auto. }
    rewrite H3 in Hin1. inversion Hin1.
Qed.

Lemma ghost_turn_is_legal_witness :
  legal_step Game._build_maze (tile_of (Ghost.pos pursuer_at_5_5))
    (Ghost.dir (Ghost.decide Game._build_maze (1, 1) pursuer_at_5_5 []).1) = true.
Proof.
  pose proof (ghost_turn_is_legal Game._build_maze (1, 1) pursuer_at_5_5 []
                ltac:(vm_compute; reflexivity)) as H.
  cbv zeta in H. destruct H as [_ H].
  pose proof (H UP ltac:(left) ltac:(vm_compute; reflexivity)) as (_ & Hl & _).
  exact Hl.
Defined.

(** X12.  A wanderer on a tile centre with candidates takes one of
    them and consumes exactly one draw of the generator, and every candidate
    is taken for some draw. *)
Theorem wanderer_takes_any_candidate (m : Maze.t) (player_tile : Z * Z) (g : Ghost.t) :
  Ghost.class g = RandomGhost ->
  Ghost._at_center g = true ->
  Ghost.candidates m g <> [] ->
  (forall r, Ghost.dir (Ghost.decide m player_tile g r).1 ∈ Ghost.candidates m g /\
             (Ghost.decide m player_tile g r).2 = tl r) /\
  (forall c, c ∈ Ghost.candidates m g ->
             exists r, Ghost.dir (Ghost.decide m player_tile g r).1 = c).
Proof.
  intros Hcl Hc Hne. split.
  - intros r. rewrite decide_eq, Hc. cbn [fst snd Ghost.dir Ghost.set_dir].
    split; [apply choose_dir_in, Hne |].
    unfold Ghost._choose_dir. rewrite Hcl.
    destruct (Ghost.candidates m g); [congruence | reflexivity].
  - intros c Hin. apply list_elem_of_lookup in Hin as [i Hi].
    exists [i]. rewrite decide_eq, Hc. cbn [fst Ghost.dir Ghost.set_dir].
    unfold Ghost._choose_dir. rewrite Hcl.
    destruct (Ghost.candidates m g) as [|c0 l] eqn:E; [congruence |].
    unfold Py.choice, Py.bind, Py.draw, Py.ret. cbn [hd fst].
    apply lookup_lt_Some in Hi as Hlt.
    rewrite Nat.mod_small by exact Hlt.
    apply nth_lookup_Some with (d := STOP) in Hi. exact Hi.
Qed.

Lemma wanderer_takes_any_candidate_witness :
  exists r, Ghost.dir (Ghost.decide Game._build_maze (1, 1)
                         (ghost_at RandomGhost (11, 9) (Py.float_of_int 5, Py.float_of_int 5)
                                   UP GHOST_NORMAL) r).1 = RIGHT.
Proof.
  pose proof (wanderer_takes_any_candidate Game._build_maze (1, 1)
                (ghost_at RandomGhost (11, 9) (Py.float_of_int 5, Py.float_of_int 5)
                          UP GHOST_NORMAL)
                eq_refl ltac:(vm_compute; reflexivity) ltac:(vm_compute; discriminate))
    as [_ H].
  apply H. vm_compute. right. right. left.
Defined.

(** ** One update of a ghost *)

Lemma at_center_pos (g g' : Ghost.t) :
  Ghost.pos g' = Ghost.pos g -> Ghost._at_center g' = Ghost._at_center g.
Proof. unfold Ghost._at_center. intros ->. reflexivity. Qed.

Lemma come_home_facts (m : Maze.t) (g : Ghost.t) (r : Py.rng) :
  Ghost.pos (Ghost.come_home m g r).1 = Ghost.pos g /\
  same_ghost g (Ghost.come_home m g r).1 /\
  Ghost.state (Ghost.come_home m g r).1 =
    (if bool_decide (Ghost.state g = GHOST_EATEN) && Ghost._at_center g &&
        bool_decide (tile_of (Ghost.pos g) = Maze.house_pos m)
     then GHOST_NORMAL else Ghost.state g) /\
  (Ghost.dir (Ghost.come_home m g r).1 = Ghost.dir g \/
   (Ghost.state g = GHOST_EATEN /\ Ghost._at_center g = true /\
    tile_of (Ghost.pos g) = Maze.house_pos m /\
    Ghost.dir (Ghost.come_home m g r).1 ∈ ALL_DIRS)).
Proof.
  unfold Ghost.come_home, same_ghost.
  destruct (bool_decide (Ghost.state g = GHOST_EATEN)) eqn:Hs; cbn [andb];
    [| cbn [fst]; repeat split; auto].
  destruct (Ghost._at_center g) eqn:Hc; cbn [andb]; [| cbn [fst]; repeat split; auto].
  destruct (bool_decide (tile_of (Ghost.pos g) = Maze.house_pos m)) eqn:Hh;
    [| cbn [fst]; repeat split; auto].
  apply bool_decide_eq_true in Hs, Hh.
  destruct (Ghost._valid_neighbors m (Ghost.set_state g GHOST_NORMAL) false) as [|c l] eqn:E.
  - cbn [fst Py.ret]. repeat split; auto.
  - unfold Py.bind, Py.ret.
    pose proof (choice_in STOP (c :: l) r ltac:(discriminate)) as Hin.
    destruct (Py.choice STOP (c :: l) r) as [d r'] eqn:Ed. cbn [fst] in *.
    repeat split; try reflexivity.
    right. split; [exact Hs | split; [reflexivity | split; [exact Hh |]]].
    cbn [Ghost.dir Ghost.set_dir]. rewrite <- E in Hin.
    apply valid_neighbors_elem in Hin. apply Hin.
Qed.

Lemma update_eq (m : Maze.t) (pt : Z * Z) (g : Ghost.t) (r : Py.rng) :
  Ghost.update m pt g r =
    Ghost.come_home m (Ghost.move (Ghost.decide m pt g r).1) (Ghost.decide m pt g r).2.
Proof. unfold Ghost.update, Py.bind. destruct (Ghost.decide m pt g r). reflexivity. Qed.

Lemma same_ghost_trans (a b c : Ghost.t) : same_ghost a b -> same_ghost b c -> same_ghost a c.
Proof. unfold same_ghost. intuition congruence. Qed.

Lemma same_ghost_refl (a : Ghost.t) : same_ghost a a.
Proof. unfold same_ghost. intuition congruence. Qed.

Lemma update_facts (m : Maze.t) (pt : Z * Z) (g : Ghost.t) (r : Py.rng) :
  let g' := (Ghost.update m pt g r).1 in
  same_ghost g g' /\
  Ghost.state g' =
    if bool_decide (Ghost.state g = GHOST_EATEN) && Ghost._at_center g' &&
       bool_decide (tile_of (Ghost.pos g') = Maze.house_pos m)
    then GHOST_NORMAL else Ghost.state g.
Proof.
  cbn zeta. rewrite update_eq.
  destruct (decide_keeps m pt g r) as (Hp & Hs & Hsame).
  set (g1 := (Ghost.decide m pt g r).1) in *.
  destruct (come_home_facts m (Ghost.move g1) (Ghost.decide m pt g r).2)
    as (Hp2 & Hsame2 & Hs2 & _).
  split.
  - eapply same_ghost_trans; [exact Hsame |].
    eapply same_ghost_trans; [| exact Hsame2]. unfold same_ghost. repeat split; reflexivity.
  - rewrite Hs2, Hp2, (at_center_pos _ _ Hp2).
    change (Ghost.state (Ghost.move g1)) with (Ghost.state g1). rewrite Hs. reflexivity.
Qed.

(** X13.  [Ghost.update] changes the state of a ghost in one case only:
    an eaten ghost whose position after the move is within the centring
    tolerance of the house tile becomes normal.  The class, the start, the
    three speeds, the colour and the radius never change. *)
Theorem ghost_update_state (m : Maze.t) (player_tile : Z * Z) (g : Ghost.t) (r : Py.rng) :
  let g' := (Ghost.update m player_tile g r).1 in
  same_ghost g g' /\
  Ghost.state g' =
    if bool_decide (Ghost.state g = GHOST_EATEN) && Ghost._at_center g' &&
       bool_decide (tile_of (Ghost.pos g') = Maze.house_pos m)
    then GHOST_NORMAL else Ghost.state g.
Proof. apply update_facts. Qed.

(** X14.  A ghost that is not on a tile centre moves one step of
    its current speed along its heading, and keeps the heading unless it is
    eaten and the step brings it to the centre of the house tile. *)
Theorem ghost_keeps_straight (m : Maze.t) (player_tile : Z * Z) (g : Ghost.t) (r : Py.rng) :
  Ghost._at_center g = false ->
  let g' := (Ghost.update m player_tile g r).1 in
  Ghost.pos g' =
    (Py.fadd (Ghost.pos g).1 (Py.fmul (Py.float_of_int (Ghost.dir g).1) (Ghost._current_speed g)),
     Py.fadd (Ghost.pos g).2 (Py.fmul (Py.float_of_int (Ghost.dir g).2) (Ghost._current_speed g))) /\
  (Ghost.dir g' = Ghost.dir g \/
   (Ghost.state g = GHOST_EATEN /\ Ghost._at_center g' = true /\
    tile_of (Ghost.pos g') = Maze.house_pos m)).
Proof.
  intros Hc. cbn zeta. rewrite update_eq, decide_eq, Hc. cbn [fst snd].
  destruct (come_home_facts m (Ghost.move g) r) as (Hp & _ & _ & Hd).
  split; [rewrite Hp; reflexivity |].
  destruct Hd as [Hd | (Hs & Hc' & Hh & _)]; [left; exact Hd | right].
  rewrite (at_center_pos _ _ Hp), Hp. auto.
Qed.

Lemma ghost_keeps_straight_witness :
  Ghost.dir
    (Ghost.update Game._build_maze (1, 1)
       (ghost_at ChaserGhost (6, 9) (Py.literal 21 4, Py.float_of_int 5) RIGHT GHOST_NORMAL)
       []).1 = RIGHT.
Proof.
  pose proof (ghost_keeps_straight Game._build_maze (1, 1)
                (ghost_at ChaserGhost (6, 9) (Py.literal 21 4, Py.float_of_int 5) RIGHT
                          GHOST_NORMAL) [] ltac:(vm_compute; reflexivity)) as H.
  cbv zeta in H. destruct H as [_ [H | (H & _)]]; [exact H |].
  vm_compute in H. discriminate.
Defined.

(** A ghost that heads in one of the four directions does so after an
    update. *)
Lemma update_dir (m : Maze.t) (pt : Z * Z) (g : Ghost.t) (r : Py.rng) :
  Ghost.dir g ∈ ALL_DIRS -> Ghost.dir (Ghost.update m pt g r).1 ∈ ALL_DIRS.
Proof.
  intros Hd. rewrite update_eq.
  destruct (come_home_facts m (Ghost.move (Ghost.decide m pt g r).1) (Ghost.decide m pt g r).2)
    as (_ & _ & _ & [H | (_ & _ & _ & H)]); [| exact H].
  rewrite H. change (Ghost.dir (Ghost.move ?x)) with (Ghost.dir x).
  destruct (decide_dir m pt g r) as [E | [_ E]]; [rewrite E; exact Hd |].
  apply candidates_elem in E. apply E.
Qed.

(** ** Loops over the ghosts *)

Lemma for_each_Forall2 {A} (R : A -> A -> Prop) (f : A -> Py.M A) (xs : list A) (r : Py.rng) :
  (forall x r, R x (f x r).1) -> Forall2 R xs (for_each f xs r).1.
Proof.
  intros Hf. revert r. induction xs as [|x xs IH]; intros r; [constructor |].
  rewrite for_each_cons. cbn [fst]. constructor; [apply Hf | apply IH].
Qed.

Lemma for_each_Forall {A} (P Q : A -> Prop) (f : A -> Py.M A) (xs : list A) (r : Py.rng) :
  (forall x r, P x -> Q (f x r).1) -> Forall P xs -> Forall Q (for_each f xs r).1.
Proof.
  intros Hf. revert r. induction xs as [|x xs IH]; intros r Hall; [constructor |].
  apply Forall_cons in Hall as [Hx Hall].
  rewrite for_each_cons. cbn [fst]. constructor; [apply Hf, Hx | apply IH, Hall].
Qed.

Lemma Forall2_same_ghost_refl (gs : list Ghost.t) : Forall2 same_ghost gs gs.
Proof. induction gs; constructor; [apply same_ghost_refl | assumption]. Qed.

Lemma Forall2_same_ghost_trans (l0 l1 l2 : list Ghost.t) :
  Forall2 same_ghost l0 l1 -> Forall2 same_ghost l1 l2 -> Forall2 same_ghost l0 l2.
Proof.
  intros H01. revert l2. induction H01 as [|a b l0 l1 Hab _ IH]; intros l2 H12.
  - inversion H12. constructor.
  - inversion H12 as [|? c ? l2' Hbc H12']; subst. constructor.
    + eapply same_ghost_trans; eassumption.
    + apply IH, H12'.
Qed.

Lemma Forall2_same_ghost_map (f : Ghost.t -> Ghost.t) (gs : list Ghost.t) :
  (forall g, same_ghost g (f g)) -> Forall2 same_ghost gs (map f gs).
Proof. intros Hf. induction gs; cbn; constructor; [apply Hf | assumption]. Qed.

Lemma Forall2_same_ghost_insert (gs : list Ghost.t) (i : nat) (g g' : Ghost.t) :
  gs !! i = Some g -> same_ghost g g' -> Forall2 same_ghost gs (<[i := g']> gs).
Proof.
  revert i. induction gs as [|a gs IH]; intros i Hi Hs; [constructor |].
  destruct i as [|i]; cbn in *.
  - injection Hi as ->. constructor; [exact Hs | apply Forall2_same_ghost_refl].
  - constructor; [apply same_ghost_refl | apply IH; assumption].
Qed.

Lemma update_same_ghost (m : Maze.t) (pt : Z * Z) (g : Ghost.t) (r : Py.rng) :
  same_ghost g (Ghost.update m pt g r).1.
Proof.
  rewrite update_eq.
  destruct (decide_keeps m pt g r) as (_ & _ & Hsame).
  destruct (come_home_facts m (Ghost.move (Ghost.decide m pt g r).1) (Ghost.decide m pt g r).2)
    as (_ & Hsame2 & _).
  eapply same_ghost_trans; [exact Hsame |].
  eapply same_ghost_trans; [| exact Hsame2]. unfold same_ghost. repeat split; reflexivity.
Qed.

Lemma reset_same_ghost (g : Ghost.t) (r : Py.rng) : same_ghost g (Ghost.reset g r).1.
Proof. rewrite reset_spec. unfold same_ghost. repeat split; reflexivity. Qed.

(** ** The steps of a frame *)

Lemma moves_on_refl (s : Game.t) : moves_on s s.
Proof.
  unfold moves_on. split; [apply Forall2_same_ghost_refl |].
  repeat split; auto; lia.
Qed.

Lemma moves_on_trans (s0 s1 s2 : Game.t) : moves_on s0 s1 -> moves_on s1 s2 -> moves_on s0 s2.
Proof.
  intros (G1 & S1 & L1 & R1 & W1 & D1) (G2 & S2 & L2 & R2 & W2 & D2).
  split; [eapply Forall2_same_ghost_trans; eassumption |].
  repeat split; auto; try lia; congruence.
Qed.

Lemma handle_events_moves_on (ev : events) (s : Game.t) :
  moves_on s (Game._handle_events ev s) /\
  Game.maze (Game._handle_events ev s) = Game.maze s /\
  (quit ev = true -> Game.running (Game._handle_events ev s) = false).
Proof.
  unfold Game._handle_events, moves_on, Player.handle_input.
  destruct (quit ev); cbn;
    (split; [split; [apply Forall2_same_ghost_refl |] |]);
    destruct (K_UP (pressed ev)); destruct (K_DOWN (pressed ev));
    destruct (K_LEFT (pressed ev)); destruct (K_RIGHT (pressed ev));
    cbn; repeat split; auto; try lia; try discriminate.
Qed.

Lemma eat_pellets_sets (m : Maze.t) (p : Player.t) :
  same_maze m (Player.eat_pellets m p).2 /\
  Maze.pellets (Player.eat_pellets m p).2 = Maze.pellets m ∖ {[tile_of (Player.pos p)]} /\
  Maze.power_pellets (Player.eat_pellets m p).2 =
    Maze.power_pellets m ∖ {[tile_of (Player.pos p)]} /\
  Player.lives (Player.eat_pellets m p).1.2 = Player.lives p /\
  (exists a b, (a = 0 \/ a = 1) /\ (b = 0 \/ b = 1) /\
     Player.score (Player.eat_pellets m p).1.2 = Player.score p + 10 * a + 50 * b /\
     (Player.eat_pellets m p).1.1 = (a, b) /\
     Z.of_nat (size (Maze.pellets (Player.eat_pellets m p).2))
       = Z.of_nat (size (Maze.pellets m)) - a /\
     Z.of_nat (size (Maze.power_pellets (Player.eat_pellets m p).2))
       = Z.of_nat (size (Maze.power_pellets m)) - b).
Proof.
  unfold Player.eat_pellets, same_maze.
  pose proof (size_remove (Maze.pellets m) (tile_of (Player.pos p))) as S1.
  pose proof (size_remove (Maze.power_pellets m) (tile_of (Player.pos p))) as S2.
  destruct (tile_of (Player.pos p)) as [gx gy].
  destruct (bool_decide ((gx, gy) ∈ Maze.pellets m)) eqn:H1;
    cbn [Maze.power_pellets Maze.pellets];
    destruct (bool_decide ((gx, gy) ∈ Maze.power_pellets m)) eqn:H2;
    cbn [fst snd Maze.power_pellets Maze.pellets Maze.walls Maze.width Maze.height
         Maze.layout Maze.player_start Maze.ghost_starts Maze.house_pos
         Player.score Player.set_score Player.pos Player.lives];
    try (apply bool_decide_eq_false in H1); try (apply bool_decide_eq_false in H2);
    rewrite ?(difference_disjoint_L (Maze.pellets m) {[(gx, gy)]})
      by (apply disjoint_singleton_r; assumption);
    rewrite ?(difference_disjoint_L (Maze.power_pellets m) {[(gx, gy)]})
      by (apply disjoint_singleton_r; assumption);
    (split; [repeat split; reflexivity |]);
    (split; [reflexivity |]); (split; [reflexivity |]); (split; [reflexivity |]).
  - exists 1, 1. repeat split; auto; lia.
  - exists 1, 0. repeat split; auto; lia.
  - exists 0, 1. repeat split; auto; lia.
  - exists 0, 0. repeat split; auto; lia.
Qed.

Lemma update_player_eq (s : Game.t) :
  let e := Player.eat_pellets (Game.maze s) (Player.update (Game.maze s) (Game.player s)) in
  Game.update_player s =
    if 0 <? e.1.1.2 then
      Game.set_ghosts
        (Game.set_power_timer (Game.set_maze (Game.set_player s e.1.2) e.2)
           (Game.power_duration_sec s * FPS))
        (map Ghost.set_vulnerable (Game.ghosts s))
    else Game.set_maze (Game.set_player s e.1.2) e.2.
Proof.
  cbn zeta. unfold Game.update_player.
  destruct (Player.eat_pellets (Game.maze s) (Player.update (Game.maze s) (Game.player s)))
    as [[[pel power] p] m]. cbn [fst snd].
  destruct (0 <? power); reflexivity.
Qed.

Lemma set_vulnerable_same (g : Ghost.t) : same_ghost g (Ghost.set_vulnerable g).
Proof.
  unfold Ghost.set_vulnerable, same_ghost.
  destruct (bool_decide _); repeat split; reflexivity.
Qed.

Lemma update_player_moves_on (s : Game.t) : moves_on s (Game.update_player s).
Proof.
  rewrite update_player_eq.
  destruct (eat_pellets_sets (Game.maze s) (Player.update (Game.maze s) (Game.player s)))
    as (_ & _ & _ & Hl & a & b & Ha & Hb & Hs & _).
  destruct (player_turn_facts (Game.maze s) (Game.player s)) as (_ & _ & Hl' & Hs' & _).
  rewrite Hl' in Hl. rewrite Hs' in Hs.
  unfold moves_on.
  destruct (0 <? _); cbn [Game.ghosts Game.player Game.running Game.win Game.power_duration_sec
                          Game.set_ghosts Game.set_power_timer Game.set_maze Game.set_player];
    (split; [first [apply Forall2_same_ghost_map, set_vulnerable_same
                   | apply Forall2_same_ghost_refl] |]);
    repeat split; auto; lia.
Qed.

Lemma update_ghosts_moves_on (s : Game.t) (r : Py.rng) :
  moves_on s (Game.update_ghosts s r).1 /\ Game.maze (Game.update_ghosts s r).1 = Game.maze s.
Proof.
  unfold Game.update_ghosts, Py.bind, Py.ret.
  pose proof (for_each_Forall2 same_ghost
                (Ghost.update (Game.maze s) (tile_of (Player.pos (Game.player s))))
                (Game.ghosts s) r (update_same_ghost _ _)) as H.
  destruct (for_each _ (Game.ghosts s) r) as [gs r']. cbn [fst] in *.
  split; [| reflexivity]. unfold moves_on. cbn. repeat split; auto; lia.
Qed.

Lemma countdown_moves_on (s : Game.t) :
  moves_on s (Game.countdown s) /\ Game.maze (Game.countdown s) = Game.maze s.
Proof.
  unfold Game.countdown.
  destruct (0 <? Game.power_timer s); [| split; [apply moves_on_refl | reflexivity]].
  cbn [Game.power_timer Game.set_power_timer].
  destruct (Game.power_timer s - 1 =? 0); (split; [| reflexivity]); unfold moves_on; cbn.
  - split; [| repeat split; auto; lia].
    apply Forall2_same_ghost_map. intros g. destruct (bool_decide _).
    + unfold same_ghost. repeat split; reflexivity.
    + apply same_ghost_refl.
  - split; [apply Forall2_same_ghost_refl | repeat split; auto; lia].
Qed.

Lemma lose_life_moves_on (s : Game.t) (r : Py.rng) :
  moves_on s (Game.lose_life s r).1 /\ Game.maze (Game.lose_life s r).1 = Game.maze s.
Proof.
  unfold Game.lose_life.
  cbn [Game.player Game.set_player Player.lives Player.set_lives].
  destruct (Player.lives (Game.player s) - 1 <=? 0).
  - split; [| reflexivity]. unfold moves_on. cbn.
    split; [apply Forall2_same_ghost_refl | repeat split; auto; lia].
  - unfold Py.bind, Py.ret. cbn [Game.ghosts Game.set_player].
    pose proof (for_each_Forall2 same_ghost Ghost.reset (Game.ghosts s) r reset_same_ghost) as H.
    destruct (for_each Ghost.reset (Game.ghosts s) r) as [gs r']. cbn [fst] in *.
    split; [| reflexivity]. unfold moves_on. cbn. repeat split; auto; lia.
Qed.

Lemma on_collision_moves_on (i : nat) (g : Ghost.t) (s : Game.t) (r : Py.rng) :
  Game.ghosts s !! i = Some g ->
  moves_on s (Game.on_collision i g s r).1 /\ Game.maze (Game.on_collision i g s r).1 = Game.maze s.
Proof.
  intros Hi. unfold Game.on_collision.
  destruct (bool_decide (Ghost.state g = GHOST_VULNERABLE)).
  - split; [| reflexivity]. unfold moves_on. cbn.
    split; [| repeat split; auto; lia].
    eapply Forall2_same_ghost_insert; [exact Hi |].
    unfold same_ghost. repeat split; reflexivity.
  - destruct (bool_decide (Ghost.state g = GHOST_EATEN)).
    + split; [apply moves_on_refl | reflexivity].
    + apply lose_life_moves_on.
Qed.

Lemma collide_moves_on (pp : Z * Z) (i : nat) (s : Game.t) (r : Py.rng) :
  moves_on s (Game.collide pp i s r).1 /\ Game.maze (Game.collide pp i s r).1 = Game.maze s.
Proof.
  unfold Game.collide.
  destruct (Game.ghosts s !! i) as [g|] eqn:Hi; [| split; [apply moves_on_refl | reflexivity]].
  destruct (Game.hit pp _); [| split; [apply moves_on_refl | reflexivity]].
  apply on_collision_moves_on, Hi.
Qed.

Lemma collide_from_moves_on (pp : Z * Z) (n i : nat) (s : Game.t) (r : Py.rng) :
  moves_on s (Game.collide_from pp i n s r).1 /\
  Game.maze (Game.collide_from pp i n s r).1 = Game.maze s.
Proof.
  revert i s r. induction n as [|n IH]; intros i s r; cbn [Game.collide_from].
  - split; [apply moves_on_refl | reflexivity].
  - unfold Py.bind. destruct (collide_moves_on pp i s r) as [H1 M1].
    destruct (Game.collide pp i s r) as [s' r']. cbn [fst] in *.
    destruct (IH (S i) s' r') as [H2 M2].
    split; [eapply moves_on_trans; eassumption | congruence].
Qed.

Lemma check_win_moves_on (s : Game.t) :
  moves_on s (Game.check_win s) /\ Game.maze (Game.check_win s) = Game.maze s.
Proof.
  unfold Game.check_win.
  destruct (_ && _); [| split; [apply moves_on_refl | reflexivity]].
  split; [| reflexivity]. unfold moves_on. cbn.
  split; [apply Forall2_same_ghost_refl | repeat split; auto; lia].
Qed.

Lemma update_eq_steps (s : Game.t) (r : Py.rng) :
  (Game._update s r).1 =
    Game.check_win
      (Game._check_collisions
         (Game.countdown (Game.update_ghosts (Game.update_player s) r).1)
         (Game.update_ghosts (Game.update_player s) r).2).1.
Proof.
  unfold Game._update, Py.bind, Py.ret.
  destruct (Game.update_ghosts (Game.update_player s) r) as [s1 r1]. cbn [fst snd].
  destruct (Game._check_collisions (Game.countdown s1) r1) as [s2 r2]. reflexivity.
Qed.

Lemma update_moves_on (s : Game.t) (r : Py.rng) :
  moves_on s (Game._update s r).1 /\
  Game.maze (Game._update s r).1 = Game.maze (Game.update_player s).
Proof.
  rewrite update_eq_steps.
  pose proof (update_player_moves_on s) as H1.
  destruct (update_ghosts_moves_on (Game.update_player s) r) as [H2 M2].
  set (s2 := (Game.update_ghosts (Game.update_player s) r).1) in *.
  set (r2 := (Game.update_ghosts (Game.update_player s) r).2) in *.
  destruct (countdown_moves_on s2) as [H3 M3].
  destruct (collide_from_moves_on
              (grid_to_px (Player.pos (Game.player (Game.countdown s2)))) 
              (length (Game.ghosts (Game.countdown s2))) 0 (Game.countdown s2) r2) as [H4 M4].
  fold (Game._check_collisions (Game.countdown s2) r2) in H4, M4.
  destruct (check_win_moves_on (Game._check_collisions (Game.countdown s2) r2).1) as [H5 M5].
  split; [| congruence].
  eapply moves_on_trans; [exact H1 |]. eapply moves_on_trans; [exact H2 |].
  eapply moves_on_trans; [exact H3 |]. eapply moves_on_trans; [exact H4 | exact H5].
Qed.

Lemma update_player_maze (s : Game.t) :
  Game.maze (Game.update_player s) =
    (Player.eat_pellets (Game.maze s) (Player.update (Game.maze s) (Game.player s))).2.
Proof. rewrite update_player_eq. cbn zeta. destruct (0 <? _); reflexivity. Qed.

(** X15.  A frame changes nothing of the maze but the two pellet sets,
    and nothing of a ghost but its position, heading and state: the layout,
    the dimensions, the walls, the start and house cells, and the number,
    order, class, start and speeds of the ghosts are those of the state
    before. *)
Theorem frame_keeps_maze_and_roster (ev : events) (s : Game.t) (r : Py.rng) :
  same_maze (Game.maze s) (Game.maze (Game.frame ev s r).1) /\
  Forall2 same_ghost (Game.ghosts s) (Game.ghosts (Game.frame ev s r).1) /\
  length (Game.ghosts (Game.frame ev s r).1) = length (Game.ghosts s) /\
  Game.power_duration_sec (Game.frame ev s r).1 = Game.power_duration_sec s.
Proof.
  unfold Game.frame.
  destruct (handle_events_moves_on ev s) as (H0 & M0 & _).
  destruct (update_moves_on (Game._handle_events ev s) r) as [H1 M1].
  pose proof (moves_on_trans _ _ _ H0 H1) as (HG & _ & _ & _ & _ & HD).
  split; [| split; [exact HG | split; [symmetry; eapply Forall2_length, HG | exact HD]]].
  rewrite M1, update_player_maze, M0. apply eat_pellets_sets.
Qed.

(** X16.  In a frame the two pellet sets lose the tile the player's
    position rounds to after its move, and nothing else; a life-loss reset
    later in the frame gives nothing back. *)
Theorem frame_eats_under_player (ev : events) (s : Game.t) (r : Py.rng) :
  let moved := Player.update (Game.maze s) (Player.handle_input (pressed ev) (Game.player s)) in
  let t := tile_of (Player.pos moved) in
  Maze.pellets (Game.maze (Game.frame ev s r).1) = Maze.pellets (Game.maze s) ∖ {[t]} /\
  Maze.power_pellets (Game.maze (Game.frame ev s r).1) =
    Maze.power_pellets (Game.maze s) ∖ {[t]}.
Proof.
  cbn zeta. unfold Game.frame.
  destruct (handle_events_moves_on ev s) as (_ & M0 & _).
  destruct (update_moves_on (Game._handle_events ev s) r) as [_ M1].
  rewrite M1, update_player_maze, M0.
  assert (Hp : Game.player (Game._handle_events ev s)
               = Player.handle_input (pressed ev) (Game.player s)).
  { unfold Game._handle_events. destruct (quit ev); reflexivity. }
  rewrite Hp.
  destruct (eat_pellets_sets (Game.maze s)
              (Player.update (Game.maze s) (Player.handle_input (pressed ev) (Game.player s))))
    as (_ & H1 & H2 & _).
  split; assumption.
Qed.

(** X17.  Over a frame the score never goes down and the number of
    lives never goes up; a game that is not running is not running after
    the frame, a won game stays won, and a [QUIT] event stops the game. *)
Theorem frame_counters_monotone (ev : events) (s : Game.t) (r : Py.rng) :
  Player.score (Game.player s) <= Player.score (Game.player (Game.frame ev s r).1) /\
  Player.lives (Game.player (Game.frame ev s r).1) <= Player.lives (Game.player s) /\
  (Game.running s = false -> Game.running (Game.frame ev s r).1 = false) /\
  (Game.win s = true -> Game.win (Game.frame ev s r).1 = true) /\
  (quit ev = true -> Game.running (Game.frame ev s r).1 = false).
Proof.
  unfold Game.frame.
  destruct (handle_events_moves_on ev s) as (H0 & _ & Hq).
  destruct (update_moves_on (Game._handle_events ev s) r) as [H1 _].
  pose proof (moves_on_trans _ _ _ H0 H1) as (_ & HS & HL & HR & HW & _).
  repeat split; auto.
  intros Hquit. destruct H1 as (_ & _ & _ & HR1 & _). apply HR1, Hq, Hquit.
Qed.

(** ** The invariant of the counters *)

Ltac ok_done HW :=
  repeat split; auto; try lia; try discriminate;
  try (match goal with
       | H : Game.win _ = true |- _ => destruct (HW H) as (? & ? & ?); auto; congruence
       end).

Lemma handle_events_ok (m0 : Maze.t) (b : Z) (ev : events) (s : Game.t) :
  game_ok m0 b s -> game_ok m0 b (Game._handle_events ev s).
Proof.
  intros (HL & HR & HP & HPP & HK & HW & HD & HT & HV & HG).
  assert (Hplayer : Player.lives (Player.handle_input (pressed ev) (Game.player s))
                    = Player.lives (Game.player s) /\
                    Player.score (Player.handle_input (pressed ev) (Game.player s))
                    = Player.score (Game.player s)).
  { unfold Player.handle_input.
    destruct (K_UP _); [auto |]. destruct (K_DOWN _); [auto |].
    destruct (K_LEFT _); [auto |]. destruct (K_RIGHT _); auto. }
  destruct Hplayer as [El Es].
  unfold Game._handle_events, game_ok.
  destruct (quit ev);
    cbn [Game.player Game.set_player Game.set_running Game.running Game.win Game.maze
         Game.power_duration_sec Game.power_timer Game.ghosts];
    rewrite El, Es; ok_done HW.
Qed.

Lemma update_player_ok (m0 : Maze.t) (s : Game.t) :
  game_ok m0 419 s -> game_ok m0 420 (Game.update_player s).
Proof.
  intros (HL & HR & HP & HPP & (k & Hk0 & HK) & HW & HD & HT & HV & HG).
  rewrite update_player_eq. cbn zeta.
  destruct (eat_pellets_sets (Game.maze s) (Player.update (Game.maze s) (Game.player s)))
    as (_ & Hp & Hpp & Hl & a & b & Ha & Hb & Hs & _ & Sa & Sb).
  destruct (player_turn_facts (Game.maze s) (Game.player s)) as (_ & _ & Hl' & Hs' & _).
  rewrite Hl' in Hl. rewrite Hs' in Hs.
  assert (Hwin : Game.win s = true ->
            Game.running s = false /\
            Maze.pellets (Player.eat_pellets (Game.maze s)
                            (Player.update (Game.maze s) (Game.player s))).2 = ∅ /\
            Maze.power_pellets (Player.eat_pellets (Game.maze s)
                                  (Player.update (Game.maze s) (Game.player s))).2 = ∅).
  { intros Hw. destruct (HW Hw) as (H1 & H2 & H3). rewrite Hp, Hpp, H2, H3.
    split; [exact H1 | split; apply empty_difference_L]. }
  unfold game_ok, eaten, power_eaten in *.
  destruct (0 <? _);
    cbn [Game.player Game.set_player Game.set_maze Game.set_ghosts Game.set_power_timer
         Game.running Game.win Game.maze Game.power_duration_sec Game.power_timer Game.ghosts];
    rewrite Hl, Hs, ?Sa, ?Sb; ok_done Hwin.
  - exists k. lia.
  - rewrite HD. unfold FPS. lia.
  - rewrite HD. unfold FPS. lia.
  - rewrite HD. unfold FPS. lia.
  - rewrite Forall_map. eapply Forall_impl; [exact HG |]. intros g Hg. cbn beta.
    unfold Ghost.set_vulnerable. destruct (bool_decide _); exact Hg.
  - exists k. lia.
Qed.

Lemma update_ghosts_ok (m0 : Maze.t) (b : Z) (s : Game.t) (r : Py.rng) :
  game_ok m0 b s -> game_ok m0 b (Game.update_ghosts s r).1.
Proof.
  intros (HL & HR & HP & HPP & HK & HW & HD & HT & HV & HG).
  unfold Game.update_ghosts, Py.bind, Py.ret.
  pose proof (for_each_Forall (fun g => Ghost.dir g ∈ ALL_DIRS) (fun g => Ghost.dir g ∈ ALL_DIRS)
                (Ghost.update (Game.maze s) (tile_of (Player.pos (Game.player s))))
                (Game.ghosts s) r (fun g r => update_dir _ _ g r) HG) as HG'.
  assert (HV' : Game.power_timer s = 0 ->
                Forall (fun g => Ghost.state g <> GHOST_VULNERABLE)
                  (for_each (Ghost.update (Game.maze s) (tile_of (Player.pos (Game.player s))))
                     (Game.ghosts s) r).1).
  { intros Ht. eapply for_each_Forall; [| exact (HV Ht)].
    intros g r0 Hg. cbn beta in *.
    destruct (update_facts (Game.maze s) (tile_of (Player.pos (Game.player s))) g r0) as [_ Hst].
    rewrite Hst. destruct (_ && _); [discriminate | exact Hg]. }
  destruct (for_each _ (Game.ghosts s) r) as [gs r']. cbn [fst] in *.
  unfold game_ok. cbn. ok_done HW.
Qed.

Lemma countdown_ok (m0 : Maze.t) (s : Game.t) :
  game_ok m0 420 s -> game_ok m0 419 (Game.countdown s).
Proof.
  intros (HL & HR & HP & HPP & HK & HW & HD & HT & HV & HG).
  unfold Game.countdown.
  destruct (Z.ltb_spec 0 (Game.power_timer s)) as [Hpos | Hzero].
  - cbn [Game.power_timer Game.set_power_timer].
    destruct (Z.eqb_spec (Game.power_timer s - 1) 0) as [E | E]; unfold game_ok; cbn.
    + ok_done HW.
      * intros _. rewrite Forall_map. apply Forall_forall. intros g _.
        destruct (bool_decide (Ghost.state g = GHOST_VULNERABLE)) eqn:Ev; cbn; [discriminate |].
        apply bool_decide_eq_false in Ev. exact Ev.
      * rewrite Forall_map. eapply Forall_impl; [exact HG |]. intros g Hg. cbn beta.
        destruct (bool_decide _); exact Hg.
    + ok_done HW.
  - assert (Ht : Game.power_timer s = 0) by lia.
    unfold game_ok. ok_done HW.
Qed.

Lemma lose_life_ok (m0 : Maze.t) (b : Z) (s : Game.t) (r : Py.rng) :
  game_ok m0 b s -> game_ok m0 b (Game.lose_life s r).1.
Proof.
  intros (HL & HR & HP & HPP & HK & HW & HD & HT & HV & HG).
  unfold Game.lose_life.
  cbn [Game.player Game.set_player Player.lives Player.set_lives].
  destruct (Z.leb_spec (Player.lives (Game.player s) - 1) 0) as [Hle | Hgt].
  - unfold game_ok. cbn. ok_done HW.
  - unfold Py.bind, Py.ret. cbn [Game.ghosts Game.set_player].
    assert (Hreset : Forall (fun g => Ghost.state g <> GHOST_VULNERABLE /\ Ghost.dir g ∈ ALL_DIRS)
                       (for_each Ghost.reset (Game.ghosts s) r).1).
    { apply (for_each_Forall (fun _ => True)); [| apply Forall_true; auto].
      intros g r0 _. destruct (reset_fields g r0 0) as (_ & Hst & _ & Hd).
      rewrite drop_0 in Hst, Hd. rewrite Hst. split; [discriminate | exact Hd]. }
    destruct (for_each Ghost.reset (Game.ghosts s) r) as [gs r']. cbn [fst] in *.
    apply Forall_and in Hreset as [Hv Hd].
    unfold game_ok. cbn. ok_done HW.
Qed.

Lemma on_collision_ok (m0 : Maze.t) (b : Z) (i : nat) (g : Ghost.t) (s : Game.t) (r : Py.rng) :
  Game.ghosts s !! i = Some g ->
  game_ok m0 b s -> game_ok m0 b (Game.on_collision i g s r).1.
Proof.
  intros Hi Hok. unfold Game.on_collision.
  destruct (bool_decide (Ghost.state g = GHOST_VULNERABLE)).
  - destruct Hok as (HL & HR & HP & HPP & (k & Hk0 & HK) & HW & HD & HT & HV & HG).
    unfold game_ok. cbn. ok_done HW.
    + exists (k + 1). lia.
    + intros Ht. apply Forall_insert; [auto | discriminate].
    + apply Forall_insert; [exact HG |]. cbn.
      rewrite Forall_forall in HG. apply HG, list_elem_of_lookup. eauto.
  - destruct (bool_decide (Ghost.state g = GHOST_EATEN)); [exact Hok |].
    apply lose_life_ok, Hok.
Qed.

Lemma collide_ok (m0 : Maze.t) (b : Z) (pp : Z * Z) (i : nat) (s : Game.t) (r : Py.rng) :
  game_ok m0 b s -> game_ok m0 b (Game.collide pp i s r).1.
Proof.
  intros Hok. unfold Game.collide.
  destruct (Game.ghosts s !! i) as [g|] eqn:Hi; [| exact Hok].
  destruct (Game.hit pp _); [| exact Hok].
  apply on_collision_ok; assumption.
Qed.

Lemma collide_from_ok (m0 : Maze.t) (b : Z) (pp : Z * Z) (n i : nat) (s : Game.t) (r : Py.rng) :
  game_ok m0 b s -> game_ok m0 b (Game.collide_from pp i n s r).1.
Proof.
  revert i s r. induction n as [|n IH]; intros i s r Hok; cbn [Game.collide_from]; [exact Hok |].
  unfold Py.bind. pose proof (collide_ok m0 b pp i s r Hok) as H1.
  destruct (Game.collide pp i s r) as [s' r']. apply IH, H1.
Qed.

Lemma size_zero_empty (X : gset (Z * Z)) : (size X =? 0)%nat = true -> X = ∅.
Proof. intros H. apply Nat.eqb_eq in H. apply leibniz_equiv, size_empty_inv, H. Qed.

Lemma check_win_ok (m0 : Maze.t) (b : Z) (s : Game.t) : game_ok m0 b s -> game_ok m0 b (Game.check_win s).
Proof.
  intros (HL & HR & HP & HPP & HK & HW & HD & HT & HV & HG).
  unfold Game.check_win.
  destruct ((size (Maze.pellets (Game.maze s)) =? 0)%nat
            && (size (Maze.power_pellets (Game.maze s)) =? 0)%nat) eqn:E.
  - apply andb_true_iff in E as [E1 E2]. apply size_zero_empty in E1, E2.
    unfold game_ok. cbn. ok_done HW.
  - unfold game_ok. ok_done HW.
Qed.

Lemma frame_ok (m0 : Maze.t) (ev : events) (s : Game.t) (r : Py.rng) :
  game_ok m0 419 s -> game_ok m0 419 (Game.frame ev s r).1.
Proof.
  intros Hok. unfold Game.frame. rewrite update_eq_steps.
  apply check_win_ok. unfold Game._check_collisions. apply collide_from_ok.
  apply countdown_ok, update_ghosts_ok, update_player_ok, handle_events_ok, Hok.
Qed.

(** ** The game as constructed *)

Lemma bind_eq {A B} (m : Py.M A) (k : A -> Py.M B) (r : Py.rng) :
  Py.bind m k r = k (m r).1 (m r).2.
Proof. unfold Py.bind. destruct (m r). reflexivity. Qed.

Lemma init_ghost_facts (c : ghost_class) (st : Z * Z) (col : Z * Z * Z) (r : Py.rng) :
  Ghost.class (Ghost.__init__ c st col r).1 = c /\
  Ghost.start (Ghost.__init__ c st col r).1 = st /\
  Ghost.color (Ghost.__init__ c st col r).1 = col /\
  fresh_ghost (Ghost.__init__ c st col r).1.
Proof.
  unfold Ghost.__init__. rewrite bind_eq. unfold Py.ret, fresh_ghost. cbn [fst Ghost.class
    Ghost.start Ghost.color Ghost.pos Ghost.state Ghost.dir Ghost.speed_normal
    Ghost.speed_vulnerable Ghost.speed_eaten].
  repeat split; try reflexivity. apply choice_in. discriminate.
Qed.

Lemma new_eq (m : Maze.t) (r : Py.rng) :
  Game.new m r =
    (gs0 <~ match Maze.ghost_starts m with
            | s0 :: _ => g <~ Ghost.__init__ ChaserGhost s0 RED ;; Py.ret [g]
            | [] => Py.ret []
            end ;;
     gs1 <~ match Maze.ghost_starts m with
            | _ :: s1 :: _ => g <~ Ghost.__init__ RandomGhost s1 CYAN ;; Py.ret [g]
            | _ => Py.ret []
            end ;;
     gs2 <~ fill_random 2 (drop 2 (Maze.ghost_starts m)) ;;
     Py.ret (Game.mk m (Player.__init__ (Maze.player_start m)) (gs0 ++ gs1 ++ gs2)
                     0 7 true false)) r.
Proof. reflexivity. Qed.

Lemma new_rest (ss : list (Z * Z)) (i : nat) (r : Py.rng) :
  map Ghost.start (fill_random i ss r).1 = ss /\
  map Ghost.class (fill_random i ss r).1 = repeat RandomGhost (length ss) /\
  Forall fresh_ghost (fill_random i ss r).1 /\
  (forall j g, (fill_random i ss r).1 !! j = Some g ->
     Ghost.color g = nth ((i + j) mod 4)%nat [RED; CYAN; ORANGE; PINK] RED).
Proof.
  revert i r. induction ss as [|s ss IH]; intros i r.
  - cbn. repeat split; auto. intros j g H. rewrite lookup_nil in H. discriminate.
  - cbn [fill_random]. rewrite bind_eq, bind_eq. unfold Py.ret. cbn [fst].
    destruct (init_ghost_facts RandomGhost s
                (nth (i mod length [RED; CYAN; ORANGE; PINK])%nat [RED; CYAN; ORANGE; PINK] RED) r)
      as (Hc & Hs & Hcol & Hf).
    set (g := (Ghost.__init__ RandomGhost s _ r).1) in *.
    set (r1 := (Ghost.__init__ RandomGhost s _ r).2) in *.
    clearbody g r1.
    destruct (IH (S i) r1) as (I1 & I2 & I3 & I4).
    set (gs := (fill_random (S i) ss r1).1) in *. clearbody gs.
    cbn [map length repeat]. rewrite Hc, Hs, I1, I2.
    split; [reflexivity | split; [reflexivity | split; [constructor; assumption |]]].
    intros [|j] g' Hj; cbn in Hj.
    + injection Hj as Hj. rewrite <- Hj, Hcol, Nat.add_0_r. reflexivity.
    + rewrite (I4 j g' Hj). f_equal. f_equal. lia.
Qed.

Lemma new_ghosts (m : Maze.t) (r : Py.rng) :
  map Ghost.start (Game.ghosts (Game.new m r).1) = Maze.ghost_starts m /\
  map Ghost.class (Game.ghosts (Game.new m r).1) = roster_classes (length (Maze.ghost_starts m)) /\
  Forall fresh_ghost (Game.ghosts (Game.new m r).1) /\
  (forall j g, Game.ghosts (Game.new m r).1 !! j = Some g ->
     Ghost.color g = nth (j mod 4)%nat [RED; CYAN; ORANGE; PINK] RED).
Proof.
  rewrite new_eq.
  destruct (Maze.ghost_starts m) as [|s0 [|s1 rest]].
  - cbn. repeat split; auto. intros j g H. rewrite lookup_nil in H. discriminate.
  - rewrite !bind_eq. unfold Py.ret. cbn [fst snd drop app fill_random].
    destruct (init_ghost_facts ChaserGhost s0 RED r) as (Hc & Hs & Hcol & Hf).
    set (g0 := (Ghost.__init__ ChaserGhost s0 RED r).1) in *. clearbody g0.
    cbn [Game.ghosts map length roster_classes repeat]. rewrite Hc, Hs.
    split; [reflexivity | split; [reflexivity | split; [constructor; [exact Hf | constructor] |]]].
    intros [|j] g Hj; cbn in Hj; [injection Hj as Hj; rewrite <- Hj; exact Hcol |].
    discriminate.
  - rewrite !bind_eq. unfold Py.ret. cbn [fst snd drop app].
    destruct (init_ghost_facts ChaserGhost s0 RED r) as (Hc & Hs & Hcol & Hf).
    set (g0 := (Ghost.__init__ ChaserGhost s0 RED r).1) in *.
    set (r0 := (Ghost.__init__ ChaserGhost s0 RED r).2) in *. clearbody g0 r0.
    destruct (init_ghost_facts RandomGhost s1 CYAN r0) as (Hc1 & Hs1 & Hcol1 & Hf1).
    set (g1 := (Ghost.__init__ RandomGhost s1 CYAN r0).1) in *.
    set (r1 := (Ghost.__init__ RandomGhost s1 CYAN r0).2) in *. clearbody g1 r1.
    rewrite drop_0.
    destruct (new_rest rest 2 r1) as (I1 & I2 & I3 & I4).
    set (gs := (fill_random 2 rest r1).1) in *. clearbody gs.
    cbn [Game.ghosts map length roster_classes repeat]. rewrite Hc, Hs, Hc1, Hs1, I1, I2.
    split; [reflexivity | split; [reflexivity | split]].
    { constructor; [exact Hf | constructor; [exact Hf1 | exact I3]]. }
    intros [|[|j]] g Hj; cbn in Hj.
    + injection Hj as Hj. rewrite <- Hj. exact Hcol.
    + injection Hj as Hj. rewrite <- Hj. exact Hcol1.
    + rewrite (I4 j g Hj). reflexivity.
Qed.

Lemma roster_ok_same (m m' : Maze.t) (gs gs' : list Ghost.t) :
  same_maze m m' -> Forall2 same_ghost gs gs' -> roster_ok m gs -> roster_ok m' gs'.
Proof.
  intros (_ & _ & _ & _ & _ & Hst & _) H2 (R1 & R2 & R3). unfold roster_ok. rewrite Hst.
  assert (H : map Ghost.start gs' = map Ghost.start gs /\
              map Ghost.class gs' = map Ghost.class gs /\
              Forall (fun g =>
                Ghost.speed_normal g = Py.fdiv (Py.float_of_int 5) (Py.float_of_int TILE_SIZE) /\
                Ghost.speed_vulnerable g = Py.fdiv (Py.literal 7 2) (Py.float_of_int TILE_SIZE) /\
                Ghost.speed_eaten g = Py.fdiv (Py.float_of_int 7) (Py.float_of_int TILE_SIZE)) gs').
  { clear R1 R2. induction H2 as [|g g' gs gs' Hg _ IH]; [repeat split; constructor |].
    apply Forall_cons in R3 as [(S1 & S2 & S3) R3]. destruct (IH R3) as (I1 & I2 & I3).
    destruct Hg as (G1 & G2 & G3 & G4 & G5 & _).
    cbn [map]. rewrite I1, I2, G1, G2.
    split; [reflexivity | split; [reflexivity |]].
    constructor; [| exact I3]. rewrite G3, G4, G5. auto. }
  destruct H as (H1 & H3 & H4). rewrite H1, H3. auto.
Qed.

Lemma same_maze_refl (m : Maze.t) : same_maze m m.
Proof. unfold same_maze. repeat split; reflexivity. Qed.

Lemma same_maze_trans (m0 m1 m2 : Maze.t) : same_maze m0 m1 -> same_maze m1 m2 -> same_maze m0 m2.
Proof. unfold same_maze. intuition congruence. Qed.

(** X18.  [Game.__init__] puts the player on the player start with three
    lives and no score and makes one ghost per ghost start, in the order of
    the starts: the first is a chaser and all the others are random ghosts,
    whatever letter marked their start; the ghost of index [j] has the
    colour [colors[j % 4]]; every ghost stands on its start in the normal
    state, heading in one of the four directions. *)
Theorem new_game_state (m : Maze.t) (r : Py.rng) :
  let s := (Game.new m r).1 in
  Game.maze s = m /\
  Game.player s = Player.__init__ (Maze.player_start m) /\
  Player.lives (Game.player s) = 3 /\ Player.score (Game.player s) = 0 /\
  roster_ok m (Game.ghosts s) /\
  Forall fresh_ghost (Game.ghosts s) /\
  (forall j g, Game.ghosts s !! j = Some g ->
     Ghost.color g = nth (j mod 4)%nat [RED; CYAN; ORANGE; PINK] RED) /\
  Game.power_timer s = 0 /\ Game.power_duration_sec s = 7 /\
  Game.running s = true /\ Game.win s = false.
Proof.
  cbn zeta. destruct (new_fields m r) as [Hm Hp]. destruct (new_ghosts m r) as (G1 & G2 & G3 & G4).
  rewrite Hm, Hp.
  split; [reflexivity | split; [reflexivity | split; [reflexivity | split; [reflexivity |]]]].
  split; [| split; [exact G3 | split; [exact G4 |]]].
  - split; [exact G1 | split; [exact G2 |]].
    eapply Forall_impl; [exact G3 |]. intros g (_ & _ & _ & S1 & S2 & S3). auto.
  - rewrite new_eq, !bind_eq. unfold Py.ret. cbn. auto.
Qed.

(** ** Invariants of the reachable states *)

Lemma new_ok (m : Maze.t) (r : Py.rng) : game_ok m 419 (Game.new m r).1.
Proof.
  destruct (new_fields m r) as [Hm Hp]. destruct (new_ghosts m r) as (_ & _ & G3 & _).
  assert (Hrest : Game.power_timer (Game.new m r).1 = 0 /\
                  Game.power_duration_sec (Game.new m r).1 = 7 /\
                  Game.running (Game.new m r).1 = true /\ Game.win (Game.new m r).1 = false).
  { rewrite new_eq, !bind_eq. unfold Py.ret. cbn. auto. }
  destruct Hrest as (Ht & Hd & Hr & Hw).
  unfold game_ok, eaten, power_eaten. rewrite Hm, Hp, Ht, Hd, Hr, Hw.
  cbn [Player.lives Player.score Player.__init__].
  repeat split; try lia; try discriminate.
  - exists 0. lia.
  - intros _. eapply Forall_impl; [exact G3 |]. intros g (_ & Hs & _). rewrite Hs. discriminate.
  - eapply Forall_impl; [exact G3 |]. intros g (_ & _ & Hdir & _). exact Hdir.
Qed.

Lemma reachable_ok (m : Maze.t) (s : Game.t) : Game.reachable_from m s -> game_ok m 419 s.
Proof. induction 1 as [r | s ev r _ IH _]; [apply new_ok | apply frame_ok, IH]. Qed.

Lemma reachable_roster (m : Maze.t) (s : Game.t) :
  Game.reachable_from m s -> same_maze m (Game.maze s) /\ roster_ok m (Game.ghosts s).
Proof.
  induction 1 as [r | s ev r _ [IHm IHr] _].
  - destruct (new_fields m r) as [Hm _]. destruct (new_ghosts m r) as (G1 & G2 & G3 & _).
    rewrite Hm. split; [apply same_maze_refl |].
    split; [exact G1 | split; [exact G2 |]].
    eapply Forall_impl; [exact G3 |]. intros g (_ & _ & _ & S1 & S2 & S3). auto.
  - unfold Game.frame.
    destruct (handle_events_moves_on ev s) as (H0 & M0 & _).
    destruct (update_moves_on (Game._handle_events ev s) r) as [H1 M1].
    pose proof (moves_on_trans _ _ _ H0 H1) as (HG & _).
    assert (Hmaze : same_maze (Game.maze s) (Game.maze (Game._update (Game._handle_events ev s) r).1)).
    { rewrite M1, update_player_maze, M0. apply eat_pellets_sets. }
    split; [eapply same_maze_trans; eassumption |].
    assert (Hroster : roster_ok (Game.maze s) (Game.ghosts s)).
    { eapply roster_ok_same; [exact IHm | apply Forall2_same_ghost_refl | exact IHr]. }
    assert (Hback : same_maze (Game.maze (Game._update (Game._handle_events ev s) r).1) m).
    { destruct IHm as (? & ? & ? & ? & ? & ? & ?). destruct Hmaze as (? & ? & ? & ? & ? & ? & ?).
      unfold same_maze. repeat split; congruence. }
    eapply roster_ok_same; [exact Hback | apply Forall2_same_ghost_refl |].
    eapply roster_ok_same; [exact Hmaze | exact HG | exact Hroster].
Qed.

(** X19.  In every state the loop of [run] reaches, on any maze, the
    player has at most three lives, and at least one while the game is
    running. *)
Theorem lives_while_running (m : Maze.t) (s : Game.t) :
  Game.reachable_from m s ->
  Player.lives (Game.player s) <= 3 /\
  (Game.running s = true -> 1 <= Player.lives (Game.player s)).
Proof.
  intros Hr. destruct (reachable_ok m s Hr) as (HL & HR & _). split; assumption.
Qed.

Lemma lives_while_running_witness :
  1 <= Player.lives (Game.player (Game.play chase fresh_game []).1) <= 3.
Proof.
  pose proof (lives_while_running Game._build_maze (Game.play chase fresh_game []).1
                (play_reachable _ chase fresh_game [] (Game.reach_init _ [])
                   ltac:(vm_compute; reflexivity))) as (H1 & H2).
  split; [apply H2; vm_compute; reflexivity | exact H1].
Defined.

(** X20.  In every reachable state, on any maze, the score is 10 for
    every pellet and 50 for every power pellet that the maze has lost since
    construction, plus 200 times a number of captures; in particular it is
    never negative and always a multiple of 10. *)
Theorem score_counts_what_was_eaten (m : Maze.t) (s : Game.t) :
  Game.reachable_from m s ->
  0 <= eaten m (Game.maze s) /\ 0 <= power_eaten m (Game.maze s) /\
  exists captures, 0 <= captures /\
    Player.score (Game.player s) =
      10 * eaten m (Game.maze s) + 50 * power_eaten m (Game.maze s) + 200 * captures.
Proof.
  intros Hr. destruct (reachable_ok m s Hr) as (_ & _ & HP & HPP & HK & _). auto.
Qed.

Lemma score_counts_what_was_eaten_witness :
  exists captures, 0 <= captures /\
    Player.score (Game.player (Game.play chase fresh_game []).1) =
      10 * eaten Game._build_maze (Game.maze (Game.play chase fresh_game []).1)
      + 50 * power_eaten Game._build_maze (Game.maze (Game.play chase fresh_game []).1)
      + 200 * captures.
Proof.
  pose proof (score_counts_what_was_eaten Game._build_maze (Game.play chase fresh_game []).1
                (play_reachable _ chase fresh_game [] (Game.reach_init _ [])
                   ltac:(vm_compute; reflexivity))) as (_ & _ & H).
  exact H.
Defined.

(** X21.  In every reachable state, on any maze, a won game has stopped
    and both pellet sets are empty. *)
Theorem win_means_cleared (m : Maze.t) (s : Game.t) :
  Game.reachable_from m s ->
  Game.win s = true ->
  Game.running s = false /\ Maze.pellets (Game.maze s) = ∅ /\
  Maze.power_pellets (Game.maze s) = ∅.
Proof.
  intros Hr. destruct (reachable_ok m s Hr) as (_ & _ & _ & _ & _ & HW & _). exact HW.
Qed.

Lemma win_means_cleared_witness :
  Game.running (Game.play (repeat key_right 3) (Game.new one_pellet_maze []).1 []).1 = false /\
  Maze.pellets (Game.maze (Game.play (repeat key_right 3) (Game.new one_pellet_maze []).1 []).1)
    = ∅.
Proof.
  assert (Hrun : Game.keeps_running (repeat key_right 3) (Game.new one_pellet_maze []).1 [] = true)
    by (vm_compute; reflexivity).
  assert (Hwin : Game.win (Game.play (repeat key_right 3) (Game.new one_pellet_maze []).1 []).1
                 = true) by (vm_compute; reflexivity).
  pose proof (play_reachable one_pellet_maze (repeat key_right 3) (Game.new one_pellet_maze []).1
                [] (Game.reach_init one_pellet_maze []) Hrun) as Hreach.
  pose proof (win_means_cleared one_pellet_maze _ Hreach Hwin) as (H1 & H2 & _).
  split; assumption.
Defined.

(** X22.  In every reachable state, on any maze, the power timer is
    between 0 and 419 and the power window lasts 7 seconds; when the timer
    is 0 no ghost is vulnerable. *)
Theorem power_window_bounds (m : Maze.t) (s : Game.t) :
  Game.reachable_from m s ->
  0 <= Game.power_timer s <= 419 /\
  Game.power_duration_sec s = 7 /\
  (Game.power_timer s = 0 ->
   forall g, g ∈ Game.ghosts s -> Ghost.state g <> GHOST_VULNERABLE).
Proof.
  intros Hr. destruct (reachable_ok m s Hr) as (_ & _ & _ & _ & _ & _ & HD & HT & HV & _).
  split; [exact HT | split; [exact HD |]].
  intros Ht. apply Forall_forall, HV, Ht.
Qed.

Lemma power_window_bounds_witness :
  0 <= Game.power_timer (Game.play chase fresh_game []).1 <= 419.
Proof.
  pose proof (power_window_bounds Game._build_maze (Game.play chase fresh_game []).1
                (play_reachable _ chase fresh_game [] (Game.reach_init _ [])
                   ltac:(vm_compute; reflexivity))) as (H & _).
  exact H.
Defined.

(** X23.  In every reachable state, on any maze, the maze still has
    the layout, dimensions, walls, start and house cells it was built with,
    and there is one ghost per ghost start of the maze, in the order of the
    starts, the first a chaser and every other one a random ghost, each
    with the three speeds of the constructor and heading in one of the four
    directions: a ghost never stands still. *)
Theorem ghost_roster_invariant (m : Maze.t) (s : Game.t) :
  Game.reachable_from m s ->
  same_maze m (Game.maze s) /\
  roster_ok m (Game.ghosts s) /\
  (forall g, g ∈ Game.ghosts s -> Ghost.dir g ∈ ALL_DIRS).
Proof.
  intros Hr. destruct (reachable_roster m s Hr) as [Hm Hg].
  destruct (reachable_ok m s Hr) as (_ & _ & _ & _ & _ & _ & _ & _ & _ & HG).
  split; [exact Hm | split; [exact Hg |]]. apply Forall_forall, HG.
Qed.

Lemma ghost_roster_invariant_witness :
  map Ghost.start (Game.ghosts (Game.play chase fresh_game []).1) =
    Maze.ghost_starts Game._build_maze.
Proof.
  pose proof (ghost_roster_invariant Game._build_maze (Game.play chase fresh_game []).1
                (play_reachable _ chase fresh_game [] (Game.reach_init _ [])
                   ltac:(vm_compute; reflexivity))) as (_ & (H & _) & _).
  exact H.
Defined.

(** ** Pixel centres *)

Lemma fmul_canonical (a b Ea Eb : Z) :
  Z.abs a < 2 ^ 53 -> 0 < b < 2 ^ 53 -> Z.abs (a * b) < 2 ^ 53 ->
  -1022 <= Ea + Eb <= 971 ->
  Py.fmul (canonical a Ea) (canonical b Eb) = canonical (a * b) (Ea + Eb).
Proof.
  intros Ha Hb Hab HE.
  destruct (Z.eq_dec a 0) as [-> | Hne].
  - rewrite (canonical_finite b) by lia.
    replace (b <? 0) with false by (symmetry; apply Z.ltb_ge; lia). reflexivity.
  - assert (Hab0 : a * b <> 0) by nia.
    rewrite (canonical_finite a), (canonical_finite b), (canonical_finite (a * b)) by lia.
    assert (Hsb : (b <? 0) = false) by (apply Z.ltb_ge; lia).
    assert (Hs : (a * b <? 0) = (a <? 0)).
    { destruct (Z.ltb_spec a 0); [apply Z.ltb_lt | apply Z.ltb_ge]; nia. }
    rewrite Hsb, Hs. unfold Py.fmul, SFmul. rewrite xorb_false_r.
    set (la := Z.log2 (Z.abs a)). set (lb := Z.log2 (Z.abs b)).
    set (lab := Z.log2 (Z.abs (a * b))).
    assert (Hla : 0 <= la <= 52).
    { split; [apply Z.log2_nonneg |]. assert (la < 53); [apply Z.log2_lt_pow2; lia | lia]. }
    assert (Hlb : 0 <= lb <= 52).
    { split; [apply Z.log2_nonneg |]. assert (lb < 53); [apply Z.log2_lt_pow2; lia | lia]. }
    assert (Hlab : 0 <= lab <= 52).
    { split; [apply Z.log2_nonneg |]. assert (lab < 53); [apply Z.log2_lt_pow2; lia | lia]. }
    assert (Hsum : la + lb <= lab).
    { unfold lab. rewrite Z.abs_mul. apply Z.log2_mul_below; lia. }
    assert (Hpa : 0 < Z.abs a * 2 ^ (52 - la)) by (apply Z.mul_pos_pos; lia).
    assert (Hpb : 0 < Z.abs b * 2 ^ (52 - lb)) by (apply Z.mul_pos_pos; lia).
    assert (HP : Z.pos (Z.to_pos (Z.abs a * 2 ^ (52 - la)) * Z.to_pos (Z.abs b * 2 ^ (52 - lb)))
                 = Z.abs (a * b) * 2 ^ (104 - la - lb)).
    { rewrite Pos2Z.inj_mul, !Z2Pos.id by lia. rewrite Z.abs_mul.
      replace (104 - la - lb) with ((52 - la) + (52 - lb)) by lia.
      rewrite Z.pow_add_r by lia. ring. }
    destruct (lab + 52 - la - lb) as [|n|n] eqn:En; try lia.
    rewrite (round_aux_shift _ _ _ n).
    + f_equal; [| lia]. f_equal. rewrite HP.
      replace (104 - la - lb) with ((52 - lab) + Z.pos n) by lia.
      rewrite Z.pow_add_r, Z.mul_assoc, Z.div_mul by lia. reflexivity.
    + rewrite HP, Z.log2_mul_pow2 by lia. fold lab. lia.
    + rewrite HP. exists (Z.abs (a * b) * 2 ^ (104 - la - lb - Z.pos n)).
      rewrite <- Z.mul_assoc, <- Z.pow_add_r by lia. f_equal. f_equal. lia.
    + lia.
Qed.

Lemma int_canonical_quarters (z : Z) :
  Z.abs z < 2 ^ 50 -> Py.int (canonical (4 * z) (-2)) = z.
Proof.
  intros Hz. destruct (Z.eq_dec z 0) as [-> | Hne]; [reflexivity |].
  rewrite canonical_finite by lia.
  set (l := Z.log2 (Z.abs (4 * z))).
  assert (Hl : 2 <= l <= 51).
  { unfold l. replace (Z.abs (4 * z)) with (Z.abs z * 2 ^ 2) by lia.
    rewrite Z.log2_mul_pow2 by lia.
    pose proof (Z.log2_nonneg (Z.abs z)).
    assert (Z.log2 (Z.abs z) < 50); [apply Z.log2_lt_pow2; lia | lia]. }
  unfold Py.int.
  destruct (Z.leb_spec 0 (l + -2 - 52)) as [H | H]; [lia |].
  assert (Hm : Z.abs (4 * z) * 2 ^ (52 - l) = Z.abs z * 2 ^ (- (l + -2 - 52))).
  { replace (- (l + -2 - 52)) with (2 + (52 - l)) by lia.
    rewrite Z.pow_add_r by lia. lia. }
  rewrite Z2Pos.id by (apply Z.mul_pos_pos; lia).
  rewrite Hm, Z.div_mul by lia.
  destruct (Z.ltb_spec (4 * z) 0); lia.
Qed.

Lemma grid_to_px_coordinate (k : Z) :
  Z.abs k < 2 ^ 40 ->
  Py.int (Py.fadd (Py.fmul (quarter k) (Py.float_of_int TILE_SIZE))
                  (Py.fdiv (Py.float_of_int TILE_SIZE) (Py.float_of_int 2))) = 6 * k + 12.
Proof.
  intros Hk.
  assert (H24 : Py.float_of_int TILE_SIZE = canonical 24 0) by (vm_compute; reflexivity).
  assert (H12 : Py.fdiv (Py.float_of_int TILE_SIZE) (Py.float_of_int 2) = canonical 48 (-2))
    by (vm_compute; reflexivity).
  rewrite H12, H24, quarter_canonical by lia.
  rewrite fmul_canonical by lia.
  rewrite fadd_canonical by lia.
  replace (k * 24 + 48) with (4 * (6 * k + 12)) by lia.
  apply int_canonical_quarters. lia.
Qed.

(** X24.  For a position whose coordinates are the doubles nearest to
    [kx / 4] and [ky / 4], the pixel centre [grid_to_px] computes is exactly
    [(6 * kx + 12, 6 * ky + 12)]: no rounding occurs; for the centre of the
    tile [(x, y)] it is [(24 * x + 12, 24 * y + 12)]. *)
Theorem grid_to_px_on_quarters (kx ky : Z) :
  Z.abs kx < 2 ^ 40 -> Z.abs ky < 2 ^ 40 ->
  grid_to_px (quarter kx, quarter ky) = (6 * kx + 12, 6 * ky + 12) /\
  (kx mod 4 = 0 -> ky mod 4 = 0 ->
   grid_to_px (Py.float_of_int (kx / 4), Py.float_of_int (ky / 4))
   = (TILE_SIZE * (kx / 4) + TILE_SIZE / 2, TILE_SIZE * (ky / 4) + TILE_SIZE / 2)).
Proof.
  intros Hx Hy.
  assert (H : grid_to_px (quarter kx, quarter ky) = (6 * kx + 12, 6 * ky + 12)).
  { unfold grid_to_px. rewrite !grid_to_px_coordinate by assumption. reflexivity. }
  split; [exact H |].
  intros Mx My.
  assert (Ex : kx = 4 * (kx / 4)) by (apply Z.div_exact; lia).
  assert (Ey : ky = 4 * (ky / 4)) by (apply Z.div_exact; lia).
  rewrite !float_of_int_quarter by lia. rewrite <- Ex, <- Ey, H.
  change TILE_SIZE with 24. change (24 / 2) with 12. f_equal; lia.
Qed.

Lemma grid_to_px_on_quarters_witness :
  grid_to_px (quarter 5, quarter 12) = (42, 84).
Proof.
  apply (grid_to_px_on_quarters 5 12); vm_compute; reflexivity.
Defined.

(** ** The collision test *)

Lemma shr_1_m (r : shr_record) : 0 <= shr_m r -> shr_m (shr_1 r) = shr_m r / 2.
Proof.
  destruct r as [m rb sb]. cbn [shr_m]. intros Hm.
  destruct m as [|[p|p|]|p]; cbn [shr_1 shr_m]; try lia.
  - reflexivity.
  - rewrite Pos2Z.inj_xI. apply (Z.div_unique _ 2 _ 1); lia.
  - rewrite Pos2Z.inj_xO. apply (Z.div_unique _ 2 _ 0); lia.
  - reflexivity.
Qed.

Lemma iter_shr_m (n : nat) (r : shr_record) :
  0 <= shr_m r -> shr_m (Nat.iter n shr_1 r) = shr_m r / 2 ^ Z.of_nat n.
Proof.
  intros Hm. induction n as [|n IH].
  - cbn. rewrite Z.div_1_r. reflexivity.
  - rewrite Nat.iter_succ. rewrite shr_1_m by (rewrite IH; apply Z.div_pos; lia).
    rewrite IH, Z.div_div, Nat2Z.inj_succ, Z.pow_succ_r by lia.
    f_equal. lia.
Qed.

Lemma shr_fexp_pos (m e : Z) (l : location) :
  0 < m -> -1074 <= e ->
  0 < shr_m (shr_fexp Py.prec Py.emax m e l).1 /\ e <= (shr_fexp Py.prec Py.emax m e l).2.
Proof.
  intros Hm He. unfold shr_fexp, shr.
  assert (Hrec : shr_m (shr_record_of_loc m l) = m) by (destruct l as [|[]]; reflexivity).
  destruct m as [|p|p]; try lia. cbn [Zdigits2]. rewrite digits2_pos_log2.
  destruct (fexp Py.prec Py.emax (Z.log2 (Z.pos p) + 1 + e) - e) as [|k|k] eqn:Ek;
    cbn [fst snd]; rewrite ?Hrec; try lia.
  rewrite iter_pos_nat, iter_shr_m by (rewrite Hrec; lia).
  rewrite Hrec, positive_nat_Z. split; [| lia].
  assert (Hk : Z.pos k <= Z.log2 (Z.pos p)).
  { revert Ek. cbv [fexp emin Py.prec Py.emax]. lia. }
  apply Z.div_str_pos. split; [lia |].
  apply Z.le_trans with (2 ^ Z.log2 (Z.pos p)).
  - apply Z.pow_le_mono_r; lia.
  - apply Z.log2_spec. lia.
Qed.

Lemma round_aux_lower (s : bool) (q e : Z) (l : location) :
  0 < q -> -1074 <= e ->
  binary_round_aux Py.prec Py.emax s q e l = S754_infinity s \/
  exists m e', binary_round_aux Py.prec Py.emax s q e l = S754_finite s m e' /\ e <= e'.
Proof.
  intros Hq He. unfold binary_round_aux.
  destruct (shr_fexp_pos q e l Hq He) as [H1 H2].
  destruct (shr_fexp Py.prec Py.emax q e l) as [mrs' e1]. cbn [fst snd] in *.
  assert (Hr : 0 < round_nearest_even (shr_m mrs') (loc_of_shr_record mrs')).
  { unfold round_nearest_even. destruct (loc_of_shr_record mrs') as [|[]]; try lia.
    destruct (Z.even _); lia. }
  destruct (shr_fexp_pos _ e1 loc_Exact Hr ltac:(lia)) as [H3 H4].
  destruct (shr_fexp Py.prec Py.emax _ e1 loc_Exact) as [mrs'' e2]. cbn [fst snd] in *.
  destruct (shr_m mrs'') as [|m|m]; try lia.
  destruct (e2 <=? Py.emax - Py.prec); [right | left; reflexivity].
  exists m, e2. split; [reflexivity | lia].
Qed.

Lemma sqrt_core_lower (mx : positive) (ex : Z) :
  Z.log2 (Z.pos mx) = 52 -> -44 <= ex <= 0 ->
  0 < (SFsqrt_core_binary Py.prec Py.emax (Z.pos mx) ex).1.1 /\
  -48 <= (SFsqrt_core_binary Py.prec Py.emax (Z.pos mx) ex).1.2.
Proof.
  intros Hlog Hex. unfold SFsqrt_core_binary. cbn [Zdigits2].
  rewrite digits2_pos_log2, Hlog, !Z.div2_div.
  set (e' := Z.min (fexp Py.prec Py.emax ((52 + 1 + ex + 1) / 2)) (ex / 2)).
  assert (He' : -48 <= e' <= -26).
  { unfold e'. cbv [fexp emin Py.prec Py.emax].
    assert (5 <= (52 + 1 + ex + 1) / 2 <= 27).
    { split; [apply Z.div_le_lower_bound | apply Z.div_le_upper_bound]; lia. }
    assert (-22 <= ex / 2) by (apply Z.div_le_lower_bound; lia).
    lia. }
  destruct (ex - 2 * e') as [|p|p] eqn:Es; try lia.
  assert (Hm : 0 < Z.shiftl (Z.pos mx) (Z.pos p)).
  { rewrite Z.shiftl_mul_pow2 by lia. apply Z.mul_pos_pos; lia. }
  pose proof (Z.sqrtrem_spec (Z.shiftl (Z.pos mx) (Z.pos p)) ltac:(lia)) as Hspec.
  destruct (Z.sqrtrem (Z.shiftl (Z.pos mx) (Z.pos p))) as [q r].
  cbn [fst snd]. split; [nia | lia].
Qed.

Lemma sqrt_far (n : Z) :
  256 <= n < 2 ^ 53 ->
  Py.flt (SFsqrt Py.prec Py.emax (Py.float_of_int n))
         (Py.fmul (Py.float_of_int TILE_SIZE) (Py.literal 6 10)) = false.
Proof.
  intros Hn.
  assert (Hthr : exists mt, Py.fmul (Py.float_of_int TILE_SIZE) (Py.literal 6 10)
                            = S754_finite false mt (-49))
    by (vm_compute; eexists; reflexivity).
  destruct Hthr as [mt ->].
  assert (Hf : Py.float_of_int n = canonical n 0).
  { unfold Py.float_of_int. rewrite <- (Z.mul_1_r n) at 1. change 1 with (2 ^ 0).
    apply (dyadic_canonical n 0 0); lia. }
  rewrite Hf, canonical_finite by lia.
  replace (n <? 0) with false by (symmetry; apply Z.ltb_ge; lia).
  rewrite Z.abs_eq by lia.
  set (l := Z.log2 n).
  assert (Hl : 8 <= l <= 52).
  { split.
    - apply (Z.log2_le_mono 256 n). lia.
    - assert (l < 53); [apply Z.log2_lt_pow2; lia | lia]. }
  assert (Hpos : 0 < n * 2 ^ (52 - l)) by (apply Z.mul_pos_pos; lia).
  assert (Hlog : Z.log2 (Z.pos (Z.to_pos (n * 2 ^ (52 - l)))) = 52).
  { rewrite Z2Pos.id by exact Hpos. rewrite Z.log2_mul_pow2 by lia. fold l. lia. }
  unfold SFsqrt.
  destruct (sqrt_core_lower (Z.to_pos (n * 2 ^ (52 - l))) (l + 0 - 52) Hlog ltac:(lia))
    as [Hq He].
  destruct (SFsqrt_core_binary Py.prec Py.emax (Z.pos (Z.to_pos (n * 2 ^ (52 - l)))) (l + 0 - 52))
    as [[q e'] loc]. cbn [fst snd] in *.
  destruct (round_aux_lower false q e' loc Hq ltac:(lia)) as [-> | (m & e2 & -> & He2)].
  - reflexivity.
  - unfold Py.flt, SFltb, SFcompare.
    destruct (Z.compare_spec e2 (-49)); first [reflexivity | lia].
Qed.

Lemma dist2_nonneg (a b : Z * Z) : 0 <= dist2 a b.
Proof.
  unfold dist2. pose proof (Z.square_nonneg (a.1 - b.1)). pose proof (Z.square_nonneg (a.2 - b.2)).
  lia.
Qed.

Lemma hit_dist2 (pp gp : Z * Z) :
  dist2 pp gp < 2 ^ 53 -> (Game.hit pp gp = true <-> dist2 pp gp <= 207).
Proof.
  intros Hn. pose proof (dist2_nonneg pp gp) as H0.
  destruct (Z.lt_ge_cases (dist2 pp gp) 4096) as [Hnear | Hfar].
  - rewrite (hit_near pp gp Hnear). fold (dist2 pp gp). lia.
  - unfold Game.hit, Game.hypot. fold (dist2 pp gp).
    rewrite sqrt_far by lia. split; [discriminate | lia].
Qed.

(** X25.  The collision test is symmetric in the two pixel centres, and
    for centres whose squared distance is below [2^53] it succeeds exactly
    when the squared distance is at most 207, that is, when the distance is
    below [0.6 * TILE_SIZE = 14.4]: the rounding of [math.hypot] and of the
    product [TILE_SIZE * 0.6] never changes the outcome. *)
Theorem collision_threshold (pp gp : Z * Z) :
  Game.hit pp gp = Game.hit gp pp /\
  (dist2 pp gp < 2 ^ 53 ->
   (Game.hit pp gp = true <-> dist2 pp gp <= 207) /\
   (Game.hit pp gp = true <-> 25 * dist2 pp gp < 72 * 72)).
Proof.
  split.
  - unfold Game.hit, Game.hypot. do 3 f_equal. ring.
  - intros Hn. rewrite hit_dist2 by assumption. split; [reflexivity | split; lia].
Qed.

Lemma collision_threshold_witness :
  Game.hit (0, 0) (3000, 4000) = false /\ Game.hit (12, 12) (22, 22) = true.
Proof.
  pose proof (collision_threshold (0, 0) (3000, 4000)) as [_ H1].
  pose proof (collision_threshold (12, 12) (22, 22)) as [_ H2].
  specialize (H1 ltac:(vm_compute; reflexivity)). specialize (H2 ltac:(vm_compute; reflexivity)).
  destruct H1 as [H1 _]. destruct H2 as [H2 _].
  split.
  - destruct (Game.hit (0, 0) (3000, 4000)); [| reflexivity].
    exfalso. pose proof (proj1 H1 eq_refl) as H. vm_compute in H. apply H. reflexivity.
  - apply H2. vm_compute. discriminate.
Defined.

(** X26.  Two entities that stand on the centres of tiles collide
    exactly when they stand on the same tile. *)
Theorem centres_collide_on_same_tile (x y x' y' : Z) :
  Z.abs x < 2 ^ 20 -> Z.abs y < 2 ^ 20 -> Z.abs x' < 2 ^ 20 -> Z.abs y' < 2 ^ 20 ->
  Game.hit (grid_to_px (Py.float_of_int x, Py.float_of_int y))
           (grid_to_px (Py.float_of_int x', Py.float_of_int y')) = true
  <-> (x, y) = (x', y').
Proof.
  intros Hx Hy Hx' Hy'.
  assert (Hpx : forall a b, Z.abs a < 2 ^ 20 -> Z.abs b < 2 ^ 20 ->
            grid_to_px (Py.float_of_int a, Py.float_of_int b) = (24 * a + 12, 24 * b + 12)).
  { intros a b Ha Hb. rewrite !float_of_int_quarter by lia.
    unfold grid_to_px. rewrite !grid_to_px_coordinate by lia. f_equal; lia. }
  rewrite !Hpx by assumption.
  assert (Hd : dist2 (24 * x + 12, 24 * y + 12) (24 * x' + 12, 24 * y' + 12)
               = 576 * ((x - x') * (x - x') + (y - y') * (y - y'))).
  { unfold dist2. cbn [fst snd]. ring. }
  pose proof (Z.square_nonneg (x - x')) as S1. pose proof (Z.square_nonneg (y - y')) as S2.
  assert (B1 : (x - x') * (x - x') < 2 ^ 42).
  { assert (Z.abs (x - x') < 2 ^ 21) by lia.
    rewrite <- Z.abs_square. change (2 ^ 42) with (2 ^ 21 * 2 ^ 21).
    apply Z.mul_lt_mono_nonneg; lia. }
  assert (B2 : (y - y') * (y - y') < 2 ^ 42).
  { assert (Z.abs (y - y') < 2 ^ 21) by lia.
    rewrite <- Z.abs_square. change (2 ^ 42) with (2 ^ 21 * 2 ^ 21).
    apply Z.mul_lt_mono_nonneg; lia. }
  rewrite hit_dist2 by (rewrite Hd; lia).
  rewrite Hd. split.
  - intros H.
    assert (E1 : (x - x') * (x - x') = 0) by lia.
    assert (E2 : (y - y') * (y - y') = 0) by lia.
    f_equal; nia.
  - intros E. injection E as -> ->. lia.
Qed.

Lemma centres_collide_on_same_tile_witness :
  Game.hit (grid_to_px (Py.float_of_int 6, Py.float_of_int 9))
           (grid_to_px (Py.float_of_int 7, Py.float_of_int 9)) = false.
Proof.
  pose proof (centres_collide_on_same_tile 6 9 7 9
                ltac:(vm_compute; reflexivity) ltac:(vm_compute; reflexivity)
                ltac:(vm_compute; reflexivity) ltac:(vm_compute; reflexivity)) as H.
  destruct (Game.hit _ _); [| reflexivity].
  exfalso. pose proof (proj1 H eq_refl) as E. discriminate E.
Defined.

(** ** The wall clamp of the player *)

(** X27.  In every reachable state of a game on a small maze the wall
    clamp is idle: [_clamp_inside_walls] leaves the player as it is, before
    and after the move of [update], so that [update] is the turn, the stop
    test and the move alone. *)
Theorem clamp_is_idle (m : Maze.t) (s : Game.t) :
  small_maze m ->
  Game.reachable_from m s ->
  (forall m', Player._clamp_inside_walls m' (Game.player s) = Game.player s) /\
  Player.update (Game.maze s) (Game.player s) =
    Player.move (Player.stop_if_blocked (Game.maze s) (Player.turn (Game.maze s) (Game.player s))).
Proof.
  intros Hm Hr.
  destruct (reachable_inv m s Hm Hr) as [Hf Hp].
  destruct Hp as (Hs & Hd & Hn & tx & ty & o & Hok & Ho & Hgo & Hpos).
  destruct (ok_tile_bound _ tx ty Hm Hok) as [Btx Bty].
  destruct (valid_dir_components _ Hd) as [Hd1 Hd2].
  destruct (valid_dir_components _ Hn) as [Hn1 Hn2].
  split.
  - intros m'. apply (clamp_quarters _ _ _ Hpos); lia.
  - unfold Player.update.
    set (q := Player.stop_if_blocked (Game.maze s) (Player.turn (Game.maze s) (Game.player s))).
    destruct (turn_facts (Game.maze s) (Game.player s)) as (T1 & T2 & T3 & T4 & _).
    destruct (stop_facts (Game.maze s) (Player.turn (Game.maze s) (Game.player s)))
      as (S1 & S2 & S3 & S4 & _).
    fold q in S1, S2, S3, S4.
    assert (Hq : Player.pos q = Player.pos (Game.player s)) by congruence.
    assert (Hqs : Player.speed q = quarter 1) by congruence.
    assert (Hqd : valid_dir (Player.dir q)).
    { destruct S4 as [E | [E _]]; rewrite E; [left; reflexivity |].
      destruct T4 as [E' | E']; rewrite E'; assumption. }
    destruct (valid_dir_components _ Hqd) as [Hq1 Hq2].
    rewrite Hpos in Hq.
    pose proof (move_quarters q _ _ Hq ltac:(lia) ltac:(lia) Hqs Hqd) as Hmove.
    apply (clamp_quarters _ _ _ Hmove); lia.
Qed.

Lemma clamp_is_idle_witness :
  Player._clamp_inside_walls Game._build_maze (Game.player (Game.play chase fresh_game []).1)
  = Game.player (Game.play chase fresh_game []).1.
Proof.
  assert (Hrun : Game.keeps_running chase fresh_game [] = true) by (vm_compute; reflexivity).
  pose proof (play_reachable Game._build_maze chase fresh_game [] (Game.reach_init _ []) Hrun)
    as Hreach.
  pose proof (clamp_is_idle Game._build_maze _ build_maze_small Hreach) as [H _].
  exact (H Game._build_maze).
Defined.

Lemma player_off_walls_witness :
  tile_of (Player.pos (Game.player (Game.play chase fresh_game []).1))
    ∉ Maze.walls (Game.maze (Game.play chase fresh_game []).1).
Proof.
  assert (Hrun : Game.keeps_running chase fresh_game [] = true) by (vm_compute; reflexivity).
  pose proof (play_reachable Game._build_maze chase fresh_game [] (Game.reach_init _ []) Hrun)
    as Hreach.
  exact (player_off_walls _ Hreach).
Defined.

Lemma life_loss_reset_lasts_witness :
  after_reset
    (Game.collide_from (grid_to_px (Player.pos (Game.player meets_pursuer))) 0 4
       meets_pursuer [2%nat]).1.
Proof.
  assert (H0 : Game.ghosts meets_pursuer !! 0%nat = Some (pursuer_at_home GHOST_NORMAL))
    by (vm_compute; reflexivity).
  assert (Hhit : Game.hit (grid_to_px (Player.pos (Game.player meets_pursuer)))
                          (grid_to_px (Ghost.pos (pursuer_at_home GHOST_NORMAL))) = true)
    by (vm_compute; reflexivity).
  assert (Hl : 2 <= Player.lives (Game.player meets_pursuer)) by (vm_compute; discriminate).
  exact (life_loss_reset_lasts _ 0 3 meets_pursuer _ [2%nat] H0 eq_refl Hhit Hl).
Defined.
